(** * trakr: filtered queries and bulk mutations

    A shallow embedding of the query and bulk-mutation services of the
    trakr backend ([app/services/alarms_service.py], [tags_service.py],
    [routes_service.py]), of the request validators
    ([app/schemas/alarms.py], [app/schemas/tags.py]) and of the connection
    scope ([app/db/connection.py]).

    Tables are lists of rows, SQL statements are list programs over them
    (nested-loop joins, filters, a stable sort, a window), the psycopg2
    connection is a record holding the durable and the in-transaction
    database, and Python exceptions are values of an error type.

    A statement reaches the rows only through the server's parser, which
    refuses a table alias that is a reserved key word, and a statement
    that fails aborts the transaction it runs in.  [Alarms] has the
    handling columns that the services read and write. *)

From Stdlib Require Import ZArith List Ascii String Lia Permutation.
From Stdlib Require Import Floats.SpecFloat.
From stdpp Require Import base list strings gmap pretty.
Import ListNotations.

Local Open Scope Z_scope.

(** ** Python values *)

Module Py.

(** [x or "Unknown"] on an optional string: [None] and the empty string
    are both falsy. *)
Definition or_str (x : option string) (dflt : string) : string :=
match x with
| Some (String c s) => String c s
| _ => dflt
end.

(** Truthiness of an optional string, as tested by [if f.organization:]. *)
Definition truthy_str (x : option string) : bool :=
match x with
| Some (String _ _) => true
| _ => false
end.

(** Truthiness of an optional boolean, as tested by [if alarm[2]]. *)
Definition truthy_bool (x : option bool) : bool :=
match x with
| Some true => true
| _ => false
end.

(** [str] of a list of integers, as an f-string renders it: [[1, 2, 3]]. *)
Definition repr_list (l : list Z) : string :=
"[" +:+ String.concat ", " (map pretty l) +:+ "]".

(** [x in l] on integers. *)
Definition mem (x : Z) (l : list Z) : bool := bool_decide (x ∈ l).

End Py.

(** ** HTTP errors and Python exceptions *)

Module Http.

Definition HTTP_400_BAD_REQUEST : Z := 400.
Definition HTTP_404_NOT_FOUND : Z := 404.
Definition HTTP_500_INTERNAL_SERVER_ERROR : Z := 500.

Record HTTPException := { status_code : Z; detail : string }.

(** The exceptions that travel through the services: [HTTPException],
    the [ValueError] of a validator, and any other [Exception] (driver,
    database or pool errors). *)
Inductive exn :=
| HTTPExc (e : HTTPException)
| ValueError (msg : string)
| OtherExc (msg : string).

Inductive result (A : Type) :=
| Ok (a : A)
| Raise (e : exn).
Arguments Ok {A} a.
Arguments Raise {A} e.

End Http.
Export Http.

(** ** Request validators (pydantic) *)

Module Validators.

(** [AlarmHandleRequest.validate_alarm_ids]. *)
Definition validate_alarm_ids (v : list Z) : result (list Z) :=
if bool_decide (v = []) then
  Raise (ValueError "At least one alarm ID must be provided")
else if bool_decide (100 < length v)%nat then
  Raise (ValueError "Cannot handle more than 100 alarms at once")
else if bool_decide (size (list_to_set v : gset Z) ≠ length v) then
  Raise (ValueError "Duplicate alarm IDs are not allowed")
else Ok v.

(** [TagTransferRequest.validate_tag_ids]. *)
Definition validate_tag_ids (v : list Z) : result (list Z) :=
if bool_decide (v = []) then
  Raise (ValueError "At least one tag ID must be provided")
else if bool_decide (100 < length v)%nat then
  Raise (ValueError "Cannot transfer more than 100 tags at once")
else Ok v.

End Validators.

(** ** Tables

    One module per table, named after the alias the queries give it
    ([a], [t], [tobj] for [to], [o], [r]).  A row carries the columns the
    services read, with the types the response schemas declare for them;
    timestamps are integers (seconds) and coordinates binary64 values. *)

Module A.
Record row := {
  sn : Z;
  organization : string;
  imei : string;
  warn_type : string;
  time : Z;
  check_the_time : option Z;
  check_time : option string;
  is_handled : option bool;
  handled_by : option string;
  handled_at : option Z;
  handle_reason : option string
}.
End A.

Module T.
Record row := {
  sn : Z;
  organization : string;
  imei : string;
  signal : option Z;
  power : option Z;
  charge_status : option string;
  tracking_update_time : option Z;
  data_update_time : option Z;
  bluetooth_mark : option string
}.
End T.

Module TO.
Record row := {
  sn : Z;
  organization : string;
  name : string;
  role : option string;
  mac : option string
}.
End TO.

Module O.
Record row := {
  id : Z;
  organization_name : string;
  title : option string
}.
End O.

Module R.
Record row := {
  sn : Z;
  terminal_id : string;
  tracking_time : Z;
  gps_x : option spec_float;
  gps_y : option spec_float
}.
End R.

Record Database := {
  Alarms : list A.row;
  Tags : list T.row;
  Tracking_Objects : list TO.row;
  Organizations : list O.row;
  Route_List : list R.row
}.

(** ** Relational operators *)

Module Sql.

(** The largest [bigint], 2^63 - 1. *)
Definition bigint_max : Z := 9223372036854775807.

Section Operators.
Context {X Y : Type}.

(** [xs LEFT JOIN ys ON on]: every match, or one row padded with NULL. *)
Definition left_join (on : X → Y → bool) (xs : list X) (ys : list Y)
  : list (X * option Y) :=
flat_map (λ x,
  match List.filter (on x) ys with
  | [] => [(x, None)]
  | ms => map (λ y, (x, Some y)) ms
  end) xs.

(** [xs JOIN ys ON on]. *)
Definition inner_join (on : X → Y → bool) (xs : list X) (ys : list Y)
  : list (X * Y) :=
flat_map (λ x, map (λ y, (x, y)) (List.filter (on x) ys)) xs.

(** Stable insertion sort; [before x y] says that [x] may stand in front
    of an equal-or-later [y].  Rows with equal keys stay in the order of
    the input; the server promises no order among them. *)
Fixpoint insert_by (before : X → X → bool) (x : X) (l : list X) : list X :=
match l with
| [] => [x]
| y :: l' => if before x y then x :: y :: l' else y :: insert_by before x l'
end.

Definition sort_by (before : X → X → bool) (l : list X) : list X :=
foldr (insert_by before) [] l.

(** [ORDER BY key DESC] and [ORDER BY key] on an integer key. *)
Definition order_by_desc (key : X → Z) : list X → list X :=
sort_by (λ x y, key y <=? key x).

Definition order_by_asc (key : X → Z) : list X → list X :=
sort_by (λ x y, key x <=? key y).

(** [LIMIT lim OFFSET off]: both are [bigint] to the server, which
    refuses a negative value and one beyond [bigint_max]. *)
Definition limit_offset (lim off : Z) (rows : list X) : result (list X) :=
if (lim <? 0) || (off <? 0) then
  Raise (OtherExc "LIMIT and OFFSET must not be negative")
else if (bigint_max <? lim) || (bigint_max <? off) then
  Raise (OtherExc "bigint out of range")
else Ok (take (Z.to_nat lim) (drop (Z.to_nat off) rows)).

(** [ROW_NUMBER() OVER (...)] on rows already in window order. *)
Definition row_number (rows : list X) : list (Z * X) :=
zip (map Z.of_nat (seq 1 (length rows))) rows.

(** [cur.fetchone()]. *)
Definition fetchone (rows : list X) : option X := head rows.

End Operators.

(** [s ILIKE pat] on ASCII: [%] matches any run of characters, [_] any
    one character, a backslash quotes the next pattern character, and
    letters compare without case. *)
Definition lower (c : ascii) : ascii :=
let n := nat_of_ascii c in
if ((65 <=? n) && (n <=? 90))%nat then ascii_of_nat (n + 32) else c.

Fixpoint ilike_go (pat : list ascii) (s : list ascii) {struct pat} : bool :=
match pat with
| [] => match s with [] => true | _ => false end
| "%"%char :: pat' =>
    (fix skip (s : list ascii) : bool :=
       ilike_go pat' s ||
       match s with [] => false | _ :: s' => skip s' end) s
| "_"%char :: pat' =>
    match s with [] => false | _ :: s' => ilike_go pat' s' end
| "\"%char :: c :: pat' =>
    match s with
    | [] => false
    | d :: s' => Ascii.eqb (lower c) (lower d) && ilike_go pat' s'
    end
| c :: pat' =>
    match s with
    | [] => false
    | d :: s' => Ascii.eqb (lower c) (lower d) && ilike_go pat' s'
    end
end.

Definition ilike (s pat : string) : bool :=
ilike_go (list_ascii_of_string pat) (list_ascii_of_string s).

(** The key words that PostgreSQL reserves, and those it keeps for the
    names of functions and types: written without quotes, none of them
    can be the alias of a table. *)
Definition reserved_key_words : list string :=
["all"; "analyse"; "analyze"; "and"; "any"; "array"; "as"; "asc";
 "asymmetric"; "both"; "case"; "cast"; "check"; "collate"; "column";
 "constraint"; "create"; "current_catalog"; "current_date"; "current_role";
 "current_time"; "current_timestamp"; "current_user"; "default";
 "deferrable"; "desc"; "distinct"; "do"; "else"; "end"; "except"; "false";
 "fetch"; "for"; "foreign"; "from"; "grant"; "group"; "having"; "in";
 "initially"; "intersect"; "into"; "lateral"; "leading"; "limit";
 "localtime"; "localtimestamp"; "not"; "null"; "offset"; "on"; "only"; "or";
 "order"; "placing"; "primary"; "references"; "returning"; "select";
 "session_user"; "some"; "symmetric"; "system_user"; "table"; "then"; "to";
 "trailing"; "true"; "union"; "unique"; "user"; "using"; "variadic"; "when";
 "where"; "window"; "with"].

Definition type_func_name_key_words : list string :=
["authorization"; "binary"; "collation"; "concurrently"; "cross";
 "current_schema"; "freeze"; "full"; "ilike"; "inner"; "is"; "isnull";
 "join"; "left"; "like"; "natural"; "notnull"; "outer"; "overlaps"; "right";
 "similar"; "tablesample"; "verbose"].

(** An identifier without quotes is folded to lower case. *)
Definition fold_case (ident : string) : string :=
string_of_list_ascii (map lower (list_ascii_of_string ident)).

Definition alias_refused (ident : string) : bool :=
bool_decide (fold_case ident ∈ reserved_key_words ++ type_func_name_key_words).

(** The parser, on the aliases that a statement gives its tables: one
    that it refuses is a syntax error, and the statement is not run. *)
Definition parse (aliases : list string) : result unit :=
if existsb alias_refused aliases then Raise (OtherExc "SyntaxError")
else Ok tt.

End Sql.

(** ** The connection as the bulk services use it

    [durable] is what has been committed, [working] what the open
    transaction sees.  [cur.execute] opens a transaction when none is
    open; [conn.commit()] and [conn.rollback()] do nothing outside one
    (psycopg2).  A statement on which the server raises an error aborts
    the transaction: the server then refuses every further statement and
    ends the transaction by undoing it, also on [conn.commit()].  [log]
    records what reached the server, oldest first. *)

Module Db.

Inductive statement :=
| SELECT_alarms_by_ids (ids : list Z)
| UPDATE_alarm (handled_by : string) (now : Z) (reason : option string) (sn : Z)
| SELECT_organization_by_id (id : Z)
| SELECT_tags_by_ids (ids : list Z)
| UPDATE_tag (organization : string) (sn : Z).

Inductive event :=
| Execute (s : statement)
| Commit
| Rollback.

(** No transaction, a transaction in progress, a transaction that an
    error has aborted. *)
Inductive tx_status := STATUS_READY | STATUS_BEGIN | STATUS_INERROR.

Record World := {
  durable : Database;
  working : Database;
  status : tx_status;
  log : list event;
  clock : nat
}.

(** What the services do not control: the clock ([utcnow n] is its
    [n]-th reading), whether the server raises an error on the UPDATE of
    a given target (a lock that is not granted in time, a deadlock, a
    trigger that fails), and what concurrent sessions commit between the
    checks and the updates of a bulk call. *)
Record Env := {
  utcnow : nat → Z;
  execute_raises : Z → bool;
  interfere : Database → Database
}.

(** A piece of service code: it runs in a world and returns or raises. *)
Definition M (A : Type) : Type := World → result A * World.

Definition ret {A} (a : A) : M A := λ w, (Ok a, w).

Definition bind {A B} (m : M A) (k : A → M B) : M B :=
λ w, match m w with
     | (Ok a, w') => k a w'
     | (Raise e, w') => (Raise e, w')
     end.

Definition raise {A} (e : exn) : M A := λ w, (Raise e, w).

Definition raise_http {A} (code : Z) (msg : string) : M A :=
raise (HTTPExc {| status_code := code; detail := msg |}).

End Db.
Export Db.

#[global] Instance M_ret : MRet Db.M := @Db.ret.
#[global] Instance M_bind : MBind Db.M := λ A B k m, Db.bind m k.

Module Conn.

Definition set_alarms (db : Database) (l : list A.row) : Database :=
{| Alarms := l; Tags := Tags db; Tracking_Objects := Tracking_Objects db;
   Organizations := Organizations db; Route_List := Route_List db |}.

Definition set_tags (db : Database) (l : list T.row) : Database :=
{| Alarms := Alarms db; Tags := l; Tracking_Objects := Tracking_Objects db;
   Organizations := Organizations db; Route_List := Route_List db |}.

(** The server receives statement [s], which leaves the transaction's
    database as [db']. *)
Definition sent (s : statement) (db' : Database) (w : World) : World :=
{| durable := durable w; working := db'; status := STATUS_BEGIN;
   log := log w ++ [Execute s]; clock := clock w |}.

(** The server receives statement [s] and answers with an error: the
    transaction is aborted. *)
Definition refused (s : statement) (w : World) : World :=
{| durable := durable w; working := working w; status := STATUS_INERROR;
   log := log w ++ [Execute s]; clock := clock w |}.

(** [cur.execute(s)] and what the cursor then holds.  [run] is what the
    server computes on the transaction's database, the answer and the
    database it leaves, unless [raises] says that it answers with an
    error; in an aborted transaction it answers so to every statement. *)
Definition execute {A} (s : statement) (raises : bool)
  (run : Database → A * Database) : M A :=
λ w, match status w with
     | STATUS_INERROR =>
         (Raise (OtherExc "InFailedSqlTransaction"), refused s w)
     | _ =>
         if raises then (Raise (OtherExc "DatabaseError"), refused s w)
         else (Ok (run (working w)).1, sent s (run (working w)).2 w)
     end.

(** [datetime.utcnow()]. *)
Definition now (env : Env) : M Z :=
λ w, (Ok (utcnow env (clock w)),
      {| durable := durable w; working := working w; status := status w;
         log := log w; clock := S (clock w) |}).

(** [conn.commit()]; the server answers the COMMIT of an aborted
    transaction by rolling it back, and the driver raises nothing. *)
Definition commit_world (w : World) : World :=
match status w with
| STATUS_READY => w
| STATUS_BEGIN =>
    {| durable := working w; working := working w; status := STATUS_READY;
       log := log w ++ [Commit]; clock := clock w |}
| STATUS_INERROR =>
    {| durable := durable w; working := durable w; status := STATUS_READY;
       log := log w ++ [Commit]; clock := clock w |}
end.

Definition commit : M unit := λ w, (Ok tt, commit_world w).

(** [conn.rollback()]. *)
Definition rollback_world (w : World) : World :=
match status w with
| STATUS_READY => w
| STATUS_BEGIN | STATUS_INERROR =>
    {| durable := durable w; working := durable w; status := STATUS_READY;
       log := log w ++ [Rollback]; clock := clock w |}
end.

(** [with conn: body]: commit when the body returns, roll back when it
    raises, and let the exception through. *)
Definition with_conn {A} (body : M A) : M A :=
λ w, match body w with
     | (Ok a, w') => (Ok a, commit_world w')
     | (Raise e, w') => (Raise e, rollback_world w')
     end.

(** [try: body / except HTTPException: raise / except Exception: raise
    HTTPException(500, msg)]. *)
Definition reraise_http {A} (msg : string) (body : M A) : M A :=
λ w, match body w with
     | (Raise (HTTPExc e), w') => (Raise (HTTPExc e), w')
     | (Raise _, w') =>
         (Raise (HTTPExc {| status_code := HTTP_500_INTERNAL_SERVER_ERROR;
                            detail := msg |}), w')
     | r => r
     end.

(** [try: body / except Exception: handler]. *)
Definition try_except {A} (body : M A) (handler : exn → M A) : M A :=
λ w, match body w with
     | (Raise e, w') => handler e w'
     | r => r
     end.

(** Concurrent sessions commit; the open transaction sees it. *)
Definition concurrent_activity (env : Env) : M unit :=
λ w, (Ok tt,
      {| durable := interfere env (durable w);
         working := interfere env (working w);
         status := status w; log := log w; clock := clock w |}).

End Conn.

(** ** Request and response models *)

Module AlarmHandleRequest.
Record t := { alarm_ids : list Z; reason : option string }.

(** Construction runs the validator of [alarm_ids]. *)
Definition parse (ids : list Z) (why : option string) : result t :=
match Validators.validate_alarm_ids ids with
| Ok v => Ok {| alarm_ids := v; reason := why |}
| Raise e => Raise e
end.
End AlarmHandleRequest.

Module TagTransferRequest.
Record t := {
  tag_ids : list Z;
  new_organization_id : Z;
  reason : option string
}.

(** Construction runs the validator of [tag_ids]. *)
Definition parse (ids : list Z) (org_id : Z) (why : option string) : result t :=
match Validators.validate_tag_ids ids with
| Ok v => Ok {| tag_ids := v; new_organization_id := org_id; reason := why |}
| Raise e => Raise e
end.
End TagTransferRequest.

Module AlarmHandleResponse.
Record t := {
  message : string;
  handled_count : Z;
  failed_count : Z;
  failed_alarm_ids : list Z;
  handle_time : Z
}.
End AlarmHandleResponse.

Module TagTransferResponse.
Record t := {
  message : string;
  transferred_count : Z;
  failed_count : Z;
  failed_tag_ids : list Z;
  transfer_time : Z
}.
End TagTransferResponse.

(** ** alarms_service.py: bulk handling *)

Module AlarmsBulk.

(** [SELECT sn, organization, is_handled FROM Alarms WHERE sn = ANY(%s)]
    followed by [fetchall]. *)
Definition select_existing (ids : list Z) : M (list (Z * string * option bool)) :=
Conn.execute (SELECT_alarms_by_ids ids) false
  (λ db, (map (λ a, (A.sn a, A.organization a, A.is_handled a))
            (List.filter (λ a, Py.mem (A.sn a) ids) (Alarms db)), db)).

Definition handled_row (handled_by : string) (now : Z) (why : option string)
  (a : A.row) : A.row :=
{| A.sn := A.sn a; A.organization := A.organization a; A.imei := A.imei a;
   A.warn_type := A.warn_type a; A.time := A.time a;
   A.check_the_time := A.check_the_time a; A.check_time := A.check_time a;
   A.is_handled := Some true; A.handled_by := Some handled_by;
   A.handled_at := Some now; A.handle_reason := why |}.

(** [UPDATE Alarms SET is_handled = TRUE, handled_by = %s, handled_at = %s,
    handle_reason = %s WHERE sn = %s] on the table.  The row keeps its
    place in the list; on the server a scan without [ORDER BY] may meet an
    updated row later than before. *)
Definition update_rows (handled_by : string) (now : Z) (why : option string)
  (id : Z) (rows : list A.row) : list A.row :=
map (λ a, if A.sn a =? id then handled_row handled_by now why a else a) rows.

Definition rowcount (id : Z) (rows : list A.row) : Z :=
Z.of_nat (length (List.filter (λ a, A.sn a =? id) rows)).

(** [cur.execute(UPDATE ..., (handled_by, now, reason, alarm_id))], giving
    [cur.rowcount]. *)
Definition execute_update (env : Env) (handled_by : string) (now : Z)
  (why : option string) (alarm_id : Z) : M Z :=
Conn.execute (UPDATE_alarm handled_by now why alarm_id)
  (execute_raises env alarm_id)
  (λ db, (rowcount alarm_id (Alarms db),
          Conn.set_alarms db
            (update_rows handled_by now why alarm_id (Alarms db)))).

(** The [for alarm_id in alarm_handle.alarm_ids] loop; [acc] is
    [(handled_count, failed_alarm_ids)]. *)
Fixpoint handle_loop (env : Env) (handled_by : string) (why : option string)
  (ids : list Z) (acc : Z * list Z) : M (Z * list Z) :=
match ids with
| [] => mret acc
| alarm_id :: rest =>
    acc' ← Conn.try_except
      (now ← Conn.now env;
       rc ← execute_update env handled_by now why alarm_id;
       mret (if 0 <? rc then (acc.1 + 1, acc.2) else (acc.1, acc.2 ++ [alarm_id])))
      (λ _, mret (acc.1, acc.2 ++ [alarm_id]));
    handle_loop env handled_by why rest acc'
end.

(** [handle_alarms]: the existence check, the two invariant checks, the
    loop, the commit and the result.  Between the checks and the loop
    stands the one step that is not in the text of the function: what
    other sessions commit in the meantime. *)
Definition handle_alarms (env : Env) (alarm_handle : AlarmHandleRequest.t)
  (handled_by : string) : M AlarmHandleResponse.t :=
let alarm_ids := AlarmHandleRequest.alarm_ids alarm_handle in
Conn.reraise_http "Failed to handle alarms" (Conn.with_conn (
  existing_alarms ← select_existing alarm_ids;
  if bool_decide (length existing_alarms ≠ length alarm_ids) then
    let existing_ids := map (λ alarm, alarm.1.1) existing_alarms in
    let missing_ids :=
      List.filter (λ aid, negb (Py.mem aid existing_ids)) alarm_ids in
    raise_http HTTP_404_NOT_FOUND
      ("Alarms not found: " +:+ Py.repr_list missing_ids)
  else
  let organizations : gset string :=
    list_to_set (map (λ alarm, alarm.1.2) existing_alarms) in
  if bool_decide (1 < size organizations)%nat then
    raise_http HTTP_400_BAD_REQUEST
      "All alarms must belong to the same organization"
  else
  let already_handled :=
    map (λ alarm, alarm.1.1)
      (List.filter (λ alarm, Py.truthy_bool alarm.2) existing_alarms) in
  if bool_decide (already_handled ≠ []) then
    raise_http HTTP_400_BAD_REQUEST
      ("Alarms already handled: " +:+ Py.repr_list already_handled)
  else
    Conn.concurrent_activity env ;;
    '(handled_count, failed_alarm_ids) ←
      handle_loop env handled_by (AlarmHandleRequest.reason alarm_handle)
        alarm_ids (0, []);
    Conn.commit ;;
    handle_time ← Conn.now env;
    mret {| AlarmHandleResponse.message := "Alarm handling completed";
            AlarmHandleResponse.handled_count := handled_count;
            AlarmHandleResponse.failed_count := Z.of_nat (length failed_alarm_ids);
            AlarmHandleResponse.failed_alarm_ids := failed_alarm_ids;
            AlarmHandleResponse.handle_time := handle_time |})).

(** The [/alarms/handle] endpoint: the body is parsed into an
    [AlarmHandleRequest] before the service is called. *)
Definition handle_alarms_bulk (env : Env) (ids : list Z) (why : option string)
  (user_sub : string) : M AlarmHandleResponse.t :=
match AlarmHandleRequest.parse ids why with
| Ok handle_request => handle_alarms env handle_request user_sub
| Raise e => raise e
end.

End AlarmsBulk.

(** ** tags_service.py: bulk transfer *)

Module TagsBulk.

(** [SELECT organization_name FROM Organizations WHERE id = %s] followed
    by [fetchone]. *)
Definition select_target_org (id : Z) : M (option string) :=
Conn.execute (SELECT_organization_by_id id) false
  (λ db, (Sql.fetchone
            (map O.organization_name
               (List.filter (λ o, O.id o =? id) (Organizations db))), db)).

(** [SELECT sn, organization FROM Tags WHERE sn = ANY(%s)] followed by
    [fetchall]. *)
Definition select_existing (ids : list Z) : M (list (Z * string)) :=
Conn.execute (SELECT_tags_by_ids ids) false
  (λ db, (map (λ t, (T.sn t, T.organization t))
            (List.filter (λ t, Py.mem (T.sn t) ids) (Tags db)), db)).

Definition moved_row (org : string) (t : T.row) : T.row :=
{| T.sn := T.sn t; T.organization := org; T.imei := T.imei t;
   T.signal := T.signal t; T.power := T.power t;
   T.charge_status := T.charge_status t;
   T.tracking_update_time := T.tracking_update_time t;
   T.data_update_time := T.data_update_time t;
   T.bluetooth_mark := T.bluetooth_mark t |}.

(** [UPDATE Tags SET organization = %s WHERE sn = %s] on the table; the
    row keeps its place in the list, as for alarms. *)
Definition update_rows (org : string) (id : Z) (rows : list T.row) : list T.row :=
map (λ t, if T.sn t =? id then moved_row org t else t) rows.

Definition rowcount (id : Z) (rows : list T.row) : Z :=
Z.of_nat (length (List.filter (λ t, T.sn t =? id) rows)).

Definition execute_update (env : Env) (org : string) (tag_id : Z) : M Z :=
Conn.execute (UPDATE_tag org tag_id) (execute_raises env tag_id)
  (λ db, (rowcount tag_id (Tags db),
          Conn.set_tags db (update_rows org tag_id (Tags db)))).

(** The [for tag_id in tag_transfer.tag_ids] loop; [acc] is
    [(transferred_count, failed_tag_ids)]. *)
Fixpoint transfer_loop (env : Env) (org : string) (ids : list Z)
  (acc : Z * list Z) : M (Z * list Z) :=
match ids with
| [] => mret acc
| tag_id :: rest =>
    acc' ← Conn.try_except
      (rc ← execute_update env org tag_id;
       mret (if 0 <? rc then (acc.1 + 1, acc.2) else (acc.1, acc.2 ++ [tag_id])))
      (λ _, mret (acc.1, acc.2 ++ [tag_id]));
    transfer_loop env org rest acc'
end.

(** [transfer_tags]: the lookup of the destination, the existence check,
    the loop, the commit and the result, with the same step for other
    sessions between check and loop. *)
Definition transfer_tags (env : Env) (tag_transfer : TagTransferRequest.t)
  : M TagTransferResponse.t :=
let tag_ids := TagTransferRequest.tag_ids tag_transfer in
Conn.reraise_http "Failed to transfer tags" (Conn.with_conn (
  target_org ← select_target_org (TagTransferRequest.new_organization_id tag_transfer);
  match target_org with
  | None => raise_http HTTP_404_NOT_FOUND "Target organization not found"
  | Some target_org0 =>
  existing_tags ← select_existing tag_ids;
  if bool_decide (length existing_tags ≠ length tag_ids) then
    let existing_ids := map (λ tag, tag.1) existing_tags in
    let missing_ids :=
      List.filter (λ tid, negb (Py.mem tid existing_ids)) tag_ids in
    raise_http HTTP_404_NOT_FOUND
      ("Tags not found: " +:+ Py.repr_list missing_ids)
  else
    Conn.concurrent_activity env ;;
    '(transferred_count, failed_tag_ids) ←
      transfer_loop env target_org0 tag_ids (0, []);
    Conn.commit ;;
    transfer_time ← Conn.now env;
    mret {| TagTransferResponse.message := "Tag transfer completed";
            TagTransferResponse.transferred_count := transferred_count;
            TagTransferResponse.failed_count := Z.of_nat (length failed_tag_ids);
            TagTransferResponse.failed_tag_ids := failed_tag_ids;
            TagTransferResponse.transfer_time := transfer_time |}
  end)).

(** The [/tags/transfer] endpoint: the body is parsed into a
    [TagTransferRequest] before the service is called. *)
Definition transfer_tags_bulk (env : Env) (ids : list Z) (org_id : Z)
  (why : option string) : M TagTransferResponse.t :=
match TagTransferRequest.parse ids org_id why with
| Ok transfer_request => transfer_tags env transfer_request
| Raise e => raise e
end.

End TagsBulk.

(** ** Filters and response items *)

Module WarnType.
Inductive t := GEOFENCE | LOW_BATTERY | UNEXPECTED_MOVEMENT.

Definition value (w : t) : string :=
match w with
| GEOFENCE => "geofence"
| LOW_BATTERY => "low_battery"
| UNEXPECTED_MOVEMENT => "unexpected_movement"
end.
End WarnType.

Module AlarmFilter.
Record t := {
  organization : string;
  warn_type : option WarnType.t;
  start_time : option Z;
  end_time : option Z;
  page : Z;
  page_size : Z
}.
End AlarmFilter.

Module Alarm.
Record t := {
  sn : Z;
  organization : string;
  imei : string;
  tracking_object : string;
  warn_type : string;
  time : Z;
  check_the_time : option Z;
  check_time : option string;
  is_handled : option bool;
  handled_by : option string;
  handled_at : option Z;
  handle_reason : option string
}.
End Alarm.

Module AlarmListResponse.
Record t := {
  alarms : list Alarm.t;
  page : Z;
  page_size : Z;
  total_records : Z
}.
End AlarmListResponse.

Module TagFilter.
Record t := {
  organization : option string;
  model : option string;
  page : Z;
  page_size : Z
}.
End TagFilter.

Module Tag.
Record t := {
  sn : Z;
  organization : string;
  imei : string;
  signal : option Z;
  power : option Z;
  charge_status : option string;
  tracking_update_time : option Z;
  data_update_time : option Z;
  bluetooth_mark : option string
}.
End Tag.

Module TagListResponse.
Record t := {
  tags : list Tag.t;
  total_count : Z;
  page : Z;
  page_size : Z
}.
End TagListResponse.

Module RouteFilter.
Record t := {
  organization : string;
  start_time : Z;
  end_time : Z;
  page : Z;
  page_size : Z
}.
End RouteFilter.

Module Route.
Record t := {
  sn : Z;
  terminal_id : string;
  tracking_object : string;
  tracking_time : Z;
  gps_x : option spec_float;
  gps_y : option spec_float
}.
End Route.

Module RouteListResponse.
Record t := {
  routes : list Route.t;
  page : Z;
  page_size : Z;
  total_records : Z;
  message : option string
}.
End RouteListResponse.

(** [try: body / except Exception: raise HTTPException(500, msg)] around a
    read-only service. *)
Definition internal_error {A} (msg : string) (body : result A) : result A :=
match body with
| Ok a => Ok a
| Raise _ =>
    Raise (HTTPExc {| status_code := HTTP_500_INTERNAL_SERVER_ERROR;
                      detail := msg |})
end.

(** ** alarms_service.py: listing and lookup *)

Module AlarmsQuery.

(** One [WHERE]/[AND] fragment together with the parameter bound to its
    placeholder. *)
Inductive predicate :=
| organization_eq (v : string)
| warn_type_eq (v : string)
| time_ge (v : Z)
| time_le (v : Z)
| sn_eq (v : Z).

Definition holds (p : predicate) (a : A.row) : bool :=
match p with
| organization_eq v => String.eqb (A.organization a) v
| warn_type_eq v => String.eqb (A.warn_type a) v
| time_ge v => v <=? A.time a
| time_le v => A.time a <=? v
| sn_eq v => A.sn a =? v
end.

(** The two statements under construction: the text that selects the
    twelve columns over the two LEFT JOINs, and the [COUNT] text over
    [Alarms] alone; each with the fragments appended so far, and the row
    query with its [ORDER BY a.time DESC LIMIT %s OFFSET %s] once added. *)
Inductive select := SELECT_joined | SELECT_count.

(** The aliases that each text gives its tables: [Alarms a],
    [Tags t], [Tracking_Objects to]. *)
Definition aliases (s : select) : list string :=
match s with
| SELECT_joined => ["a"; "t"; "to"]
| SELECT_count => ["a"]
end.

Record query := {
  head : select;
  where_ : list predicate;
  paging : option (Z * Z)
}.

Definition and_ (q : query) (p : predicate) : query :=
{| head := head q; where_ := where_ q ++ [p]; paging := paging q |}.

Definition order_limit_offset (q : query) (lim off : Z) : query :=
{| head := head q; where_ := where_ q; paging := Some (lim, off) |}.

Definition joined : Type := A.row * option T.row * option TO.row.

(** The rows of [FROM Alarms a LEFT JOIN Tags t ON a.imei = t.imei
     LEFT JOIN Tracking_Objects to ON t.imei = to.mac], for a statement
    that the parser has let through. *)
Definition from_joined (db : Database) : list joined :=
Sql.left_join
  (λ (at_ : A.row * option T.row) (tobj : TO.row),
     match at_.2 with
     | Some t => bool_decide (TO.mac tobj = Some (T.imei t))
     | None => false
     end)
  (Sql.left_join (λ a t, String.eqb (A.imei a) (T.imei t)) (Alarms db) (Tags db))
  (Tracking_Objects db).

Definition where_holds (ps : list predicate) (a : A.row) : bool :=
forallb (λ p, holds p a) ps.

(** [cur.execute(q); cur.fetchall()] for the row query. *)
Definition fetchall (q : query) (db : Database) : result (list joined) :=
match Sql.parse (aliases (head q)) with
| Raise e => Raise e
| Ok _ =>
    let rows :=
      List.filter (λ j : joined, where_holds (where_ q) j.1.1) (from_joined db) in
    match paging q with
    | None => Ok rows
    | Some (lim, off) =>
        Sql.limit_offset lim off
          (Sql.order_by_desc (λ j : joined, A.time j.1.1) rows)
    end
end.

(** [cur.execute(q); cur.fetchone()[0]] for the count query. *)
Definition fetch_count (q : query) (db : Database) : result Z :=
match Sql.parse (aliases (head q)) with
| Raise e => Raise e
| Ok _ => Ok (Z.of_nat (length (List.filter (where_holds (where_ q)) (Alarms db))))
end.

(** [Alarm(sn=row[0], ..., imei=row[2] or "Unknown",
    tracking_object=row[3] or "Unknown", ...)] on a selected row
    [(a.sn, a.organization, t.imei, to.name, a.warn_type, ...)]. *)
Definition to_alarm (j : joined) : Alarm.t :=
let a := j.1.1 in
{| Alarm.sn := A.sn a;
   Alarm.organization := A.organization a;
   Alarm.imei := Py.or_str (T.imei <$> j.1.2) "Unknown";
   Alarm.tracking_object := Py.or_str (TO.name <$> j.2) "Unknown";
   Alarm.warn_type := A.warn_type a;
   Alarm.time := A.time a;
   Alarm.check_the_time := A.check_the_time a;
   Alarm.check_time := A.check_time a;
   Alarm.is_handled := A.is_handled a;
   Alarm.handled_by := A.handled_by a;
   Alarm.handled_at := A.handled_at a;
   Alarm.handle_reason := A.handle_reason a |}.

(** The two texts of [get_alarms_with_filters] as they stand when the
    count is executed. *)
Definition build (alarm_filter : AlarmFilter.t) : query * query :=
let base_query :=
  {| head := SELECT_joined;
     where_ := [organization_eq (AlarmFilter.organization alarm_filter)];
     paging := None |} in
let count_query :=
  {| head := SELECT_count;
     where_ := [organization_eq (AlarmFilter.organization alarm_filter)];
     paging := None |} in
let '(base_query, count_query) :=
  match AlarmFilter.warn_type alarm_filter with
  | Some wt => (and_ base_query (warn_type_eq (WarnType.value wt)),
                and_ count_query (warn_type_eq (WarnType.value wt)))
  | None => (base_query, count_query)
  end in
let '(base_query, count_query) :=
  match AlarmFilter.start_time alarm_filter with
  | Some st => (and_ base_query (time_ge st), and_ count_query (time_ge st))
  | None => (base_query, count_query)
  end in
match AlarmFilter.end_time alarm_filter with
| Some et => (and_ base_query (time_le et), and_ count_query (time_le et))
| None => (base_query, count_query)
end.

Definition get_alarms_with_filters (alarm_filter : AlarmFilter.t) (db : Database)
  : result AlarmListResponse.t :=
internal_error "Failed to fetch alarms" (
  let '(base_query, count_query) := build alarm_filter in
  match fetch_count count_query db with
  | Raise e => Raise e
  | Ok total_count =>
      let offset :=
        (AlarmFilter.page alarm_filter - 1) * AlarmFilter.page_size alarm_filter in
      let base_query :=
        order_limit_offset base_query (AlarmFilter.page_size alarm_filter) offset in
      match fetchall base_query db with
      | Raise e => Raise e
      | Ok rows =>
          Ok {| AlarmListResponse.alarms := map to_alarm rows;
                AlarmListResponse.page := AlarmFilter.page alarm_filter;
                AlarmListResponse.page_size := AlarmFilter.page_size alarm_filter;
                AlarmListResponse.total_records := total_count |}
      end
  end).

(** [get_alarm_by_id]: the same select list and joins, [WHERE a.sn = %s],
    [fetchone], and the same construction of the item. *)
Definition get_alarm_by_id (alarm_id : Z) (db : Database) : result (option Alarm.t) :=
internal_error "Failed to fetch alarm" (
  let q := {| head := SELECT_joined; where_ := [sn_eq alarm_id]; paging := None |} in
  match fetchall q db with
  | Raise e => Raise e
  | Ok rows =>
      match Sql.fetchone rows with
      | Some row =>
          let a := row.1.1 in
          Ok (Some
            {| Alarm.sn := A.sn a;
               Alarm.organization := A.organization a;
               Alarm.imei := Py.or_str (T.imei <$> row.1.2) "Unknown";
               Alarm.tracking_object := Py.or_str (TO.name <$> row.2) "Unknown";
               Alarm.warn_type := A.warn_type a;
               Alarm.time := A.time a;
               Alarm.check_the_time := A.check_the_time a;
               Alarm.check_time := A.check_time a;
               Alarm.is_handled := A.is_handled a;
               Alarm.handled_by := A.handled_by a;
               Alarm.handled_at := A.handled_at a;
               Alarm.handle_reason := A.handle_reason a |})
      | None => Ok None
      end
  end).

End AlarmsQuery.

(** ** tags_service.py: listing and lookup *)

Module TagsQuery.

Inductive predicate :=
| organization_name_eq (v : string)
| imei_ilike (pattern : string)
| sn_eq (v : Z).

Definition joined : Type := T.row * O.row.

Definition holds (p : predicate) (j : joined) : bool :=
match p with
| organization_name_eq v => String.eqb (O.organization_name j.2) v
| imei_ilike pattern => Sql.ilike (T.imei j.1) pattern
| sn_eq v => T.sn j.1 =? v
end.

Inductive select := SELECT_columns | SELECT_count.

Record query := {
  head : select;
  where_ : list predicate;
  paging : option (Z * Z)
}.

Definition and_ (q : query) (p : predicate) : query :=
{| head := head q; where_ := where_ q ++ [p]; paging := paging q |}.

Definition order_limit_offset (q : query) (lim off : Z) : query :=
{| head := head q; where_ := where_ q; paging := Some (lim, off) |}.

(** [FROM Tags t JOIN Organizations o ON t.organization = o.organization_name],
    the FROM clause of the row query and of the count query alike. *)
Definition from_joined (db : Database) : list joined :=
Sql.inner_join (λ t o, String.eqb (T.organization t) (O.organization_name o))
  (Tags db) (Organizations db).

Definition where_holds (ps : list predicate) (j : joined) : bool :=
forallb (λ p, holds p j) ps.

Definition fetchall (q : query) (db : Database) : result (list joined) :=
let rows := List.filter (where_holds (where_ q)) (from_joined db) in
match paging q with
| None => Ok rows
| Some (lim, off) =>
    Sql.limit_offset lim off (Sql.order_by_asc (λ j : joined, T.sn j.1) rows)
end.

Definition fetch_count (q : query) (db : Database) : Z :=
Z.of_nat (length (List.filter (where_holds (where_ q)) (from_joined db))).

(** [Tag(sn=row[0], organization=row[1], imei=row[2], ...)] on a selected
    row [(t.sn, o.organization_name, t.imei, ...)]. *)
Definition to_tag (j : joined) : Tag.t :=
{| Tag.sn := T.sn j.1;
   Tag.organization := O.organization_name j.2;
   Tag.imei := T.imei j.1;
   Tag.signal := T.signal j.1;
   Tag.power := T.power j.1;
   Tag.charge_status := T.charge_status j.1;
   Tag.tracking_update_time := T.tracking_update_time j.1;
   Tag.data_update_time := T.data_update_time j.1;
   Tag.bluetooth_mark := T.bluetooth_mark j.1 |}.

Definition build (tag_filter : TagFilter.t) : query * query :=
let base_query := {| head := SELECT_columns; where_ := []; paging := None |} in
let count_query := {| head := SELECT_count; where_ := []; paging := None |} in
let '(base_query, count_query) :=
  if Py.truthy_str (TagFilter.organization tag_filter) then
    let v := default "" (TagFilter.organization tag_filter) in
    (and_ base_query (organization_name_eq v),
     and_ count_query (organization_name_eq v))
  else (base_query, count_query) in
if Py.truthy_str (TagFilter.model tag_filter) then
  let pattern := "%" +:+ default "" (TagFilter.model tag_filter) +:+ "%" in
  (and_ base_query (imei_ilike pattern), and_ count_query (imei_ilike pattern))
else (base_query, count_query).

Definition get_tags_with_filters (tag_filter : TagFilter.t) (db : Database)
  : result TagListResponse.t :=
internal_error "Failed to fetch tags" (
  let '(base_query, count_query) := build tag_filter in
  let total_count := fetch_count count_query db in
  let offset := (TagFilter.page tag_filter - 1) * TagFilter.page_size tag_filter in
  let base_query :=
    order_limit_offset base_query (TagFilter.page_size tag_filter) offset in
  match fetchall base_query db with
  | Raise e => Raise e
  | Ok rows =>
      Ok {| TagListResponse.tags := map to_tag rows;
            TagListResponse.total_count := total_count;
            TagListResponse.page := TagFilter.page tag_filter;
            TagListResponse.page_size := TagFilter.page_size tag_filter |}
  end).

Definition get_tag_by_id (tag_id : Z) (db : Database) : result (option Tag.t) :=
internal_error "Failed to fetch tag" (
  let q := {| head := SELECT_columns; where_ := [sn_eq tag_id]; paging := None |} in
  match fetchall q db with
  | Raise e => Raise e
  | Ok rows =>
      match Sql.fetchone rows with
      | Some row => Ok (Some (to_tag row))
      | None => Ok None
      end
  end).

(** The [GET /tags/{tag_id}] endpoint. *)
Definition get_tag (tag_id : Z) (db : Database) : result Tag.t :=
match get_tag_by_id tag_id db with
| Raise e => Raise e
| Ok (Some tag) => Ok tag
| Ok None =>
    Raise (HTTPExc {| status_code := HTTP_404_NOT_FOUND;
                      detail := "Tag with ID " +:+ pretty tag_id +:+ " not found" |})
end.

End TagsQuery.

(** ** routes_service.py: listing and lookup *)

Module RoutesQuery.

(** A [datetime] is always truthy. *)
Definition truthy_datetime (_ : Z) : bool := true.

Inductive predicate :=
| organization_name_eq (v : string)
| tracking_time_ge (v : Z)
| tracking_time_le (v : Z).

(** A fragment on a joined row, of which it reads [r] and the
    NULL-padded [o]. *)
Definition holds (p : predicate) (r : R.row) (o : option O.row) : bool :=
match p with
| organization_name_eq v =>
    match o with
    | Some o => String.eqb (O.organization_name o) v
    | None => false
    end
| tracking_time_ge v => v <=? R.tracking_time r
| tracking_time_le v => R.tracking_time r <=? v
end.

Definition where_holds (ps : list predicate) (r : R.row) (o : option O.row) : bool :=
forallb (λ p, holds p r o) ps.

Inductive select := SELECT_joined | SELECT_count.

(** The aliases that each text gives its tables: [Route_List r],
    [Tags t], [Tracking_Objects to], [Organizations o]. *)
Definition aliases (s : select) : list string :=
match s with
| SELECT_joined => ["r"; "t"; "to"; "o"]
| SELECT_count => ["r"; "t"; "o"]
end.

Record query := {
  head : select;
  where_ : list predicate;
  paging : option (Z * Z)
}.

Definition and_ (q : query) (p : predicate) : query :=
{| head := head q; where_ := where_ q ++ [p]; paging := paging q |}.

Definition order_limit_offset (q : query) (lim off : Z) : query :=
{| head := head q; where_ := where_ q; paging := Some (lim, off) |}.

Definition on_terminal_id (r : R.row) (t : T.row) : bool :=
String.eqb (R.terminal_id r) (T.imei t).

Definition on_mac {X} (rt : X * option T.row) (tobj : TO.row) : bool :=
match rt.2 with
| Some t => bool_decide (TO.mac tobj = Some (T.imei t))
| None => false
end.

Definition on_organization (t : option T.row) (o : O.row) : bool :=
match t with
| Some t => String.eqb (T.organization t) (O.organization_name o)
| None => false
end.

(** The rows of the row query's [FROM Route_List r LEFT JOIN Tags t ...
    LEFT JOIN Tracking_Objects to ... LEFT JOIN Organizations o ...], for
    a statement that the parser has let through. *)
Definition joined : Type := R.row * option T.row * option TO.row * option O.row.

Definition from_joined (db : Database) : list joined :=
Sql.left_join (λ (j : R.row * option T.row * option TO.row) o, on_organization j.1.2 o)
  (Sql.left_join on_mac
     (Sql.left_join on_terminal_id (Route_List db) (Tags db))
     (Tracking_Objects db))
  (Organizations db).

(** The count query's [FROM Route_List r LEFT JOIN Tags t ... LEFT JOIN
    Organizations o ...]. *)
Definition from_count (db : Database) : list (R.row * option T.row * option O.row) :=
Sql.left_join (λ (j : R.row * option T.row) o, on_organization j.2 o)
  (Sql.left_join on_terminal_id (Route_List db) (Tags db))
  (Organizations db).

(** The row query: filter, number the rows in window order
    ([ROW_NUMBER() OVER (ORDER BY r.tracking_time DESC)]), then page. *)
Definition fetchall (q : query) (db : Database) : result (list (Z * joined)) :=
match Sql.parse (aliases (head q)) with
| Raise e => Raise e
| Ok _ =>
    let rows :=
      List.filter (λ j : joined, where_holds (where_ q) j.1.1.1 j.2)
        (from_joined db) in
    let numbered :=
      Sql.row_number
        (Sql.order_by_desc (λ j : joined, R.tracking_time j.1.1.1) rows) in
    match paging q with
    | None => Ok numbered
    | Some (lim, off) => Sql.limit_offset lim off numbered
    end
end.

Definition fetch_count (q : query) (db : Database) : result Z :=
match Sql.parse (aliases (head q)) with
| Raise e => Raise e
| Ok _ =>
    Ok (Z.of_nat (length
      (List.filter (λ j : R.row * option T.row * option O.row,
                      where_holds (where_ q) j.1.1 j.2) (from_count db))))
end.

(** [Route(sn=row[0], terminal_id=row[1] or "Unknown",
    tracking_object=row[2] or "Unknown", ...)] on a selected row
    [(row_number, t.imei, to.name, r.tracking_time, r.gps_x, r.gps_y)]. *)
Definition to_route (row : Z * joined) : Route.t :=
let j := row.2 in
{| Route.sn := row.1;
   Route.terminal_id := Py.or_str (T.imei <$> j.1.1.2) "Unknown";
   Route.tracking_object := Py.or_str (TO.name <$> j.1.2) "Unknown";
   Route.tracking_time := R.tracking_time j.1.1.1;
   Route.gps_x := R.gps_x j.1.1.1;
   Route.gps_y := R.gps_y j.1.1.1 |}.

Definition build (route_filter : RouteFilter.t) : query * query :=
let base_query :=
  {| head := SELECT_joined;
     where_ := [organization_name_eq (RouteFilter.organization route_filter)];
     paging := None |} in
let count_query :=
  {| head := SELECT_count;
     where_ := [organization_name_eq (RouteFilter.organization route_filter)];
     paging := None |} in
let '(base_query, count_query) :=
  if truthy_datetime (RouteFilter.start_time route_filter) then
    (and_ base_query (tracking_time_ge (RouteFilter.start_time route_filter)),
     and_ count_query (tracking_time_ge (RouteFilter.start_time route_filter)))
  else (base_query, count_query) in
if truthy_datetime (RouteFilter.end_time route_filter) then
  (and_ base_query (tracking_time_le (RouteFilter.end_time route_filter)),
   and_ count_query (tracking_time_le (RouteFilter.end_time route_filter)))
else (base_query, count_query).

Definition get_routes_with_filters (route_filter : RouteFilter.t) (db : Database)
  : result RouteListResponse.t :=
internal_error "Failed to fetch routes" (
  let '(base_query, count_query) := build route_filter in
  match fetch_count count_query db with
  | Raise e => Raise e
  | Ok total_count =>
      let offset :=
        (RouteFilter.page route_filter - 1) * RouteFilter.page_size route_filter in
      let base_query :=
        order_limit_offset base_query (RouteFilter.page_size route_filter) offset in
      match fetchall base_query db with
      | Raise e => Raise e
      | Ok rows =>
          Ok {| RouteListResponse.routes := map to_route rows;
                RouteListResponse.page := RouteFilter.page route_filter;
                RouteListResponse.page_size := RouteFilter.page_size route_filter;
                RouteListResponse.total_records := total_count;
                RouteListResponse.message :=
                  if total_count =? 0 then Some "No data available" else None |}
      end
  end).

(** [get_route_by_id]: [FROM Route_List r LEFT JOIN Tags t ... LEFT JOIN
    Tracking_Objects to ... WHERE r.sn = %s], the same select list (row
    number included), [fetchone]. *)
Definition by_id_joined : Type := R.row * option T.row * option TO.row.

Definition aliases_by_id : list string := ["r"; "t"; "to"].

Definition from_by_id (db : Database) : list by_id_joined :=
Sql.left_join on_mac
  (Sql.left_join on_terminal_id (Route_List db) (Tags db))
  (Tracking_Objects db).

Definition get_route_by_id (route_id : Z) (db : Database) : result (option Route.t) :=
internal_error "Failed to fetch route" (
  match Sql.parse aliases_by_id with
  | Raise e => Raise e
  | Ok _ =>
      let rows :=
        List.filter (λ j : by_id_joined, R.sn j.1.1 =? route_id) (from_by_id db) in
      let numbered :=
        Sql.row_number
          (Sql.order_by_desc (λ j : by_id_joined, R.tracking_time j.1.1) rows) in
      match Sql.fetchone numbered with
      | Some row =>
          let j := row.2 in
          Ok (Some
            {| Route.sn := row.1;
               Route.terminal_id := Py.or_str (T.imei <$> j.1.2) "Unknown";
               Route.tracking_object := Py.or_str (TO.name <$> j.2) "Unknown";
               Route.tracking_time := R.tracking_time j.1.1;
               Route.gps_x := R.gps_x j.1.1;
               Route.gps_y := R.gps_y j.1.1 |})
      | None => Ok None
      end
  end).

End RoutesQuery.

(** ** db/connection.py: the pool and the connection scope

    [SimpleConnectionPool(minconn=1, maxconn=10)] keeps idle connections
    in [idle] and handed-out ones in [used]; [n_getconn] and [n_putconn]
    count the connections it has handed out and taken back. *)

Module Connection.

Record SimpleConnectionPool := {
  minconn : nat;
  maxconn : nat;
  idle : list nat;
  used : list nat;
  closed : list nat;
  fresh : nat;
  n_getconn : nat;
  n_putconn : nat
}.

(** The process: the module-level [_pool], and the connections that
    [get_conn] opened itself with [psycopg2.connect], open or closed. *)
Record Process := {
  _pool : option SimpleConnectionPool;
  direct_open : list nat;
  direct_closed : list nat
}.

(** Whether [psycopg2.connect] reaches the server: when the pool opens a
    connection, and when [get_conn] opens one itself. *)
Record Net := { pool_reachable : bool; direct_reachable : bool }.

(** [pool.SimpleConnectionPool(minconn=1, maxconn=10, ...)]: opens
    [minconn] connections at once. *)
Definition new_pool : SimpleConnectionPool :=
{| minconn := 1; maxconn := 10; idle := [0%nat]; used := []; closed := [];
   fresh := 1; n_getconn := 0; n_putconn := 0 |}.

(** [get_pool]. *)
Definition get_pool (net : Net) : Process → option SimpleConnectionPool * Process :=
λ p, match _pool p with
     | Some pl => (Some pl, p)
     | None =>
         if pool_reachable net then
           (Some new_pool,
            {| _pool := Some new_pool; direct_open := direct_open p;
               direct_closed := direct_closed p |})
         else (None, p)
     end.

(** [pool_instance.getconn()]. *)
Definition getconn (net : Net) (pl : SimpleConnectionPool)
  : result nat * SimpleConnectionPool :=
match rev (idle pl) with
| c :: rest =>
    (Ok c,
     {| minconn := minconn pl; maxconn := maxconn pl; idle := rev rest;
        used := c :: used pl; closed := closed pl; fresh := fresh pl;
        n_getconn := S (n_getconn pl); n_putconn := n_putconn pl |})
| [] =>
    if bool_decide (length (used pl) = maxconn pl) then
      (Raise (OtherExc "connection pool exhausted"), pl)
    else if pool_reachable net then
      (Ok (fresh pl),
       {| minconn := minconn pl; maxconn := maxconn pl; idle := idle pl;
          used := fresh pl :: used pl; closed := closed pl;
          fresh := S (fresh pl);
          n_getconn := S (n_getconn pl); n_putconn := n_putconn pl |})
    else (Raise (OtherExc "OperationalError"), pl)
end.

Fixpoint remove_first (c : nat) (l : list nat) : list nat :=
match l with
| [] => []
| x :: l' => if bool_decide (x = c) then l' else x :: remove_first c l'
end.

(** [pool_instance.putconn(conn)]. *)
Definition putconn (c : nat) (pl : SimpleConnectionPool)
  : result unit * SimpleConnectionPool :=
if bool_decide (c ∈ used pl) then
  if bool_decide (length (idle pl) < minconn pl)%nat then
    (Ok tt,
     {| minconn := minconn pl; maxconn := maxconn pl; idle := idle pl ++ [c];
        used := remove_first c (used pl); closed := closed pl; fresh := fresh pl;
        n_getconn := n_getconn pl; n_putconn := S (n_putconn pl) |})
  else
    (Ok tt,
     {| minconn := minconn pl; maxconn := maxconn pl; idle := idle pl;
        used := remove_first c (used pl); closed := c :: closed pl;
        fresh := fresh pl;
        n_getconn := n_getconn pl; n_putconn := S (n_putconn pl) |})
else (Raise (OtherExc "trying to put unkeyed connection"), pl).

(** The generator object made by [get_conn()]: not started, suspended at
    the [yield] of the direct branch, suspended at the [yield] inside
    [try/finally] of the pooled branch, or finished. *)
Inductive generator :=
| gen_created
| gen_yield_direct (conn : nat)
| gen_yield_pooled (conn : nat)
| gen_finished.

Definition set_pool (p : Process) (pl : SimpleConnectionPool) : Process :=
{| _pool := Some pl; direct_open := direct_open p;
   direct_closed := direct_closed p |}.

(** [get_conn()]: calling the generator function runs none of its body. *)
Definition get_conn : generator := gen_created.

(** [next(g)]: a generator that has not started runs the body of
    [get_conn] up to its [yield]. *)
Definition next (net : Net) (g : generator)
  : Process → result nat * generator * Process :=
λ p, match g with
     | gen_created =>
         match get_pool net p with
         | (None, p1) =>
             if direct_reachable net then
               let c := length (direct_open p1 ++ direct_closed p1) in
               (Ok c, gen_yield_direct c,
                {| _pool := _pool p1; direct_open := c :: direct_open p1;
                   direct_closed := direct_closed p1 |})
             else (Raise (OtherExc "OperationalError"), gen_finished, p1)
         | (Some pl, p1) =>
             match getconn net pl with
             | (Ok c, pl') => (Ok c, gen_yield_pooled c, set_pool p1 pl')
             | (Raise e, pl') => (Raise e, gen_finished, set_pool p1 pl')
             end
         end
     | _ => (Raise (OtherExc "StopIteration"), gen_finished, p)
     end.

(** Finalization of a generator ([g.close()]): [GeneratorExit] is raised
    at the [yield].  In the pooled branch the [finally] clause puts the
    connection back; in the direct branch nothing catches it and
    [conn.close()] is skipped. *)
Definition gen_close (g : generator) : Process → Process :=
λ p, match g with
     | gen_yield_pooled c =>
         match _pool p with
         | Some pl => set_pool p (putconn c pl).2
         | None => p
         end
     | _ => p
     end.

(** How the body of a service leaves its [with] block. *)
Inductive body_exit :=
| returns
| raises_http (e : HTTPException)
| raises_other (msg : string).

(** The scope every service opens:
    [try: with next(get_conn()) as conn: body / except ...].  The
    generator is a temporary of the expression [next(get_conn())]; once
    [next] has returned nothing refers to it, and reference counting
    finalizes it there, before the body runs.  [reraise] tells whether
    the service has an [except HTTPException: raise] clause. *)
Definition scope (net : Net) (reraise : bool) (msg : string)
  (body : nat → body_exit) : Process → body_exit * Process :=
λ p, let '(r, g, p1) := next net get_conn p in
     let p2 := gen_close g p1 in
     let http500 :=
       raises_http {| status_code := HTTP_500_INTERNAL_SERVER_ERROR;
                      detail := msg |} in
     match r with
     | Raise _ => (http500, p2)
     | Ok conn =>
         match body conn with
         | returns => (returns, p2)
         | raises_http e => (if reraise then raises_http e else http500, p2)
         | raises_other _ => (http500, p2)
         end
     end.

(** Connections handed out by the pool and taken back by it so far. *)
Definition acquired (p : Process) : nat :=
match _pool p with Some pl => n_getconn pl | None => 0%nat end.

Definition released (p : Process) : nat :=
match _pool p with Some pl => n_putconn pl | None => 0%nat end.

Definition in_use (p : Process) : list nat :=
match _pool p with Some pl => used pl | None => [] end.

End Connection.

(** ** Vocabulary of the statements, and sample data *)

(** The rows that the existence query of a bulk call fetches. *)
Definition fetched_alarms (ids : list Z) (db : Database) : list A.row :=
List.filter (λ a, Py.mem (A.sn a) ids) (Alarms db).

Definition fetched_tags (ids : list Z) (db : Database) : list T.row :=
List.filter (λ t, Py.mem (T.sn t) ids) (Tags db).

(** A connection between two calls: no transaction open, nothing pending. *)
Definition at_rest (w : World) : Prop :=
status w = STATUS_READY ∧ working w = durable w.

(** A call that ends in [HTTPException(code, msg)] after sending only the
    statements [sent] and rolling back, the database being what it was. *)
Definition rejected_unchanged {A} (code : Z) (msg : string)
  (sent : list statement) (w : World) (out : result A * World) : Prop :=
out = (Raise (HTTPExc {| status_code := code; detail := msg |}),
       {| durable := durable w; working := working w; status := STATUS_READY;
          log := log w ++ map Execute sent ++ [Rollback];
          clock := clock w |}).

Definition tick (w : World) : World :=
{| durable := durable w; working := working w; status := status w;
   log := log w; clock := S (clock w) |}.

(** A target that no row of the table carries: its UPDATE matches
    nothing. *)
Definition alarm_gone (rows : list A.row) (id : Z) : bool :=
AlarmsBulk.rowcount id rows =? 0.

Definition tag_gone (rows : list T.row) (id : Z) : bool :=
TagsBulk.rowcount id rows =? 0.

(** Whether a turn of the loop lists its target as failed: the
    transaction is aborted already, the server raises, or no row carries
    the id any more. *)
Definition alarm_fails (env : Env) (w : World) (id : Z) : bool :=
match status w with
| STATUS_INERROR => true
| _ => execute_raises env id || alarm_gone (Alarms (working w)) id
end.

Definition tag_fails (env : Env) (w : World) (id : Z) : bool :=
match status w with
| STATUS_INERROR => true
| _ => execute_raises env id || tag_gone (Tags (working w)) id
end.

(** The world after one turn of the alarm loop, and of the tag loop. *)
Definition alarm_step (env : Env) (who : string) (why : option string)
  (id : Z) (w : World) : World :=
let now := utcnow env (clock w) in
let s := UPDATE_alarm who now why id in
match status w with
| STATUS_INERROR => Conn.refused s (tick w)
| _ =>
    if execute_raises env id then Conn.refused s (tick w)
    else Conn.sent s
           (Conn.set_alarms (working w)
              (AlarmsBulk.update_rows who now why id (Alarms (working w))))
           (tick w)
end.

Definition tag_step (env : Env) (org : string) (id : Z) (w : World) : World :=
let s := UPDATE_tag org id in
match status w with
| STATUS_INERROR => Conn.refused s w
| _ =>
    if execute_raises env id then Conn.refused s w
    else Conn.sent s
           (Conn.set_tags (working w)
              (TagsBulk.update_rows org id (Tags (working w)))) w
end.

(** Count, failed ids and world after one more turn. *)
Definition alarm_turn (env : Env) (who : string) (why : option string)
  (st : Z * list Z * World) (id : Z) : Z * list Z * World :=
(if alarm_fails env st.2 id then (st.1.1, st.1.2 ++ [id])
 else (st.1.1 + 1, st.1.2),
 alarm_step env who why id st.2).

Definition tag_turn (env : Env) (org : string)
  (st : Z * list Z * World) (id : Z) : Z * list Z * World :=
(if tag_fails env st.2 id then (st.1.1, st.1.2 ++ [id])
 else (st.1.1 + 1, st.1.2),
 tag_step env org id st.2).

(** The UPDATE statements of the alarm loop, the first one stamped with
    the [n]-th reading of the clock. *)
Fixpoint alarm_updates (env : Env) (who : string) (why : option string)
  (n : nat) (ids : list Z) : list event :=
match ids with
| [] => []
| id :: rest =>
    Execute (UPDATE_alarm who (utcnow env n) why id)
      :: alarm_updates env who why (S n) rest
end.

(** A filter with its page and page size replaced. *)
Definition alarm_page (f : AlarmFilter.t) (p ps : Z) : AlarmFilter.t :=
{| AlarmFilter.organization := AlarmFilter.organization f;
   AlarmFilter.warn_type := AlarmFilter.warn_type f;
   AlarmFilter.start_time := AlarmFilter.start_time f;
   AlarmFilter.end_time := AlarmFilter.end_time f;
   AlarmFilter.page := p; AlarmFilter.page_size := ps |}.

Definition tag_page (f : TagFilter.t) (p ps : Z) : TagFilter.t :=
{| TagFilter.organization := TagFilter.organization f;
   TagFilter.model := TagFilter.model f;
   TagFilter.page := p; TagFilter.page_size := ps |}.

(** What the row query of the tag listing selects, in its order, before
    [LIMIT] and [OFFSET] cut a page out of it. *)
Definition tag_rows (f : TagFilter.t) (db : Database) : list TagsQuery.joined :=
Sql.order_by_asc (λ j : TagsQuery.joined, T.sn j.1)
  (List.filter (TagsQuery.where_holds (TagsQuery.where_ (TagsQuery.build f).1))
     (TagsQuery.from_joined db)).

(** The page [p] of size [ps] of a list of rows. *)
Definition window {X} (p ps : Z) (rows : list X) : list X :=
take (Z.to_nat ps) (drop (Z.to_nat ((p - 1) * ps)) rows).

(** The total that a listing reports, if it answers. *)
Definition tag_total (r : result TagListResponse.t) : option Z :=
match r with
| Ok resp => Some (TagListResponse.total_count resp)
| Raise _ => None
end.

(** The answer of a service whose statement the server has refused. *)
Definition http_500 {A} (msg : string) : result A :=
Raise (HTTPExc {| status_code := HTTP_500_INTERNAL_SERVER_ERROR;
                  detail := msg |}).

(** The database without the tags numbered [sn]. *)
Definition without_tag (sn : Z) (db : Database) : Database :=
Conn.set_tags db (List.filter (λ t, negb (T.sn t =? sn)) (Tags db)).

(** One call of a service as the pool sees it, and a run of such calls
    from the start of the process. *)
Record operation := {
  op_net : Connection.Net;
  op_reraise : bool;
  op_message : string;
  op_body : nat → Connection.body_exit
}.

Definition initial_process : Connection.Process :=
{| Connection._pool := None; Connection.direct_open := [];
   Connection.direct_closed := [] |}.

Definition run_operation (p : Connection.Process) (op : operation)
  : Connection.Process :=
(Connection.scope (op_net op) (op_reraise op) (op_message op) (op_body op) p).2.

Definition run_operations (ops : list operation) : Connection.Process :=
foldl run_operation initial_process ops.

Module Sample.

Definition alarm (sn : Z) (org imei : string) (time : Z) (handled : option bool)
  : A.row :=
{| A.sn := sn; A.organization := org; A.imei := imei;
   A.warn_type := "geofence"; A.time := time;
   A.check_the_time := None; A.check_time := None;
   A.is_handled := handled; A.handled_by := None;
   A.handled_at := None; A.handle_reason := None |}.

Definition tag (sn : Z) (org imei : string) : T.row :=
{| T.sn := sn; T.organization := org; T.imei := imei;
   T.signal := None; T.power := None; T.charge_status := None;
   T.tracking_update_time := None; T.data_update_time := None;
   T.bluetooth_mark := None |}.

Definition tracking_object (sn : Z) (org name : string) (mac : option string)
  : TO.row :=
{| TO.sn := sn; TO.organization := org; TO.name := name;
   TO.role := None; TO.mac := mac |}.

Definition org (id : Z) (name : string) : O.row :=
{| O.id := id; O.organization_name := name; O.title := None |}.

Definition route (sn : Z) (terminal : string) (time : Z) : R.row :=
{| R.sn := sn; R.terminal_id := terminal; R.tracking_time := time;
   R.gps_x := None; R.gps_y := None |}.

(** Organization [acme] with tags [111] (no tracking object) and [222]
    (tracking object [Forklift-1]); alarm 1 is unhandled, alarm 2 handled;
    alarm 3 belongs to another organization; alarm 5 refers to no tag;
    tag 3 names an organization that has no row. *)
Definition db : Database :=
{| Alarms := [alarm 1 "acme" "111" 10 (Some false);
              alarm 2 "acme" "222" 20 (Some true);
              alarm 3 "beta" "333" 30 None;
              alarm 4 "acme" "222" 40 None;
              alarm 5 "acme" "555" 50 (Some false)];
   Tags := [tag 1 "acme" "111"; tag 2 "acme" "222"; tag 3 "ghost" "444"];
   Tracking_Objects := [tracking_object 1 "acme" "Forklift-1" (Some "222")];
   Organizations := [org 1 "acme"; org 2 "beta"];
   Route_List := [route 1 "111" 100; route 2 "222" 200; route 3 "999" 300] |}.

Definition alarms_of (o : string) (p ps : Z) : AlarmFilter.t :=
{| AlarmFilter.organization := o; AlarmFilter.warn_type := None;
   AlarmFilter.start_time := None; AlarmFilter.end_time := None;
   AlarmFilter.page := p; AlarmFilter.page_size := ps |}.

Definition tags_like (o model : option string) (p ps : Z) : TagFilter.t :=
{| TagFilter.organization := o; TagFilter.model := model;
   TagFilter.page := p; TagFilter.page_size := ps |}.

Definition routes_of (o : string) (t0 t1 p ps : Z) : RouteFilter.t :=
{| RouteFilter.organization := o; RouteFilter.start_time := t0;
   RouteFilter.end_time := t1;
   RouteFilter.page := p; RouteFilter.page_size := ps |}.

Definition world (d : Database) : World :=
{| durable := d; working := d; status := STATUS_READY; log := []; clock := 0 |}.

(** Nothing fails and nobody interferes. *)
Definition quiet : Env :=
{| utcnow := λ n, 1000 + Z.of_nat n;
   execute_raises := λ _, false;
   interfere := λ d, d |}.

(** The server raises on the targets [ks], and nobody interferes. *)
Definition stumble (ks : list Z) : Env :=
{| utcnow := λ n, 1000 + Z.of_nat n;
   execute_raises := λ id, Py.mem id ks;
   interfere := λ d, d |}.

(** The server raises on target 4, and a concurrent session deletes
    alarm 1 and tag 1 after the checks. *)
Definition rough : Env :=
{| utcnow := λ n, 1000 + Z.of_nat n;
   execute_raises := λ id, id =? 4;
   interfere := λ d,
     Conn.set_tags
       (Conn.set_alarms d (List.filter (λ a, negb (A.sn a =? 1)) (Alarms d)))
       (List.filter (λ t, negb (T.sn t =? 1)) (Tags d)) |}.

Definition handle (ids : list Z) : AlarmHandleRequest.t :=
{| AlarmHandleRequest.alarm_ids := ids; AlarmHandleRequest.reason := Some "checked" |}.

Definition transfer (ids : list Z) (org_id : Z) : TagTransferRequest.t :=
{| TagTransferRequest.tag_ids := ids;
   TagTransferRequest.new_organization_id := org_id;
   TagTransferRequest.reason := None |}.

End Sample.

(** Membership in a list that computes to a literal. *)
Ltac in_list :=
  apply list_elem_of_In; vm_compute;
  repeat (first [left; reflexivity | right]).

From stdpp Require Import sorting.

Local Open Scope Z_scope.

(** ** Python strings on ASCII text *)

Module PyStr.

(** [c.isspace()]: tab to carriage return, the four separators, space. *)
Definition isspace (c : ascii) : bool :=
let n := nat_of_ascii c in
((9 <=? n) && (n <=? 13) || (28 <=? n) && (n <=? 32))%nat.

(** [s.lstrip()], [s.rstrip()] and [s.strip()]. *)
Fixpoint lstrip (s : string) : string :=
match s with
| String c s' => if isspace c then lstrip s' else s
| EmptyString => EmptyString
end.

Fixpoint rstrip (s : string) : string :=
match s with
| String c s' =>
    match rstrip s' with
    | EmptyString => if isspace c then EmptyString else String c EmptyString
    | r => String c r
    end
| EmptyString => EmptyString
end.

Definition strip (s : string) : string := rstrip (lstrip s).

(** Truthiness of a [str]. *)
Definition truthy (s : string) : bool :=
match s with
| String _ _ => true
| EmptyString => false
end.

End PyStr.

(** ** Validators of the tag filter and of the free-text fields (pydantic)

    A constructor that fails raises one [ValidationError] for all the
    fields at fault; here it raises the error of the first such field.
    For a [Field] or [conint] bound the error names the field. *)

Module TagFilterValidators.

(** [TagFilter.validate_model]. *)
Definition validate_model (v : option string) : result (option string) :=
match v with
| Some s =>
    if bool_decide (100 < String.length (PyStr.strip s))%nat then
      Raise (ValueError "Model filter cannot exceed 100 characters")
    else Ok (if PyStr.truthy s then Some (PyStr.strip s) else v)
| None => Ok v
end.

(** [TagFilter(organization=..., model=..., page=..., page_size=...)]. *)
Definition parse (organization model : option string) (page page_size : Z)
  : result TagFilter.t :=
match validate_model model with
| Raise e => Raise e
| Ok model' =>
    if page <? 1 then Raise (ValueError "page")
    else if (page_size <? 1) || (100 <? page_size) then
      Raise (ValueError "page_size")
    else
      Ok {| TagFilter.organization := organization;
            TagFilter.model := model';
            TagFilter.page := page;
            TagFilter.page_size := page_size |}
end.

End TagFilterValidators.

Module ReasonValidators.

(** [constr(max_length=n)]. *)
Definition constr_max_length (n : nat) (v : string) : result string :=
if bool_decide (n < String.length v)%nat then Raise (ValueError "max_length")
else Ok v.

(** [AlarmHandleRequest.validate_reason]. *)
Definition validate_reason (v : option string) : result (option string) :=
match v with
| Some s =>
    if bool_decide (500 < String.length (PyStr.strip s))%nat then
      Raise (ValueError "Handle reason cannot exceed 500 characters")
    else Ok (if PyStr.truthy s then Some (PyStr.strip s) else v)
| None => Ok v
end.

(** [TagTransferRequest.validate_reason]. *)
Definition validate_transfer_reason (v : option string) : result (option string) :=
match v with
| Some s =>
    if bool_decide (500 < String.length (PyStr.strip s))%nat then
      Raise (ValueError "Transfer reason cannot exceed 500 characters")
    else Ok (if PyStr.truthy s then Some (PyStr.strip s) else v)
| None => Ok v
end.

(** The field [reason: Optional[constr(max_length=500)] = None]: the
    constraint of the type first, then the validator of the class. *)
Definition reason_field (validator : option string → result (option string))
  (v : option string) : result (option string) :=
match v with
| Some s =>
    match constr_max_length 500 s with
    | Ok s' => validator (Some s')
    | Raise e => Raise e
    end
| None => validator None
end.

(** [AlarmHandleRequest(alarm_ids=..., reason=...)] with both fields. *)
Definition alarm_handle_request (ids : list Z) (why : option string)
  : result AlarmHandleRequest.t :=
match Validators.validate_alarm_ids ids with
| Raise e => Raise e
| Ok v =>
    match reason_field validate_reason why with
    | Raise e => Raise e
    | Ok why' =>
        Ok {| AlarmHandleRequest.alarm_ids := v;
              AlarmHandleRequest.reason := why' |}
    end
end.

End ReasonValidators.

(** ** Exports: the rows handed to [csv.writer] and to the worksheet

    An export is kept as its header and the rows written after it, cell
    by cell; the text or the workbook is the writer's rendering of them. *)

Module Sheet.

Inductive cell :=
| int_ (v : Z)
| str_ (v : string)
| datetime_ (v : Z)
| bool_ (v : bool)
| float_ (v : spec_float)
| none_.

Definition opt {X} (f : X → cell) (x : option X) : cell :=
match x with
| Some v => f v
| None => none_
end.

Record t := { header : list string; data : list (list cell) }.

End Sheet.

Module AlarmsExport.

(** The text of [export_alarms_to_csv] before [ORDER BY] is appended. *)
Definition build (alarm_filter : AlarmFilter.t) : AlarmsQuery.query :=
let base_query :=
  {| AlarmsQuery.head := AlarmsQuery.SELECT_joined;
     AlarmsQuery.where_ :=
       [AlarmsQuery.organization_eq (AlarmFilter.organization alarm_filter)];
     AlarmsQuery.paging := None |} in
let base_query :=
  match AlarmFilter.warn_type alarm_filter with
  | Some wt =>
      AlarmsQuery.and_ base_query (AlarmsQuery.warn_type_eq (WarnType.value wt))
  | None => base_query
  end in
let base_query :=
  match AlarmFilter.start_time alarm_filter with
  | Some st => AlarmsQuery.and_ base_query (AlarmsQuery.time_ge st)
  | None => base_query
  end in
match AlarmFilter.end_time alarm_filter with
| Some et => AlarmsQuery.and_ base_query (AlarmsQuery.time_le et)
| None => base_query
end.

(** [cur.execute(base_query + " ORDER BY a.time DESC"); cur.fetchall()]. *)
Definition fetchall (q : AlarmsQuery.query) (db : Database)
  : result (list AlarmsQuery.joined) :=
match Sql.parse (AlarmsQuery.aliases (AlarmsQuery.head q)) with
| Raise e => Raise e
| Ok _ =>
    Ok (Sql.order_by_desc (λ j : AlarmsQuery.joined, A.time j.1.1)
          (List.filter
             (λ j : AlarmsQuery.joined,
                AlarmsQuery.where_holds (AlarmsQuery.where_ q) j.1.1)
             (AlarmsQuery.from_joined db)))
end.

Definition header : list string :=
["SN"; "Organization"; "IMEI"; "Tracking Object"; "Warn Type";
 "Time"; "Check The Time"; "Check Time"; "Is Handled";
 "Handled By"; "Handled At"; "Handle Reason"].

(** [[row[0], row[1], row[2] or "Unknown", row[3] or "Unknown", row[4],
    ..., row[11]]]. *)
Definition writerow (row : AlarmsQuery.joined) : list Sheet.cell :=
let a := row.1.1 in
[Sheet.int_ (A.sn a);
 Sheet.str_ (A.organization a);
 Sheet.str_ (Py.or_str (T.imei <$> row.1.2) "Unknown");
 Sheet.str_ (Py.or_str (TO.name <$> row.2) "Unknown");
 Sheet.str_ (A.warn_type a);
 Sheet.datetime_ (A.time a);
 Sheet.opt Sheet.datetime_ (A.check_the_time a);
 Sheet.opt Sheet.str_ (A.check_time a);
 Sheet.opt Sheet.bool_ (A.is_handled a);
 Sheet.opt Sheet.str_ (A.handled_by a);
 Sheet.opt Sheet.datetime_ (A.handled_at a);
 Sheet.opt Sheet.str_ (A.handle_reason a)].

Definition export_alarms_to_csv (alarm_filter : AlarmFilter.t) (db : Database)
  : result Sheet.t :=
internal_error "Failed to export alarms" (
  match fetchall (build alarm_filter) db with
  | Raise e => Raise e
  | Ok rows => Ok {| Sheet.header := header; Sheet.data := map writerow rows |}
  end).

(** The placeholder: the CSV content, encoded. *)
Definition export_alarms_to_xlsx (alarm_filter : AlarmFilter.t) (db : Database)
  : result Sheet.t :=
internal_error "Failed to export alarms" (export_alarms_to_csv alarm_filter db).

End AlarmsExport.

Module TagsExport.

Definition build (tag_filter : TagFilter.t) : TagsQuery.query :=
let base_query :=
  {| TagsQuery.head := TagsQuery.SELECT_columns; TagsQuery.where_ := [];
     TagsQuery.paging := None |} in
let base_query :=
  if Py.truthy_str (TagFilter.organization tag_filter) then
    TagsQuery.and_ base_query
      (TagsQuery.organization_name_eq (default "" (TagFilter.organization tag_filter)))
  else base_query in
if Py.truthy_str (TagFilter.model tag_filter) then
  TagsQuery.and_ base_query
    (TagsQuery.imei_ilike ("%" +:+ default "" (TagFilter.model tag_filter) +:+ "%"))
else base_query.

(** [cur.execute(base_query + " ORDER BY t.sn"); cur.fetchall()]. *)
Definition fetchall (q : TagsQuery.query) (db : Database) : list TagsQuery.joined :=
Sql.order_by_asc (λ j : TagsQuery.joined, T.sn j.1)
  (List.filter (TagsQuery.where_holds (TagsQuery.where_ q))
     (TagsQuery.from_joined db)).

Definition header : list string :=
["SN"; "Organization"; "IMEI"; "Signal"; "Power";
 "Charge Status"; "Tracking Update Time"; "Data Update Time"; "Bluetooth Mark"].

Definition writerow (row : TagsQuery.joined) : list Sheet.cell :=
[Sheet.int_ (T.sn row.1);
 Sheet.str_ (O.organization_name row.2);
 Sheet.str_ (T.imei row.1);
 Sheet.opt Sheet.int_ (T.signal row.1);
 Sheet.opt Sheet.int_ (T.power row.1);
 Sheet.opt Sheet.str_ (T.charge_status row.1);
 Sheet.opt Sheet.datetime_ (T.tracking_update_time row.1);
 Sheet.opt Sheet.datetime_ (T.data_update_time row.1);
 Sheet.opt Sheet.str_ (T.bluetooth_mark row.1)].

Definition export_tags_to_csv (tag_filter : TagFilter.t) (db : Database)
  : result Sheet.t :=
internal_error "Failed to export tags" (
  let rows := fetchall (build tag_filter) db in
  Ok {| Sheet.header := header; Sheet.data := map writerow rows |}).

Definition export_tags_to_xlsx (tag_filter : TagFilter.t) (db : Database)
  : result Sheet.t :=
internal_error "Failed to export tags" (export_tags_to_csv tag_filter db).

End TagsExport.

Module RoutesExport.

Definition build (route_filter : RouteFilter.t) : RoutesQuery.query :=
let base_query :=
  {| RoutesQuery.head := RoutesQuery.SELECT_joined;
     RoutesQuery.where_ :=
       [RoutesQuery.organization_name_eq (RouteFilter.organization route_filter)];
     RoutesQuery.paging := None |} in
let base_query :=
  if RoutesQuery.truthy_datetime (RouteFilter.start_time route_filter) then
    RoutesQuery.and_ base_query
      (RoutesQuery.tracking_time_ge (RouteFilter.start_time route_filter))
  else base_query in
if RoutesQuery.truthy_datetime (RouteFilter.end_time route_filter) then
  RoutesQuery.and_ base_query
    (RoutesQuery.tracking_time_le (RouteFilter.end_time route_filter))
else base_query.

(** [cur.execute(base_query + " ORDER BY r.tracking_time DESC");
    cur.fetchall()], the row number being taken in the same order. *)
Definition fetchall (q : RoutesQuery.query) (db : Database)
  : result (list (Z * RoutesQuery.joined)) :=
match Sql.parse (RoutesQuery.aliases (RoutesQuery.head q)) with
| Raise e => Raise e
| Ok _ =>
    Ok (Sql.row_number
          (Sql.order_by_desc (λ j : RoutesQuery.joined, R.tracking_time j.1.1.1)
             (List.filter
                (λ j : RoutesQuery.joined,
                   RoutesQuery.where_holds (RoutesQuery.where_ q) j.1.1.1 j.2)
                (RoutesQuery.from_joined db))))
end.

Definition header : list string :=
["SN"; "Terminal ID"; "Tracking Object"; "Tracking Time"; "GPS X"; "GPS Y"].

(** [[row[0], row[1] or "Unknown", row[2] or "Unknown", row[3], row[4],
    row[5]]]. *)
Definition writerow (row : Z * RoutesQuery.joined) : list Sheet.cell :=
let j := row.2 in
[Sheet.int_ row.1;
 Sheet.str_ (Py.or_str (T.imei <$> j.1.1.2) "Unknown");
 Sheet.str_ (Py.or_str (TO.name <$> j.1.2) "Unknown");
 Sheet.datetime_ (R.tracking_time j.1.1.1);
 Sheet.opt Sheet.float_ (R.gps_x j.1.1.1);
 Sheet.opt Sheet.float_ (R.gps_y j.1.1.1)].

Definition export_routes_to_csv (route_filter : RouteFilter.t) (db : Database)
  : result Sheet.t :=
internal_error "Failed to export routes" (
  match fetchall (build route_filter) db with
  | Raise e => Raise e
  | Ok rows => Ok {| Sheet.header := header; Sheet.data := map writerow rows |}
  end).

(** The workbook's one sheet: [ws.append(headers)], then [ws.append] of
    each row. *)
Definition export_routes_to_xlsx (route_filter : RouteFilter.t) (db : Database)
  : result Sheet.t :=
internal_error "Failed to export routes" (
  match fetchall (build route_filter) db with
  | Raise e => Raise e
  | Ok rows =>
      let headers :=
        ["SN"; "Terminal ID"; "Tracking Object"; "Tracking Time"; "GPS X"; "GPS Y"] in
      Ok {| Sheet.header := headers;
            Sheet.data :=
              map (λ row : Z * RoutesQuery.joined,
                     let j := row.2 in
                     [Sheet.int_ row.1;
                      Sheet.str_ (Py.or_str (T.imei <$> j.1.1.2) "Unknown");
                      Sheet.str_ (Py.or_str (TO.name <$> j.1.2) "Unknown");
                      Sheet.datetime_ (R.tracking_time j.1.1.1);
                      Sheet.opt Sheet.float_ (R.gps_x j.1.1.1);
                      Sheet.opt Sheet.float_ (R.gps_y j.1.1.1)]) rows |}
  end).

End RoutesExport.

(** ** The organizations of the dropdowns *)

Module Organization.
Record t := { id : Z; organization_name : string; title : option string }.
End Organization.

Module OrganizationsQuery.

Section Collation.

(** The order of text under the collation of the database. *)
Variable collate_le : string → string → bool.

(** [get_organizations], the same in [alarms_service.py],
    [tags_service.py] and [routes_service.py]:
    [SELECT id, organization_name, title FROM Organizations
     ORDER BY organization_name]. *)
Definition get_organizations (db : Database) : result (list Organization.t) :=
internal_error "Failed to fetch organizations" (
  let rows :=
    Sql.sort_by
      (λ x y, collate_le (O.organization_name x) (O.organization_name y))
      (Organizations db) in
  Ok (map (λ row, {| Organization.id := O.id row;
                     Organization.organization_name := O.organization_name row;
                     Organization.title := O.title row |}) rows)).

End Collation.

End OrganizationsQuery.

(** ** routes_service.py: statistics *)

Module RouteStatistics.
Record t := {
  total_routes : Z;
  unique_terminals : Z;
  earliest_time : option Z;
  latest_time : option Z;
  time_range_days : Z
}.
End RouteStatistics.

Module RoutesStatistics.

(** [MIN] and [MAX] over the selected rows: NULL when there is none. *)
Definition agg_min (l : list Z) : option Z :=
match l with
| [] => None
| x :: l' => Some (foldl Z.min x l')
end.

Definition agg_max (l : list Z) : option Z :=
match l with
| [] => None
| x :: l' => Some (foldl Z.max x l')
end.

(** [timedelta.days] of a difference of timestamps in seconds. *)
Definition days (seconds : Z) : Z := seconds `div` 86400.

(** The aliases of the statistics query: [Route_List r], [Tags t],
    [Organizations o]. *)
Definition aliases : list string := ["r"; "t"; "o"].

(** [get_route_statistics]: one row of aggregates over
    [Route_List r LEFT JOIN Tags t ... LEFT JOIN Organizations o ...
     WHERE o.organization_name = %s AND r.tracking_time >= %s
     AND r.tracking_time <= %s]; the row of an aggregate query always
    exists and, as a tuple of four, is truthy. *)
Definition get_route_statistics (organization : string) (start_time end_time : Z)
  (db : Database) : result RouteStatistics.t :=
internal_error "Failed to fetch route statistics" (
  match Sql.parse aliases with
  | Raise e => Raise e
  | Ok _ =>
      let selected :=
        List.filter
          (λ j : R.row * option T.row * option O.row,
             RoutesQuery.where_holds
               [RoutesQuery.organization_name_eq organization;
                RoutesQuery.tracking_time_ge start_time;
                RoutesQuery.tracking_time_le end_time] j.1.1 j.2)
          (RoutesQuery.from_count db) in
      let row :=
        (Z.of_nat (length selected),
         Z.of_nat (size (list_to_set (map (λ j, R.terminal_id j.1.1) selected)
                           : gset string)),
         agg_min (map (λ j, R.tracking_time j.1.1) selected),
         agg_max (map (λ j, R.tracking_time j.1.1) selected)) in
      Ok {| RouteStatistics.total_routes := row.1.1.1;
            RouteStatistics.unique_terminals := row.1.1.2;
            RouteStatistics.earliest_time := row.1.2;
            RouteStatistics.latest_time := row.2;
            RouteStatistics.time_range_days :=
              match row.1.2, row.2 with
              | Some _, Some _ => days (end_time - start_time)
              | _, _ => 0
              end |}
  end).

End RoutesStatistics.

(** ** The endpoints of the three routers *)

Module AlarmsRouter.

(** [GET /alarms/{alarm_id}]; a model instance is truthy. *)
Definition get_alarm (alarm_id : Z) (db : Database) : result Alarm.t :=
match AlarmsQuery.get_alarm_by_id alarm_id db with
| Raise e => Raise e
| Ok (Some alarm) => Ok alarm
| Ok None =>
    Raise (HTTPExc {| status_code := HTTP_404_NOT_FOUND;
                      detail := "Alarm with ID " +:+ pretty alarm_id +:+ " not found" |})
end.

(** [POST /alarms/handle]: the body is an [AlarmHandleRequest], the user
    the payload of the token, of which [sub] is read. *)
Definition handle_alarms_bulk (env : Env) (ids : list Z) (why : option string)
  (sub : option string) : M AlarmHandleResponse.t :=
match ReasonValidators.alarm_handle_request ids why with
| Raise e => raise e
| Ok handle_request =>
    Conn.reraise_http "Failed to handle alarms"
      (let handled_by := default "unknown" sub in
       AlarmsBulk.handle_alarms env handle_request handled_by)
end.

End AlarmsRouter.

Module TagsRouter.

(** [GET /tags]. *)
Definition list_tags (organization model : option string) (page page_size : Z)
  (db : Database) : result TagListResponse.t :=
match TagFilterValidators.parse organization model page page_size with
| Raise e => Raise e
| Ok tag_filter => TagsQuery.get_tags_with_filters tag_filter db
end.

End TagsRouter.

Module RoutesRouter.

(** [GET /routes/{route_id}]. *)
Definition get_route (route_id : Z) (db : Database) : result Route.t :=
match RoutesQuery.get_route_by_id route_id db with
| Raise e => Raise e
| Ok (Some route) => Ok route
| Ok None =>
    Raise (HTTPExc {| status_code := HTTP_404_NOT_FOUND;
                      detail := "Route with ID " +:+ pretty route_id +:+ " not found" |})
end.


End RoutesRouter.

(** ** Vocabulary of the statements on exports, statistics and endpoints *)

(** A tag with its organization row meets the conditions of a filter. *)
Definition tag_matches (f : TagFilter.t) (j : TagsQuery.joined) : Prop :=
(∀ v, TagFilter.organization f = Some v → v ≠ "" → O.organization_name j.2 = v) ∧
(∀ m, TagFilter.model f = Some m → m ≠ "" →
      Sql.ilike (T.imei j.1) ("%" +:+ m +:+ "%") = true).

(** Rows in the order of [ORDER BY key]. *)
Definition ascending {X} (key : X → Z) (rows : list X) : Prop :=
StronglySorted (λ x y, key x ≤ key y) rows.


(** An organization row as an item of the dropdown. *)
Definition dropdown_item (o : O.row) : Organization.t :=
{| Organization.id := O.id o;
   Organization.organization_name := O.organization_name o;
   Organization.title := O.title o |}.

(** A route filter from its fields. *)
Definition route_filter (org : string) (t0 t1 p ps : Z) : RouteFilter.t :=
{| RouteFilter.organization := org; RouteFilter.start_time := t0;
   RouteFilter.end_time := t1; RouteFilter.page := p;
   RouteFilter.page_size := ps |}.


(** Text without the characters that [LIKE] gives a meaning to. *)
Definition plain_text (m : string) : Prop :=
Forall (λ c, c ≠ "%"%char ∧ c ≠ "_"%char ∧ c ≠ "\"%char) (list_ascii_of_string m).

(** [m] occurs in [s], letters compared without case. *)
Definition contains_nocase (s m : string) : Prop :=
∃ pre mid post,
  list_ascii_of_string s = pre ++ mid ++ post ∧
  map Sql.lower mid = map Sql.lower (list_ascii_of_string m).

(** No concurrent session commits during the call. *)
Definition undisturbed (env : Env) : Prop := ∀ d, interfere env d = d.

(** The driver raises on none of the targets. *)
Definition no_failure (env : Env) (ids : list Z) : Prop :=
∀ id, id ∈ ids → execute_raises env id = false.

(** What a bulk call has no statement to change: every column of an
    alarm but the four of its handling, every column of a tag but its
    organization. *)
Definition alarm_identity (a : A.row)
  : Z * string * string * string * Z * option Z * option string :=
(A.sn a, A.organization a, A.imei a, A.warn_type a, A.time a,
 A.check_the_time a, A.check_time a).

Definition tag_identity (t : T.row)
  : Z * string * option Z * option Z * option string * option Z * option Z
    * option string :=
(T.sn t, T.imei t, T.signal t, T.power t, T.charge_status t,
 T.tracking_update_time t, T.data_update_time t, T.bluetooth_mark t).

(** A tag filter from its fields. *)
Definition tag_filter (org model : option string) (p ps : Z) : TagFilter.t :=
{| TagFilter.organization := org; TagFilter.model := model;
   TagFilter.page := p; TagFilter.page_size := ps |}.

(** A row of [Alarms] before and after a call that handles [ids]. *)
Definition handled_if_target (who : string) (why : option string) (ids : list Z)
  (a a' : A.row) : Prop :=
if Py.mem (A.sn a) ids then ∃ now, a' = AlarmsBulk.handled_row who now why a
else a' = a.

(** A row of [Tags] before and after a call that moves [ids] to [org]. *)
Definition moved_if_target (org : string) (ids : list Z) (t t' : T.row) : Prop :=
if Py.mem (T.sn t) ids then t' = TagsBulk.moved_row org t else t' = t.



(** Successive calls of [get_pool], one under each state of the network:
    what each returned, and the process they leave. *)
Definition get_pool_calls (nets : list Connection.Net) (p : Connection.Process)
  : list (option Connection.SimpleConnectionPool) * Connection.Process :=
foldl (λ acc net, ((acc.1 ++ [(Connection.get_pool net acc.2).1]),
                   (Connection.get_pool net acc.2).2)) ([], p) nets.

(** * Facts about lists and sets used throughout *)

Section ListFacts.
Context {X : Type}.

Lemma elem_of_filter (f : X → bool) (l : list X) (x : X) :
  x ∈ List.filter f l ↔ x ∈ l ∧ f x = true.
Proof. rewrite !list_elem_of_In. apply filter_In. Qed.

Lemma elem_of_map {Y} (f : X → Y) (l : list X) (y : Y) :
  y ∈ map f l ↔ ∃ x, f x = y ∧ x ∈ l.
Proof.
  rewrite list_elem_of_In, in_map_iff.
  split; intros (x & ? & ?); exists x; split; auto;
    by apply list_elem_of_In.
Qed.

Lemma filter_all_false (f : X → bool) (l : list X) :
  (∀ x, x ∈ l → f x = false) → List.filter f l = [].
Proof.
  induction l as [|x l IH]; intros H; simpl; [done|].
  rewrite (H x) by constructor.
  apply IH. intros y Hy. apply H. by constructor.
Qed.

Lemma filter_all_true (f : X → bool) (l : list X) :
  (∀ x, x ∈ l → f x = true) → List.filter f l = l.
Proof.
  induction l as [|x l IH]; intros H; simpl; [done|].
  rewrite (H x) by constructor.
  f_equal. apply IH. intros y Hy. apply H. by constructor.
Qed.

End ListFacts.

Lemma mem_true (x : Z) (l : list Z) : Py.mem x l = true ↔ x ∈ l.
Proof. unfold Py.mem. apply bool_decide_eq_true. Qed.

Lemma mem_false (x : Z) (l : list Z) : Py.mem x l = false ↔ x ∉ l.
Proof. unfold Py.mem. apply bool_decide_eq_false. Qed.

(** [len(set(l))] against [len(l)]. *)
Lemma size_list_to_set_le (l : list Z) :
  (size (list_to_set l : gset Z) ≤ length l)%nat.
Proof.
  induction l as [|x l IH].
  - rewrite list_to_set_nil, size_empty. simpl. lia.
  - rewrite list_to_set_cons. simpl length.
    destruct (decide (x ∈ (list_to_set l : gset Z))) as [Hin|Hout].
    + replace ({[x]} ∪ list_to_set l) with (list_to_set l : gset Z)
        by set_solver.
      lia.
    + rewrite size_union by set_solver. rewrite size_singleton. lia.
Qed.

Lemma size_list_to_set_NoDup (l : list Z) :
  size (list_to_set l : gset Z) = length l ↔ NoDup l.
Proof.
  split; [|apply size_list_to_set].
  induction l as [|x l IH]; [constructor|].
  rewrite list_to_set_cons. simpl length. intros Hsz.
  destruct (decide (x ∈ (list_to_set l : gset Z))) as [Hin|Hout].
  - replace ({[x]} ∪ list_to_set l) with (list_to_set l : gset Z) in Hsz
      by set_solver.
    pose proof (size_list_to_set_le l). lia.
  - rewrite size_union in Hsz by set_solver.
    rewrite size_singleton in Hsz.
    constructor; [set_solver|]. apply IH. lia.
Qed.

(** [len(set(l)) > 1] says that two members of [l] differ. *)
Lemma size_gt_1_iff (l : list string) :
  (1 < size (list_to_set l : gset string))%nat ↔
  ∃ x y, x ∈ l ∧ y ∈ l ∧ x ≠ y.
Proof.
  split.
  - destruct l as [|x l].
    { rewrite list_to_set_nil, size_empty. lia. }
    rewrite list_to_set_cons. intros Hsz.
    destruct (decide (Forall (λ y, y = x) l)) as [Hall|Hex].
    + exfalso.
      assert (({[x]} ∪ list_to_set l : gset string) = {[x]}) as E.
      { rewrite Forall_forall in Hall. apply set_eq. intros y.
        rewrite elem_of_union, elem_of_list_to_set, elem_of_singleton.
        naive_solver. }
      rewrite E, size_singleton in Hsz. lia.
    + apply not_Forall_Exists in Hex; [|apply _].
      apply Exists_exists in Hex as (y & Hy & Hne).
      exists x, y. repeat split; [constructor|by constructor|congruence].
  - intros (x & y & Hx & Hy & Hne).
    assert (({[x]} ∪ {[y]} : gset string) ⊆ list_to_set l) as Hsub
      by set_solver.
    apply subseteq_size in Hsub.
    rewrite size_union, !size_singleton in Hsub by set_solver. lia.
Qed.

(** * The loops of the bulk services, turn by turn *)

Lemma filter_map_swap {X Y} (f : Y → bool) (g : X → Y) (l : list X) :
  List.filter f (map g l) = map g (List.filter (λ x, f (g x)) l).
Proof.
  induction l as [|x l IH]; simpl; [done|].
  destruct (f (g x)); simpl; by rewrite IH.
Qed.

Lemma Forall2_map_l_inv {X Y Z'} (P : Y → Z' → Prop) (f : X → Y) l k :
  Forall2 P (map f l) k → Forall2 (λ x z, P (f x) z) l k.
Proof.
  revert k. induction l as [|x l IH]; intros k H; inversion H; subst;
    constructor; auto.
Qed.

Lemma Forall2_impl_in {X Y} (P Q : X → Y → Prop) l k :
  Forall2 P l k → (∀ x y, x ∈ l → P x y → Q x y) → Forall2 Q l k.
Proof.
  induction 1 as [|x y l k Hxy _ IH]; intros HPQ; constructor.
  - apply HPQ; [constructor|done].
  - apply IH. intros x' y' Hin. apply HPQ. by constructor.
Qed.

Lemma Forall2_diag {X} (P : X → X → Prop) (l : list X) :
  (∀ x, x ∈ l → P x x) → Forall2 P l l.
Proof.
  induction l as [|x l IH]; intros H; constructor.
  - apply H. constructor.
  - apply IH. intros y Hy. apply H. by constructor.
Qed.

Lemma no_failure_cons env id ids :
  no_failure env (id :: ids) ↔ execute_raises env id = false ∧ no_failure env ids.
Proof.
  unfold no_failure. split.
  - intros H. split; [apply H; constructor|]. intros x Hx. apply H. by constructor.
  - intros [H0 H] x Hx. apply elem_of_cons in Hx as [->|Hx]; auto.
Qed.

(** ** Alarms *)

Lemma alarm_update_rows_sn who now why id rows :
  map A.sn (AlarmsBulk.update_rows who now why id rows) = map A.sn rows.
Proof.
  unfold AlarmsBulk.update_rows. rewrite map_map.
  apply map_ext. intros a. by destruct (A.sn a =? id).
Qed.

Lemma alarm_update_rows_identity who now why id rows :
  map alarm_identity (AlarmsBulk.update_rows who now why id rows)
  = map alarm_identity rows.
Proof.
  unfold AlarmsBulk.update_rows. rewrite map_map.
  apply map_ext. intros a. by destruct (A.sn a =? id).
Qed.

Lemma alarm_rowcount_sn id rows :
  AlarmsBulk.rowcount id rows =
  Z.of_nat (length (List.filter (λ s, s =? id) (map A.sn rows))).
Proof.
  unfold AlarmsBulk.rowcount. by rewrite filter_map_swap, length_map.
Qed.

Lemma alarm_gone_sn rows rows' id :
  map A.sn rows = map A.sn rows' → alarm_gone rows id = alarm_gone rows' id.
Proof.
  intros E. unfold alarm_gone. by rewrite !alarm_rowcount_sn, E.
Qed.

Lemma alarm_rowcount_pos a id rows :
  a ∈ rows → A.sn a = id → 0 < AlarmsBulk.rowcount id rows.
Proof.
  intros Hin Hsn. unfold AlarmsBulk.rowcount.
  assert (a ∈ List.filter (λ a0, A.sn a0 =? id) rows) as Hf
    by (apply elem_of_filter; split; [done|lia]).
  destruct (List.filter _ rows); [by apply not_elem_of_nil in Hf|].
  cbn [length]. lia.
Qed.

(** One turn of the loop: the clock is read, the UPDATE is sent, and the
    target is counted or listed; nothing is raised, whatever the server
    answers. *)
Lemma handle_loop_cons env who why id rest acc w :
  AlarmsBulk.handle_loop env who why (id :: rest) acc w =
  AlarmsBulk.handle_loop env who why rest
    (alarm_turn env who why (acc, w) id).1
    (alarm_turn env who why (acc, w) id).2.
Proof.
  cbn [AlarmsBulk.handle_loop].
  unfold mbind, M_bind, Db.bind, Conn.try_except, Conn.now,
    AlarmsBulk.execute_update, Conn.execute, alarm_turn, alarm_step,
    alarm_fails, alarm_gone, tick.
  cbn [fst snd working clock status].
  assert (0 ≤ AlarmsBulk.rowcount id (Alarms (working w)))
    by (unfold AlarmsBulk.rowcount; lia).
  destruct (status w); try done;
    (destruct (execute_raises env id); cbn; [done|];
     destruct (Z.ltb_spec 0 (AlarmsBulk.rowcount id (Alarms (working w))));
     destruct (Z.eqb_spec (AlarmsBulk.rowcount id (Alarms (working w))) 0);
     try done; lia).
Qed.

Lemma handle_loop_run env who why ids : ∀ acc w,
  AlarmsBulk.handle_loop env who why ids acc w =
  (Ok (foldl (alarm_turn env who why) (acc, w) ids).1,
   (foldl (alarm_turn env who why) (acc, w) ids).2).
Proof.
  induction ids as [|id rest IH]; intros acc w; [done|].
  rewrite handle_loop_cons, IH. cbn [foldl].
  by destruct (alarm_turn env who why (acc, w) id).
Qed.

Lemma alarm_turn_world env who why ids : ∀ acc w,
  (foldl (alarm_turn env who why) (acc, w) ids).2
  = foldl (λ w id, alarm_step env who why id w) w ids.
Proof.
  induction ids as [|id rest IH]; intros acc w; [done|].
  cbn [foldl]. unfold alarm_turn at 2. cbn [snd]. apply IH.
Qed.

(** What one turn does to the world. *)
Lemma alarm_step_facts env who why id w :
  let w' := alarm_step env who why id w in
  durable w' = durable w ∧
  clock w' = S (clock w) ∧
  log w' = log w ++ [Execute (UPDATE_alarm who (utcnow env (clock w)) why id)] ∧
  status w' ≠ STATUS_READY ∧
  Tags (working w') = Tags (working w) ∧
  Tracking_Objects (working w') = Tracking_Objects (working w) ∧
  Organizations (working w') = Organizations (working w) ∧
  Route_List (working w') = Route_List (working w) ∧
  map alarm_identity (Alarms (working w'))
    = map alarm_identity (Alarms (working w)).
Proof.
  unfold alarm_step.
  destruct (status w), (execute_raises env id); cbn;
    rewrite ?alarm_update_rows_identity; done.
Qed.

Lemma alarm_step_refused env who why id w :
  status w = STATUS_INERROR ∨ execute_raises env id = true →
  status (alarm_step env who why id w) = STATUS_INERROR ∧
  working (alarm_step env who why id w) = working w.
Proof.
  unfold alarm_step.
  intros [H|H]; rewrite H; [done|]. by destruct (status w).
Qed.

Lemma alarm_step_applied env who why id w :
  status w ≠ STATUS_INERROR → execute_raises env id = false →
  status (alarm_step env who why id w) = STATUS_BEGIN ∧
  Alarms (working (alarm_step env who why id w))
  = AlarmsBulk.update_rows who (utcnow env (clock w)) why id (Alarms (working w)).
Proof.
  unfold alarm_step. intros Hs ->. by destruct (status w).
Qed.

(** What the turns for [ids] do to the world, whatever the server
    answers. *)
Lemma alarm_fold_facts env who why ids : ∀ w,
  let w' := foldl (λ w id, alarm_step env who why id w) w ids in
  durable w' = durable w ∧
  clock w' = (clock w + length ids)%nat ∧
  log w' = log w ++ alarm_updates env who why (clock w) ids ∧
  (status w ≠ STATUS_READY → status w' ≠ STATUS_READY) ∧
  Tags (working w') = Tags (working w) ∧
  Tracking_Objects (working w') = Tracking_Objects (working w) ∧
  Organizations (working w') = Organizations (working w) ∧
  Route_List (working w') = Route_List (working w) ∧
  map alarm_identity (Alarms (working w'))
    = map alarm_identity (Alarms (working w)).
Proof.
  induction ids as [|id rest IH]; intros w; cbn [foldl].
  - cbn. rewrite app_nil_r. repeat split; auto; lia.
  - specialize (IH (alarm_step env who why id w)). cbn zeta in IH.
    destruct IH as (Hd & Hc & Hl & Hs & Ht & Hto & Ho & Hr & Hi).
    destruct (alarm_step_facts env who why id w)
      as (Hd1 & Hc1 & Hl1 & Hs1 & Ht1 & Hto1 & Ho1 & Hr1 & Hi1).
    rewrite Hd, Hc, Hl, Ht, Hto, Ho, Hr, Hi.
    rewrite Hd1, Hc1, Hl1, Ht1, Hto1, Ho1, Hr1, Hi1.
    rewrite <- app_assoc. cbn.
    repeat split; try done; try lia. intros _. by apply Hs.
Qed.

(** In an aborted transaction the turns change nothing, and every target
    is listed as failed. *)
Lemma alarm_fold_refused env who why ids : ∀ acc w,
  status w = STATUS_INERROR →
  let st := foldl (alarm_turn env who why) (acc, w) ids in
  st.1 = (acc.1, acc.2 ++ ids) ∧
  status st.2 = STATUS_INERROR ∧ working st.2 = working w.
Proof.
  induction ids as [|id rest IH]; intros [n failed] w Hs; cbn [foldl].
  - cbn. by rewrite app_nil_r.
  - destruct (alarm_step_refused env who why id w (or_introl Hs)) as [Hs1 Hw1].
    assert (alarm_turn env who why (n, failed, w) id
            = (n, failed ++ [id], alarm_step env who why id w)) as ->.
    { unfold alarm_turn, alarm_fails. cbn [fst snd]. by rewrite Hs. }
    destruct (IH (n, failed ++ [id]) (alarm_step env who why id w) Hs1)
      as (-> & -> & ->).
    cbn [fst snd]. by rewrite <- app_assoc, Hw1.
Qed.

(** With no error from the server every target that has a row is
    handled, the others are listed as failed, and the transaction stays
    in progress. *)
Lemma alarm_fold_clean env who why ids : ∀ acc w,
  status w ≠ STATUS_INERROR → no_failure env ids →
  let rows := Alarms (working w) in
  let st := foldl (alarm_turn env who why) (acc, w) ids in
  st.1 = (acc.1 + Z.of_nat (length
            (List.filter (λ id, negb (alarm_gone rows id)) ids)),
          acc.2 ++ List.filter (alarm_gone rows) ids) ∧
  (ids ≠ [] ∨ status w = STATUS_BEGIN → status st.2 = STATUS_BEGIN) ∧
  Forall2 (handled_if_target who why ids) rows (Alarms (working st.2)).
Proof.
  induction ids as [|id rest IH]; intros [n failed] w Hs Hok; cbn [foldl].
  - cbn. rewrite Z.add_0_r, app_nil_r. split; [done|]. split; [naive_solver|].
    apply Forall2_diag. intros a _. unfold handled_if_target, Py.mem.
    by rewrite bool_decide_eq_false_2 by apply not_elem_of_nil.
  - apply no_failure_cons in Hok as [Hid Hok].
    destruct (alarm_step_applied env who why id w Hs Hid) as [Hs1 Hrows1].
    assert (alarm_turn env who why (n, failed, w) id
            = (if alarm_gone (Alarms (working w)) id
               then (n, failed ++ [id]) else (n + 1, failed),
               alarm_step env who why id w)) as ->.
    { unfold alarm_turn, alarm_fails. cbn [fst snd]. rewrite Hid.
      by destruct (status w). }
    destruct (IH (if alarm_gone (Alarms (working w)) id
                  then (n, failed ++ [id]) else (n + 1, failed))
                (alarm_step env who why id w)) as (Hst & Hst2 & Hrows);
      [by rewrite Hs1|done|].
    cbn zeta. rewrite Hst. clear Hst.
    assert (∀ x, alarm_gone (Alarms (working (alarm_step env who why id w))) x
                 = alarm_gone (Alarms (working w)) x) as E.
    { intros x. apply alarm_gone_sn. rewrite Hrows1. apply alarm_update_rows_sn. }
    rewrite (filter_ext _ _ E).
    rewrite (filter_ext _ (λ x, negb (alarm_gone (Alarms (working w)) x)))
      by (intros x; by rewrite E).
    split; [|split].
    + cbn [List.filter].
      destruct (alarm_gone (Alarms (working w)) id); cbn [fst snd negb length].
      * by rewrite <- app_assoc.
      * rewrite Nat2Z.inj_succ. f_equal. lia.
    + intros _. apply Hst2. by right.
    + rewrite Hrows1 in Hrows. unfold AlarmsBulk.update_rows in Hrows.
      apply Forall2_map_l_inv in Hrows.
      eapply Forall2_impl_in; [exact Hrows|]. intros a a' _. cbn beta.
      unfold handled_if_target, Py.mem.
      destruct (Z.eqb_spec (A.sn a) id) as [Hsn|Hsn].
      * cbn [AlarmsBulk.handled_row A.sn].
        rewrite (bool_decide_eq_true_2 (A.sn a ∈ id :: rest))
          by (rewrite Hsn; constructor).
        case_bool_decide; [intros [now ->]|intros ->]; eauto.
      * rewrite (bool_decide_ext (A.sn a ∈ id :: rest) (A.sn a ∈ rest)); [done|].
        rewrite elem_of_cons. naive_solver.
Qed.

(** ** Tags, likewise *)

Lemma tag_update_rows_sn org id rows :
  map T.sn (TagsBulk.update_rows org id rows) = map T.sn rows.
Proof.
  unfold TagsBulk.update_rows. rewrite map_map.
  apply map_ext. intros t. by destruct (T.sn t =? id).
Qed.

Lemma tag_update_rows_identity org id rows :
  map tag_identity (TagsBulk.update_rows org id rows) = map tag_identity rows.
Proof.
  unfold TagsBulk.update_rows. rewrite map_map.
  apply map_ext. intros t. by destruct (T.sn t =? id).
Qed.

Lemma tag_rowcount_sn id rows :
  TagsBulk.rowcount id rows =
  Z.of_nat (length (List.filter (λ s, s =? id) (map T.sn rows))).
Proof.
  unfold TagsBulk.rowcount. by rewrite filter_map_swap, length_map.
Qed.

Lemma tag_gone_sn rows rows' id :
  map T.sn rows = map T.sn rows' → tag_gone rows id = tag_gone rows' id.
Proof.
  intros E. unfold tag_gone. by rewrite !tag_rowcount_sn, E.
Qed.


Lemma transfer_loop_cons env org id rest acc w :
  TagsBulk.transfer_loop env org (id :: rest) acc w =
  TagsBulk.transfer_loop env org rest
    (tag_turn env org (acc, w) id).1 (tag_turn env org (acc, w) id).2.
Proof.
  cbn [TagsBulk.transfer_loop].
  unfold mbind, M_bind, Db.bind, Conn.try_except,
    TagsBulk.execute_update, Conn.execute, tag_turn, tag_step, tag_fails,
    tag_gone.
  cbn [fst snd].
  assert (0 ≤ TagsBulk.rowcount id (Tags (working w)))
    by (unfold TagsBulk.rowcount; lia).
  destruct (status w); try done;
    (destruct (execute_raises env id); cbn; [done|];
     destruct (Z.ltb_spec 0 (TagsBulk.rowcount id (Tags (working w))));
     destruct (Z.eqb_spec (TagsBulk.rowcount id (Tags (working w))) 0);
     try done; lia).
Qed.

Lemma transfer_loop_run env org ids : ∀ acc w,
  TagsBulk.transfer_loop env org ids acc w =
  (Ok (foldl (tag_turn env org) (acc, w) ids).1,
   (foldl (tag_turn env org) (acc, w) ids).2).
Proof.
  induction ids as [|id rest IH]; intros acc w; [done|].
  rewrite transfer_loop_cons, IH. cbn [foldl].
  by destruct (tag_turn env org (acc, w) id).
Qed.

Lemma tag_turn_world env org ids : ∀ acc w,
  (foldl (tag_turn env org) (acc, w) ids).2
  = foldl (λ w id, tag_step env org id w) w ids.
Proof.
  induction ids as [|id rest IH]; intros acc w; [done|].
  cbn [foldl]. unfold tag_turn at 2. cbn [snd]. apply IH.
Qed.

Lemma tag_step_facts env org id w :
  let w' := tag_step env org id w in
  durable w' = durable w ∧
  clock w' = clock w ∧
  log w' = log w ++ [Execute (UPDATE_tag org id)] ∧
  status w' ≠ STATUS_READY ∧
  Alarms (working w') = Alarms (working w) ∧
  Tracking_Objects (working w') = Tracking_Objects (working w) ∧
  Organizations (working w') = Organizations (working w) ∧
  Route_List (working w') = Route_List (working w) ∧
  map tag_identity (Tags (working w')) = map tag_identity (Tags (working w)).
Proof.
  unfold tag_step.
  destruct (status w), (execute_raises env id); cbn;
    rewrite ?tag_update_rows_identity; done.
Qed.

Lemma tag_step_refused env org id w :
  status w = STATUS_INERROR ∨ execute_raises env id = true →
  status (tag_step env org id w) = STATUS_INERROR ∧
  working (tag_step env org id w) = working w.
Proof.
  unfold tag_step.
  intros [H|H]; rewrite H; [done|]. by destruct (status w).
Qed.

Lemma tag_step_applied env org id w :
  status w ≠ STATUS_INERROR → execute_raises env id = false →
  status (tag_step env org id w) = STATUS_BEGIN ∧
  Tags (working (tag_step env org id w))
  = TagsBulk.update_rows org id (Tags (working w)).
Proof.
  unfold tag_step. intros Hs ->. by destruct (status w).
Qed.

Lemma tag_fold_facts env org ids : ∀ w,
  let w' := foldl (λ w id, tag_step env org id w) w ids in
  durable w' = durable w ∧
  clock w' = clock w ∧
  log w' = log w ++ map (λ id, Execute (UPDATE_tag org id)) ids ∧
  (status w ≠ STATUS_READY → status w' ≠ STATUS_READY) ∧
  Alarms (working w') = Alarms (working w) ∧
  Tracking_Objects (working w') = Tracking_Objects (working w) ∧
  Organizations (working w') = Organizations (working w) ∧
  Route_List (working w') = Route_List (working w) ∧
  map tag_identity (Tags (working w')) = map tag_identity (Tags (working w)).
Proof.
  induction ids as [|id rest IH]; intros w; cbn [foldl].
  - cbn. rewrite app_nil_r. repeat split; auto.
  - specialize (IH (tag_step env org id w)). cbn zeta in IH.
    destruct IH as (Hd & Hc & Hl & Hs & Ht & Hto & Ho & Hr & Hi).
    destruct (tag_step_facts env org id w)
      as (Hd1 & Hc1 & Hl1 & Hs1 & Ht1 & Hto1 & Ho1 & Hr1 & Hi1).
    rewrite Hd, Hc, Hl, Ht, Hto, Ho, Hr, Hi.
    rewrite Hd1, Hc1, Hl1, Ht1, Hto1, Ho1, Hr1, Hi1.
    rewrite <- app_assoc. cbn.
    repeat split; try done. intros _. by apply Hs.
Qed.

Lemma tag_fold_refused env org ids : ∀ acc w,
  status w = STATUS_INERROR →
  let st := foldl (tag_turn env org) (acc, w) ids in
  st.1 = (acc.1, acc.2 ++ ids) ∧
  status st.2 = STATUS_INERROR ∧ working st.2 = working w.
Proof.
  induction ids as [|id rest IH]; intros [n failed] w Hs; cbn [foldl].
  - cbn. by rewrite app_nil_r.
  - destruct (tag_step_refused env org id w (or_introl Hs)) as [Hs1 Hw1].
    assert (tag_turn env org (n, failed, w) id
            = (n, failed ++ [id], tag_step env org id w)) as ->.
    { unfold tag_turn, tag_fails. cbn [fst snd]. by rewrite Hs. }
    destruct (IH (n, failed ++ [id]) (tag_step env org id w) Hs1)
      as (-> & -> & ->).
    cbn [fst snd]. by rewrite <- app_assoc, Hw1.
Qed.

Lemma tag_fold_clean env org ids : ∀ acc w,
  status w ≠ STATUS_INERROR → no_failure env ids →
  let rows := Tags (working w) in
  let st := foldl (tag_turn env org) (acc, w) ids in
  st.1 = (acc.1 + Z.of_nat (length
            (List.filter (λ id, negb (tag_gone rows id)) ids)),
          acc.2 ++ List.filter (tag_gone rows) ids) ∧
  (ids ≠ [] ∨ status w = STATUS_BEGIN → status st.2 = STATUS_BEGIN) ∧
  Forall2 (moved_if_target org ids) rows (Tags (working st.2)).
Proof.
  induction ids as [|id rest IH]; intros [n failed] w Hs Hok; cbn [foldl].
  - cbn. rewrite Z.add_0_r, app_nil_r. split; [done|]. split; [naive_solver|].
    apply Forall2_diag. intros a _. unfold moved_if_target, Py.mem.
    by rewrite bool_decide_eq_false_2 by apply not_elem_of_nil.
  - apply no_failure_cons in Hok as [Hid Hok].
    destruct (tag_step_applied env org id w Hs Hid) as [Hs1 Hrows1].
    assert (tag_turn env org (n, failed, w) id
            = (if tag_gone (Tags (working w)) id
               then (n, failed ++ [id]) else (n + 1, failed),
               tag_step env org id w)) as ->.
    { unfold tag_turn, tag_fails. cbn [fst snd]. rewrite Hid.
      by destruct (status w). }
    destruct (IH (if tag_gone (Tags (working w)) id
                  then (n, failed ++ [id]) else (n + 1, failed))
                (tag_step env org id w)) as (Hst & Hst2 & Hrows);
      [by rewrite Hs1|done|].
    cbn zeta. rewrite Hst. clear Hst.
    assert (∀ x, tag_gone (Tags (working (tag_step env org id w))) x
                 = tag_gone (Tags (working w)) x) as E.
    { intros x. apply tag_gone_sn. rewrite Hrows1. apply tag_update_rows_sn. }
    rewrite (filter_ext _ _ E).
    rewrite (filter_ext _ (λ x, negb (tag_gone (Tags (working w)) x)))
      by (intros x; by rewrite E).
    split; [|split].
    + cbn [List.filter].
      destruct (tag_gone (Tags (working w)) id); cbn [fst snd negb length].
      * by rewrite <- app_assoc.
      * rewrite Nat2Z.inj_succ. f_equal. lia.
    + intros _. apply Hst2. by right.
    + rewrite Hrows1 in Hrows. unfold TagsBulk.update_rows in Hrows.
      apply Forall2_map_l_inv in Hrows.
      eapply Forall2_impl_in; [exact Hrows|]. intros a a' _. cbn beta.
      unfold moved_if_target, Py.mem.
      destruct (Z.eqb_spec (T.sn a) id) as [Hsn|Hsn].
      * cbn [TagsBulk.moved_row T.sn].
        rewrite (bool_decide_eq_true_2 (T.sn a ∈ id :: rest))
          by (rewrite Hsn; constructor).
        case_bool_decide; intros ->; reflexivity.
      * rewrite (bool_decide_ext (T.sn a ∈ id :: rest) (T.sn a ∈ rest)); [done|].
        rewrite elem_of_cons. naive_solver.
Qed.

(** * The bulk services, phase by phase *)

Lemma handle_alarms_unfold env req who w :
  status w ≠ STATUS_INERROR →
  AlarmsBulk.handle_alarms env req who w =
  let ids := AlarmHandleRequest.alarm_ids req in
  let why := AlarmHandleRequest.reason req in
  let w1 := Conn.sent (SELECT_alarms_by_ids ids) (working w) w in
  let existing := fetched_alarms ids (working w) in
  if bool_decide (length existing ≠ length ids) then
    (Raise (HTTPExc {| status_code := HTTP_404_NOT_FOUND;
        detail := "Alarms not found: " +:+
          Py.repr_list (List.filter (λ aid, negb (Py.mem aid (map A.sn existing))) ids) |}),
     Conn.rollback_world w1)
  else if bool_decide (1 < size (list_to_set (map A.organization existing) : gset string))%nat then
    (Raise (HTTPExc {| status_code := HTTP_400_BAD_REQUEST;
        detail := "All alarms must belong to the same organization" |}),
     Conn.rollback_world w1)
  else if bool_decide (map A.sn (List.filter (λ a, Py.truthy_bool (A.is_handled a)) existing) ≠ []) then
    (Raise (HTTPExc {| status_code := HTTP_400_BAD_REQUEST;
        detail := "Alarms already handled: " +:+
          Py.repr_list (map A.sn (List.filter (λ a, Py.truthy_bool (A.is_handled a)) existing)) |}),
     Conn.rollback_world w1)
  else
    let w2 := (Conn.concurrent_activity env w1).2 in
    let st := foldl (alarm_turn env who why) (0, [], w2) ids in
    (Ok {| AlarmHandleResponse.message := "Alarm handling completed";
           AlarmHandleResponse.handled_count := st.1.1;
           AlarmHandleResponse.failed_count := Z.of_nat (length st.1.2);
           AlarmHandleResponse.failed_alarm_ids := st.1.2;
           AlarmHandleResponse.handle_time :=
             utcnow env (clock (Conn.commit_world st.2)) |},
     Conn.commit_world (tick (Conn.commit_world st.2))).
Proof.
  intros Hs.
  unfold AlarmsBulk.handle_alarms, Conn.reraise_http, Conn.with_conn.
  unfold mbind, M_bind, Db.bind, AlarmsBulk.select_existing, Conn.execute,
    fetched_alarms.
  destruct (status w) eqn:Hst; [| |done];
    (cbn beta iota zeta; cbn [fst snd];
     rewrite !length_map, filter_map_swap, !map_map; cbn [fst snd];
     repeat case_bool_decide; try reflexivity; try (exfalso; auto; fail);
     unfold Conn.concurrent_activity; cbn [snd];
     rewrite handle_loop_run;
     by destruct (foldl _ _ _) as [[n failed] w3]).
Qed.

Lemma transfer_tags_unfold env req w :
  status w ≠ STATUS_INERROR →
  TagsBulk.transfer_tags env req w =
  let ids := TagTransferRequest.tag_ids req in
  let org_id := TagTransferRequest.new_organization_id req in
  let w0 := Conn.sent (SELECT_organization_by_id org_id) (working w) w in
  match Sql.fetchone (map O.organization_name
          (List.filter (λ o, O.id o =? org_id) (Organizations (working w)))) with
  | None =>
      (Raise (HTTPExc {| status_code := HTTP_404_NOT_FOUND;
                         detail := "Target organization not found" |}),
       Conn.rollback_world w0)
  | Some org =>
      let w1 := Conn.sent (SELECT_tags_by_ids ids) (working w) w0 in
      let existing := fetched_tags ids (working w) in
      if bool_decide (length existing ≠ length ids) then
        (Raise (HTTPExc {| status_code := HTTP_404_NOT_FOUND;
            detail := "Tags not found: " +:+
              Py.repr_list (List.filter (λ tid, negb (Py.mem tid (map T.sn existing))) ids) |}),
         Conn.rollback_world w1)
      else
        let w2 := (Conn.concurrent_activity env w1).2 in
        let st := foldl (tag_turn env org) (0, [], w2) ids in
        (Ok {| TagTransferResponse.message := "Tag transfer completed";
               TagTransferResponse.transferred_count := st.1.1;
               TagTransferResponse.failed_count := Z.of_nat (length st.1.2);
               TagTransferResponse.failed_tag_ids := st.1.2;
               TagTransferResponse.transfer_time :=
                 utcnow env (clock (Conn.commit_world st.2)) |},
         Conn.commit_world (tick (Conn.commit_world st.2)))
  end.
Proof.
  intros Hs.
  unfold TagsBulk.transfer_tags, Conn.reraise_http, Conn.with_conn.
  unfold mbind, M_bind, Db.bind, TagsBulk.select_target_org,
    TagsBulk.select_existing, Conn.execute, fetched_tags.
  destruct (status w) eqn:Hst; [| |done];
    (cbn beta iota zeta; cbn [fst snd];
     destruct (Sql.fetchone _) as [org|]; [|reflexivity];
     cbn [working status Conn.sent fst snd];
     rewrite !length_map, !map_map; cbn [fst snd];
     repeat case_bool_decide; try reflexivity; try (exfalso; auto; fail);
     unfold Conn.concurrent_activity; cbn [snd];
     rewrite transfer_loop_run;
     by destruct (foldl _ _ _) as [[n failed] w3]).
Qed.

(** A rejected call leaves both copies of the database as they were. *)
Lemma rollback_after_select (w : World) (ss : list statement) :
  at_rest w →
  let w1 := foldl (λ w s, Conn.sent s (working w) w) w ss in
  ss ≠ [] →
  durable (Conn.rollback_world w1) = durable w ∧
  working (Conn.rollback_world w1) = working w ∧
  status (Conn.rollback_world w1) = STATUS_READY ∧
  log (Conn.rollback_world w1) = log w ++ map Execute ss ++ [Rollback] ∧
  clock (Conn.rollback_world w1) = clock w.
Proof.
  intros [Hs Hw] w1 Hne. subst w1.
  destruct ss as [|s ss]; [done|]. clear Hne. cbn [foldl].
  assert (∀ w0, status w0 = STATUS_BEGIN →
    let w1 := foldl (λ w s, Conn.sent s (working w) w) w0 ss in
    status w1 = STATUS_BEGIN ∧ durable w1 = durable w0 ∧
    working w1 = working w0 ∧ log w1 = log w0 ++ map Execute ss ∧
    clock w1 = clock w0) as Hfold.
  { induction ss as [|s' ss IH]; intros w0 H0; cbn [foldl map].
    - by rewrite app_nil_r.
    - destruct (IH (Conn.sent s' (working w0) w0) eq_refl) as (?&?&?&Hl&?).
      repeat split; try done. rewrite Hl. cbn. by rewrite <- app_assoc. }
  destruct (Hfold (Conn.sent s (working w) w) eq_refl) as (H1&H2&H3&H4&H5).
  unfold Conn.rollback_world. rewrite H1. cbn.
  rewrite H2, H4, H5. cbn.
  repeat split; try done. by rewrite <- !app_assoc.
Qed.

Lemma at_rest_usable (w : World) : at_rest w → status w ≠ STATUS_INERROR.
Proof. intros [H _]. by rewrite H. Qed.

(** The end of a call that went through its loop: the commit of the
    service makes the work of the transaction durable, that of the [with]
    block finds nothing to do. *)
Lemma commit_after_loop (w3 : World) :
  status w3 = STATUS_BEGIN →
  Conn.commit_world (tick (Conn.commit_world w3)) =
  {| durable := working w3; working := working w3; status := STATUS_READY;
     log := log w3 ++ [Commit]; clock := S (clock w3) |}.
Proof. intros H. unfold Conn.commit_world. rewrite H. reflexivity. Qed.

(** When an error has aborted the transaction the commit undoes its
    work. *)
Lemma commit_after_abort (w3 : World) :
  status w3 = STATUS_INERROR →
  Conn.commit_world (tick (Conn.commit_world w3)) =
  {| durable := durable w3; working := durable w3; status := STATUS_READY;
     log := log w3 ++ [Commit]; clock := S (clock w3) |}.
Proof. intros H. unfold Conn.commit_world. rewrite H. reflexivity. Qed.

Lemma commit_clock (w3 : World) :
  status w3 ≠ STATUS_READY → clock (Conn.commit_world w3) = clock w3.
Proof. unfold Conn.commit_world. by destruct (status w3). Qed.

Lemma fetched_alarms_sn ids db :
  map A.sn (fetched_alarms ids db) =
  List.filter (λ s, Py.mem s ids) (map A.sn (Alarms db)).
Proof. unfold fetched_alarms. by rewrite filter_map_swap. Qed.

(** With distinct ids and a key column, the existence check
    [len(existing) != len(ids)] passes exactly when every id has its row. *)
Lemma all_exist_length (ids keys : list Z) :
  NoDup ids → NoDup keys → (∀ id, id ∈ ids → id ∈ keys) →
  length (List.filter (λ s, Py.mem s ids) keys) = length ids.
Proof.
  intros Hids Hkeys Hall.
  apply Permutation_length, NoDup_Permutation; [|done|].
  - apply NoDup_ListNoDup, List.NoDup_filter, NoDup_ListNoDup, Hkeys.
  - intros x. rewrite elem_of_filter, mem_true. naive_solver.
Qed.

Lemma fetched_alarms_all_exist ids db :
  NoDup ids → NoDup (map A.sn (Alarms db)) →
  (∀ id, id ∈ ids → ∃ a, a ∈ Alarms db ∧ A.sn a = id) →
  length (fetched_alarms ids db) = length ids.
Proof.
  intros Hids Hkeys Hall.
  rewrite <- (length_map A.sn), fetched_alarms_sn.
  apply all_exist_length; [done..|].
  intros id Hid. destruct (Hall id Hid) as (a & Ha & <-).
  apply elem_of_map. eauto.
Qed.

Lemma truthy_bool_true (x : option bool) :
  Py.truthy_bool x = true ↔ x = Some true.
Proof. destruct x as [[]|]; cbn; naive_solver. Qed.

(** C1. A bulk-handle request whose targets all exist, and whose fetched
    targets span two organizations or contain an alarm already handled, is
    rejected with HTTP 400 (the Conflict of the error taxonomy): the
    detail is the organization message when organizations are mixed, and
    otherwise names the handled ids; only the SELECT reaches the server,
    the transaction is rolled back, and the database, durable and working
    copy alike, is what it was. *)
Theorem handle_alarms_conflict_rejected env req who w :
  let ids := AlarmHandleRequest.alarm_ids req in
  let targets := fetched_alarms ids (working w) in
  let mixed :=
    ∃ a b, a ∈ targets ∧ b ∈ targets ∧ A.organization a ≠ A.organization b in
  at_rest w →
  NoDup ids →
  NoDup (map A.sn (Alarms (working w))) →
  (∀ id, id ∈ ids → ∃ a, a ∈ Alarms (working w) ∧ A.sn a = id) →
  mixed ∨ (∃ a, a ∈ targets ∧ A.is_handled a = Some true) →
  ∃ msg,
    AlarmsBulk.handle_alarms env req who w =
      (Raise (HTTPExc {| status_code := HTTP_400_BAD_REQUEST; detail := msg |}),
       {| durable := durable w; working := working w; status := STATUS_READY;
          log := log w ++ [Execute (SELECT_alarms_by_ids ids); Rollback];
          clock := clock w |}) ∧
    (mixed → msg = "All alarms must belong to the same organization") ∧
    (¬ mixed → msg = "Alarms already handled: " +:+
       Py.repr_list (map A.sn
         (List.filter (λ a, Py.truthy_bool (A.is_handled a)) targets))).
Proof.
  intros ids targets mixed Hrest Hids Hkeys Hall Hbad.
  pose proof (fetched_alarms_all_exist ids _ Hids Hkeys Hall) as Hlen.
  destruct (rollback_after_select w [SELECT_alarms_by_ids ids] Hrest)
    as (Hd & Hw & Hs & Hl & Hc); [done|]. cbn [foldl map app] in *.
  assert (Conn.rollback_world (Conn.sent (SELECT_alarms_by_ids ids) (working w) w)
          = {| durable := durable w; working := working w; status := STATUS_READY;
               log := log w ++ [Execute (SELECT_alarms_by_ids ids); Rollback];
               clock := clock w |}) as Hworld.
  { destruct (Conn.rollback_world _); cbn in *; by subst. }
  assert (mixed ↔ (1 < size (list_to_set (map A.organization targets) : gset string))%nat)
    as Hmixed.
  { rewrite size_gt_1_iff. unfold mixed. split.
    - intros (a & b & Ha & Hb & Hne).
      exists (A.organization a), (A.organization b).
      rewrite !elem_of_map. naive_solver.
    - intros (x & y & Hx & Hy & Hne).
      apply elem_of_map in Hx as (a & <- & Ha).
      apply elem_of_map in Hy as (b & <- & Hb). eauto. }
  rewrite handle_alarms_unfold by (by apply at_rest_usable). cbn zeta. fold ids. fold targets.
  rewrite bool_decide_eq_false_2 by (intros ?; done).
  case_bool_decide as Hsz.
  - eexists. rewrite Hworld. split; [reflexivity|]. split; [done|].
    intros Hn. by apply Hmixed in Hsz.
  - destruct Hbad as [Hm|(a & Ha & Hh)]; [by apply Hmixed in Hm|].
    rewrite bool_decide_eq_true_2.
    + eexists. rewrite Hworld. split; [reflexivity|]. split; [|done].
      intros Hm. by apply Hmixed in Hm.
    + intros Hnil.
      assert (a ∈ List.filter (λ a, Py.truthy_bool (A.is_handled a)) targets) as Hin
        by (apply elem_of_filter; split; [done|by apply truthy_bool_true]).
      destruct (List.filter _ targets); [by apply not_elem_of_nil in Hin|].
      discriminate.
Qed.
(** The mixed batch [[A(unhandled), B(handled)]]. *)
Lemma handle_alarms_conflict_rejected_witness :
  ∃ msg,
    AlarmsBulk.handle_alarms Sample.quiet (Sample.handle [1; 2]) "admin"
      (Sample.world Sample.db) =
      (Raise (HTTPExc {| status_code := HTTP_400_BAD_REQUEST; detail := msg |}),
       {| durable := Sample.db; working := Sample.db; status := STATUS_READY;
          log := [] ++ [Execute (SELECT_alarms_by_ids [1; 2]); Rollback];
          clock := 0 |}) ∧
    ((∃ a b, a ∈ fetched_alarms [1; 2] Sample.db ∧
             b ∈ fetched_alarms [1; 2] Sample.db ∧
             A.organization a ≠ A.organization b) →
     msg = "All alarms must belong to the same organization") ∧
    (¬ (∃ a b, a ∈ fetched_alarms [1; 2] Sample.db ∧
               b ∈ fetched_alarms [1; 2] Sample.db ∧
               A.organization a ≠ A.organization b) →
     msg = "Alarms already handled: " +:+
       Py.repr_list (map A.sn
         (List.filter (λ a, Py.truthy_bool (A.is_handled a))
            (fetched_alarms [1; 2] Sample.db)))).
Proof.
  apply (handle_alarms_conflict_rejected Sample.quiet (Sample.handle [1; 2])
           "admin" (Sample.world Sample.db)).
  - split; reflexivity.
  - apply (bool_decide_unpack _). vm_compute. exact I.
  - apply (bool_decide_unpack _). vm_compute. exact I.
  - intros id Hid. apply list_elem_of_In in Hid. simpl in Hid.
    destruct Hid as [<-|[<-|[]]];
      [exists (Sample.alarm 1 "acme" "111" 10 (Some false))
      |exists (Sample.alarm 2 "acme" "222" 20 (Some true))];
      (split; [in_list|reflexivity]).
  - right. exists (Sample.alarm 2 "acme" "222" 20 (Some true)).
    split; [in_list|reflexivity].
Defined.

Lemma fetched_tags_sn ids db :
  map T.sn (fetched_tags ids db) =
  List.filter (λ s, Py.mem s ids) (map T.sn (Tags db)).
Proof. unfold fetched_tags. by rewrite filter_map_swap. Qed.

(** The ids that the NotFound message lists are the requested ids for
    which the table has no row. *)
Lemma missing_ids_spec (ids keys : list Z) (id : Z) :
  id ∈ List.filter (λ x, negb (Py.mem x (List.filter (λ s, Py.mem s ids) keys))) ids
  ↔ id ∈ ids ∧ id ∉ keys.
Proof.
  rewrite elem_of_filter, negb_true_iff, mem_false, elem_of_filter, mem_true.
  naive_solver.
Qed.

(** C2. In both bulk services the existence phase is one SELECT by the
    list of ids.  When it returns fewer rows than ids were requested, the
    call fails with HTTP 404 whose detail lists the requested ids that no
    row carries, and nothing but the SELECT (after the lookup of the
    destination organization, for tags) reaches the server: no UPDATE is
    sent, the transaction is rolled back, the database is what it was. *)
Theorem bulk_missing_targets_not_found env areq who treq w :
  let aids := AlarmHandleRequest.alarm_ids areq in
  let tids := TagTransferRequest.tag_ids treq in
  let org_id := TagTransferRequest.new_organization_id treq in
  at_rest w →
  ((length (fetched_alarms aids (working w)) < length aids)%nat →
   ∃ missing,
     (∀ id, id ∈ missing ↔
        id ∈ aids ∧ ¬ ∃ a, a ∈ Alarms (working w) ∧ A.sn a = id) ∧
     rejected_unchanged HTTP_404_NOT_FOUND
       ("Alarms not found: " +:+ Py.repr_list missing)
       [SELECT_alarms_by_ids aids] w
       (AlarmsBulk.handle_alarms env areq who w)) ∧
  ((∃ o, o ∈ Organizations (working w) ∧ O.id o = org_id) →
   (length (fetched_tags tids (working w)) < length tids)%nat →
   ∃ missing,
     (∀ id, id ∈ missing ↔
        id ∈ tids ∧ ¬ ∃ t, t ∈ Tags (working w) ∧ T.sn t = id) ∧
     rejected_unchanged HTTP_404_NOT_FOUND
       ("Tags not found: " +:+ Py.repr_list missing)
       [SELECT_organization_by_id org_id; SELECT_tags_by_ids tids] w
       (TagsBulk.transfer_tags env treq w)).
Proof.
  intros aids tids org_id Hrest. split.
  - intros Hlt.
    exists (List.filter
      (λ aid, negb (Py.mem aid (map A.sn (fetched_alarms aids (working w))))) aids).
    split.
    + intros id. rewrite fetched_alarms_sn, missing_ids_spec.
      rewrite elem_of_map. naive_solver.
    + unfold rejected_unchanged.
      rewrite handle_alarms_unfold by (by apply at_rest_usable). cbn zeta. fold aids.
      rewrite bool_decide_eq_true_2 by lia.
      destruct (rollback_after_select w [SELECT_alarms_by_ids aids] Hrest)
        as (Hd & Hw & Hs & Hl & Hc); [done|]. cbn [foldl] in *.
      f_equal. destruct (Conn.rollback_world _); cbn in *; by subst.
  - intros (o & Ho & Hid) Hlt.
    exists (List.filter
      (λ tid, negb (Py.mem tid (map T.sn (fetched_tags tids (working w))))) tids).
    split.
    + intros id. rewrite fetched_tags_sn, missing_ids_spec.
      rewrite elem_of_map. naive_solver.
    + unfold rejected_unchanged.
      rewrite transfer_tags_unfold by (by apply at_rest_usable). cbn zeta. fold tids. fold org_id.
      assert (o ∈ List.filter (λ o, O.id o =? org_id) (Organizations (working w)))
        as Hin by (apply elem_of_filter; split; [done|lia]).
      destruct (List.filter _ (Organizations (working w))) as [|o' os];
        [by apply not_elem_of_nil in Hin|].
      cbn [map Sql.fetchone head].
      rewrite bool_decide_eq_true_2 by lia.
      destruct (rollback_after_select w
        [SELECT_organization_by_id org_id; SELECT_tags_by_ids tids] Hrest)
        as (Hd & Hw & Hs & Hl & Hc); [done|]. cbn [foldl] in *.
      cbn [working Conn.sent] in *.
      f_equal. destruct (Conn.rollback_world _); cbn in *; by subst.
Qed.

Lemma bulk_missing_targets_not_found_witness :
  (∃ missing,
     (∀ id, id ∈ missing ↔
        id ∈ [1; 7; 8] ∧ ¬ ∃ a, a ∈ Alarms Sample.db ∧ A.sn a = id) ∧
     rejected_unchanged HTTP_404_NOT_FOUND
       ("Alarms not found: " +:+ Py.repr_list missing)
       [SELECT_alarms_by_ids [1; 7; 8]] (Sample.world Sample.db)
       (AlarmsBulk.handle_alarms Sample.quiet (Sample.handle [1; 7; 8]) "admin"
          (Sample.world Sample.db))) ∧
  (∃ missing,
     (∀ id, id ∈ missing ↔
        id ∈ [9; 2] ∧ ¬ ∃ t, t ∈ Tags Sample.db ∧ T.sn t = id) ∧
     rejected_unchanged HTTP_404_NOT_FOUND
       ("Tags not found: " +:+ Py.repr_list missing)
       [SELECT_organization_by_id 2; SELECT_tags_by_ids [9; 2]]
       (Sample.world Sample.db)
       (TagsBulk.transfer_tags Sample.quiet (Sample.transfer [9; 2] 2)
          (Sample.world Sample.db))).
Proof.
  destruct (bulk_missing_targets_not_found Sample.quiet
              (Sample.handle [1; 7; 8]) "admin" (Sample.transfer [9; 2] 2)
              (Sample.world Sample.db)) as [Ha Ht].
  - split; reflexivity.
  - split.
    + apply Ha. vm_compute. lia.
    + apply Ht.
      * exists (Sample.org 2 "beta"). split; [in_list|reflexivity].
      * vm_compute. lia.
Defined.

Example handle_alarms_missing_ex :
  (AlarmsBulk.handle_alarms Sample.quiet (Sample.handle [1; 7; 8]) "admin"
     (Sample.world Sample.db)).1
  = Raise (HTTPExc {| status_code := 404; detail := "Alarms not found: [7, 8]" |}).
Proof. vm_compute. reflexivity. Qed.

Example handle_alarms_mixed_batch_ex :
  let out := AlarmsBulk.handle_alarms Sample.quiet (Sample.handle [1; 2]) "admin"
               (Sample.world Sample.db) in
  out.1 = Raise (HTTPExc {| status_code := 400;
                            detail := "Alarms already handled: [2]" |}) ∧
  map (λ a, (A.sn a, A.is_handled a)) (Alarms (durable out.2))
  = [(1, Some false); (2, Some true); (3, None); (4, None); (5, Some false)].
Proof. vm_compute. split; reflexivity. Qed.

Example handle_alarms_two_orgs_ex :
  (AlarmsBulk.handle_alarms Sample.quiet (Sample.handle [1; 3]) "admin"
     (Sample.world Sample.db)).1
  = Raise (HTTPExc {| status_code := 400;
        detail := "All alarms must belong to the same organization" |}).
Proof. vm_compute. reflexivity. Qed.

(** * The loop phase of the bulk services: with and without an error *)

(** A key column selects at most the row that carries the key. *)
Lemma filter_key_unique {X} (key : X → Z) (l : list X) (x : X) :
  NoDup (map key l) → x ∈ l →
  List.filter (λ y, key y =? key x) l = [x].
Proof.
  induction l as [|y l IH]; intros Hnd Hin; [by apply not_elem_of_nil in Hin|].
  cbn [map] in Hnd. apply NoDup_cons in Hnd as [Hy Hnd].
  cbn [List.filter]. apply elem_of_cons in Hin as [->|Hin].
  - rewrite Z.eqb_refl. f_equal. apply filter_all_false.
    intros z Hz. apply Z.eqb_neq. intros E. apply Hy. rewrite <- E.
    apply elem_of_map. eauto.
  - destruct (Z.eqb_spec (key y) (key x)) as [E|_]; [|by apply IH].
    exfalso. apply Hy. rewrite E. apply elem_of_map. eauto.
Qed.

(** The checks of [handle_alarms] let the request through. *)
Lemma handle_alarms_checks_pass env req who w :
  let ids := AlarmHandleRequest.alarm_ids req in
  let why := AlarmHandleRequest.reason req in
  let targets := fetched_alarms ids (working w) in
  status w ≠ STATUS_INERROR →
  length targets = length ids →
  (∀ a b, a ∈ targets → b ∈ targets → A.organization a = A.organization b) →
  (∀ a, a ∈ targets → A.is_handled a ≠ Some true) →
  AlarmsBulk.handle_alarms env req who w =
  let w2 := (Conn.concurrent_activity env
               (Conn.sent (SELECT_alarms_by_ids ids) (working w) w)).2 in
  let st := foldl (alarm_turn env who why) (0, [], w2) ids in
  (Ok {| AlarmHandleResponse.message := "Alarm handling completed";
         AlarmHandleResponse.handled_count := st.1.1;
         AlarmHandleResponse.failed_count := Z.of_nat (length st.1.2);
         AlarmHandleResponse.failed_alarm_ids := st.1.2;
         AlarmHandleResponse.handle_time :=
           utcnow env (clock (Conn.commit_world st.2)) |},
   Conn.commit_world (tick (Conn.commit_world st.2))).
Proof.
  intros ids why targets Hs Hlen Horg Hnone.
  rewrite handle_alarms_unfold by done. cbn zeta.
  fold ids. fold why. fold targets.
  rewrite bool_decide_eq_false_2 by (intros ?; done).
  rewrite bool_decide_eq_false_2.
  2:{ rewrite size_gt_1_iff. intros (x & y & Hx & Hy & Hne).
      apply elem_of_map in Hx as (a & <- & Ha).
      apply elem_of_map in Hy as (b & <- & Hb).
      apply Hne. by apply Horg. }
  rewrite (filter_all_false _ targets).
  2:{ intros a Ha. apply not_true_iff_false. rewrite truthy_bool_true.
      by apply Hnone. }
  cbn [map]. by rewrite bool_decide_eq_false_2 by (intros ?; done).
Qed.

(** The lookup and the check of [transfer_tags] let the request through. *)
Lemma transfer_tags_checks_pass env req w o :
  let ids := TagTransferRequest.tag_ids req in
  status w ≠ STATUS_INERROR →
  NoDup (map O.id (Organizations (working w))) →
  o ∈ Organizations (working w) →
  O.id o = TagTransferRequest.new_organization_id req →
  length (fetched_tags ids (working w)) = length ids →
  TagsBulk.transfer_tags env req w =
  let w2 := (Conn.concurrent_activity env
               (Conn.sent (SELECT_tags_by_ids ids) (working w)
                  (Conn.sent (SELECT_organization_by_id (O.id o)) (working w) w))).2 in
  let st := foldl (tag_turn env (O.organization_name o)) (0, [], w2) ids in
  (Ok {| TagTransferResponse.message := "Tag transfer completed";
         TagTransferResponse.transferred_count := st.1.1;
         TagTransferResponse.failed_count := Z.of_nat (length st.1.2);
         TagTransferResponse.failed_tag_ids := st.1.2;
         TagTransferResponse.transfer_time :=
           utcnow env (clock (Conn.commit_world st.2)) |},
   Conn.commit_world (tick (Conn.commit_world st.2))).
Proof.
  intros ids Hs Hnd Ho Hid Hlen.
  rewrite transfer_tags_unfold by done. cbn zeta. fold ids. rewrite <- Hid.
  rewrite (filter_key_unique O.id _ o Hnd Ho).
  cbn [map Sql.fetchone head].
  by rewrite bool_decide_eq_false_2 by (intros ?; done).
Qed.

(** The loop over [pre ++ x :: post] when the server raises on [x] and on
    no target before it. *)
Lemma alarm_fold_error env who why pre x post w :
  status w = STATUS_BEGIN → no_failure env pre → execute_raises env x = true →
  let rows := Alarms (working w) in
  let st := foldl (alarm_turn env who why) (0, [], w) (pre ++ x :: post) in
  st.1 = (Z.of_nat (length (List.filter (λ id, negb (alarm_gone rows id)) pre)),
          List.filter (alarm_gone rows) pre ++ x :: post) ∧
  status st.2 = STATUS_INERROR.
Proof.
  intros Hs Hpre Hx. cbv zeta. rewrite foldl_app. cbn [foldl].
  destruct (alarm_fold_clean env who why pre (0, []) w) as (H1 & H2 & _);
    [by rewrite Hs|done|].
  cbn zeta in H1, H2. cbn [fst snd] in H1. rewrite Z.add_0_l, app_nil_l in H1.
  specialize (H2 (or_intror Hs)).
  destruct (foldl (alarm_turn env who why) (0, [], w) pre) as [[n failed] w3].
  cbn [fst snd] in H1, H2. injection H1 as Hn Hf.
  assert (alarm_turn env who why (n, failed, w3) x
          = (n, failed ++ [x], alarm_step env who why x w3)) as ->.
  { unfold alarm_turn, alarm_fails. cbn [fst snd]. by rewrite H2, Hx. }
  destruct (alarm_step_refused env who why x w3 (or_intror Hx)) as [Hs3 _].
  destruct (alarm_fold_refused env who why post (n, failed ++ [x])
              (alarm_step env who why x w3) Hs3) as (-> & -> & _).
  cbn [fst snd]. by rewrite <- app_assoc, Hn, Hf.
Qed.

Lemma tag_fold_error env org pre x post w :
  status w = STATUS_BEGIN → no_failure env pre → execute_raises env x = true →
  let rows := Tags (working w) in
  let st := foldl (tag_turn env org) (0, [], w) (pre ++ x :: post) in
  st.1 = (Z.of_nat (length (List.filter (λ id, negb (tag_gone rows id)) pre)),
          List.filter (tag_gone rows) pre ++ x :: post) ∧
  status st.2 = STATUS_INERROR.
Proof.
  intros Hs Hpre Hx. cbv zeta. rewrite foldl_app. cbn [foldl].
  destruct (tag_fold_clean env org pre (0, []) w) as (H1 & H2 & _);
    [by rewrite Hs|done|].
  cbn zeta in H1, H2. cbn [fst snd] in H1. rewrite Z.add_0_l, app_nil_l in H1.
  specialize (H2 (or_intror Hs)).
  destruct (foldl (tag_turn env org) (0, [], w) pre) as [[n failed] w3].
  cbn [fst snd] in H1, H2. injection H1 as Hn Hf.
  assert (tag_turn env org (n, failed, w3) x
          = (n, failed ++ [x], tag_step env org x w3)) as ->.
  { unfold tag_turn, tag_fails. cbn [fst snd]. by rewrite H2, Hx. }
  destruct (tag_step_refused env org x w3 (or_intror Hx)) as [Hs3 _].
  destruct (tag_fold_refused env org post (n, failed ++ [x])
              (tag_step env org x w3) Hs3) as (-> & -> & _).
  cbn [fst snd]. by rewrite <- app_assoc, Hn, Hf.
Qed.

(** C3. A bulk call that passes the existence and invariant checks sends
    one UPDATE per requested id and one COMMIT, and answers with counts,
    failed ids and time.  But an UPDATE on which the server raises is not
    confined to its target: the targets before it are counted as handled
    (or transferred) when they have a row, the target itself and every
    target after it are listed as failed, and the commit stores nothing,
    so that the database is what the other sessions made of it and the
    counted targets are unchanged. *)
Theorem bulk_update_error_voids_batch env areq who treq w
    (pre post tpre tpost : list Z) (x tx : Z) :
  let why := AlarmHandleRequest.reason areq in
  let org_id := TagTransferRequest.new_organization_id treq in
  at_rest w →
  (let aids := AlarmHandleRequest.alarm_ids areq in
   let targets := fetched_alarms aids (working w) in
   let rows := Alarms (interfere env (working w)) in
   let failed := List.filter (alarm_gone rows) pre ++ x :: post in
   aids = pre ++ x :: post →
   no_failure env pre → execute_raises env x = true →
   length targets = length aids →
   (∀ a b, a ∈ targets → b ∈ targets → A.organization a = A.organization b) →
   (∀ a, a ∈ targets → A.is_handled a ≠ Some true) →
   ∃ w',
     AlarmsBulk.handle_alarms env areq who w =
       (Ok {| AlarmHandleResponse.message := "Alarm handling completed";
              AlarmHandleResponse.handled_count :=
                Z.of_nat (length
                  (List.filter (λ id, negb (alarm_gone rows id)) pre));
              AlarmHandleResponse.failed_count := Z.of_nat (length failed);
              AlarmHandleResponse.failed_alarm_ids := failed;
              AlarmHandleResponse.handle_time :=
                utcnow env (clock w + length aids) |}, w') ∧
     log w' = log w ++ [Execute (SELECT_alarms_by_ids aids)]
                ++ alarm_updates env who why (clock w) aids ++ [Commit] ∧
     at_rest w' ∧
     durable w' = interfere env (durable w)) ∧
  (∀ o,
   let tids := TagTransferRequest.tag_ids treq in
   let rows := Tags (interfere env (working w)) in
   let failed := List.filter (tag_gone rows) tpre ++ tx :: tpost in
   tids = tpre ++ tx :: tpost →
   no_failure env tpre → execute_raises env tx = true →
   NoDup (map O.id (Organizations (working w))) →
   o ∈ Organizations (working w) → O.id o = org_id →
   length (fetched_tags tids (working w)) = length tids →
   ∃ w',
     TagsBulk.transfer_tags env treq w =
       (Ok {| TagTransferResponse.message := "Tag transfer completed";
              TagTransferResponse.transferred_count :=
                Z.of_nat (length
                  (List.filter (λ id, negb (tag_gone rows id)) tpre));
              TagTransferResponse.failed_count := Z.of_nat (length failed);
              TagTransferResponse.failed_tag_ids := failed;
              TagTransferResponse.transfer_time := utcnow env (clock w) |}, w') ∧
     log w' = log w ++ [Execute (SELECT_organization_by_id org_id);
                        Execute (SELECT_tags_by_ids tids)]
                ++ map (λ id, Execute (UPDATE_tag (O.organization_name o) id)) tids
                ++ [Commit] ∧
     at_rest w' ∧
     durable w' = interfere env (durable w)).
Proof.
  intros why org_id Hrest.
  pose proof (at_rest_usable w Hrest) as Hs. split.
  - intros aids targets rows failed Hids Hpre Hx Hlen Horg Hnone.
    rewrite handle_alarms_checks_pass by done. cbn zeta. fold aids. fold why.
    set (w2 := (Conn.concurrent_activity env _).2).
    destruct (alarm_fold_error env who why pre x post w2 eq_refl Hpre Hx)
      as [Hst Hst2]. cbn zeta in Hst, Hst2. rewrite <- Hids in Hst, Hst2.
    pose proof (alarm_turn_world env who why aids (0, []) w2) as Hw.
    destruct (alarm_fold_facts env who why aids w2) as (Hd & Hc & Hl & _).
    rewrite <- Hw in Hd, Hc, Hl.
    rewrite commit_after_abort by done.
    rewrite commit_clock by (by rewrite Hst2).
    rewrite Hst, Hc. cbn [fst snd].
    eexists. split; [reflexivity|].
    cbn [log status durable working]. rewrite Hl, Hd.
    subst w2. cbn [Conn.concurrent_activity snd log clock durable Conn.sent].
    rewrite <- !app_assoc. repeat split.
  - intros o tids rows failed Hids Hpre Hx Hnd Ho Hid Hlen.
    rewrite (transfer_tags_checks_pass env treq w o) by done.
    cbn zeta. fold tids. rewrite Hid. fold org_id.
    set (w2 := (Conn.concurrent_activity env _).2).
    destruct (tag_fold_error env (O.organization_name o) tpre tx tpost w2
                eq_refl Hpre Hx) as [Hst Hst2].
    cbn zeta in Hst, Hst2. rewrite <- Hids in Hst, Hst2.
    pose proof (tag_turn_world env (O.organization_name o) tids (0, []) w2) as Hw.
    destruct (tag_fold_facts env (O.organization_name o) tids w2)
      as (Hd & Hc & Hl & _).
    rewrite <- Hw in Hd, Hc, Hl.
    rewrite commit_after_abort by done.
    rewrite commit_clock by (by rewrite Hst2).
    rewrite Hst, Hc. cbn [fst snd].
    eexists. split; [reflexivity|].
    cbn [log status durable working]. rewrite Hl, Hd.
    subst w2. cbn [Conn.concurrent_activity snd log clock durable Conn.sent].
    rewrite <- !app_assoc. repeat split.
Qed.

Lemma Forall_pairs {X} (P : X → X → Prop) (l : list X) :
  Forall (λ a, Forall (P a) l) l → ∀ a b, a ∈ l → b ∈ l → P a b.
Proof.
  intros H a b Ha Hb. rewrite Forall_forall in H.
  specialize (H a Ha). rewrite Forall_forall in H. by apply H.
Qed.

(** The server raises on alarm 4 of [[1; 4; 5]] and on tag 2 of
    [[1; 2; 3]]: each answer counts the first target as done, lists the
    two others as failed, and nothing is stored. *)
Lemma bulk_update_error_voids_batch_witness :
  (∃ w',
     AlarmsBulk.handle_alarms (Sample.stumble [2; 4]) (Sample.handle [1; 4; 5])
       "admin" (Sample.world Sample.db) =
       (Ok {| AlarmHandleResponse.message := "Alarm handling completed";
              AlarmHandleResponse.handled_count := 1;
              AlarmHandleResponse.failed_count := 2;
              AlarmHandleResponse.failed_alarm_ids := [4; 5];
              AlarmHandleResponse.handle_time := 1003 |}, w') ∧
     log w' = [Execute (SELECT_alarms_by_ids [1; 4; 5]);
               Execute (UPDATE_alarm "admin" 1000 (Some "checked") 1);
               Execute (UPDATE_alarm "admin" 1001 (Some "checked") 4);
               Execute (UPDATE_alarm "admin" 1002 (Some "checked") 5);
               Commit] ∧
     at_rest w' ∧
     durable w' = Sample.db) ∧
  (∃ w',
     TagsBulk.transfer_tags (Sample.stumble [2; 4]) (Sample.transfer [1; 2; 3] 2)
       (Sample.world Sample.db) =
       (Ok {| TagTransferResponse.message := "Tag transfer completed";
              TagTransferResponse.transferred_count := 1;
              TagTransferResponse.failed_count := 2;
              TagTransferResponse.failed_tag_ids := [2; 3];
              TagTransferResponse.transfer_time := 1000 |}, w') ∧
     log w' = [Execute (SELECT_organization_by_id 2);
               Execute (SELECT_tags_by_ids [1; 2; 3]);
               Execute (UPDATE_tag "beta" 1);
               Execute (UPDATE_tag "beta" 2);
               Execute (UPDATE_tag "beta" 3);
               Commit] ∧
     at_rest w' ∧
     durable w' = Sample.db).
Proof.
  destruct (bulk_update_error_voids_batch (Sample.stumble [2; 4])
              (Sample.handle [1; 4; 5]) "admin" (Sample.transfer [1; 2; 3] 2)
              (Sample.world Sample.db) [1] [5] [1] [3] 4 2)
    as [Ha Ht]; [split; reflexivity|].
  split.
  - apply Ha.
    + reflexivity.
    + intros id Hid. apply list_elem_of_In in Hid. simpl in Hid.
      destruct Hid as [<-|[]]. reflexivity.
    + reflexivity.
    + vm_compute. reflexivity.
    + apply Forall_pairs, (bool_decide_unpack _). vm_compute. exact I.
    + apply Forall_forall, (bool_decide_unpack _). vm_compute. exact I.
  - apply (Ht (Sample.org 2 "beta")).
    + reflexivity.
    + intros id Hid. apply list_elem_of_In in Hid. simpl in Hid.
      destruct Hid as [<-|[]]. reflexivity.
    + reflexivity.
    + apply (bool_decide_unpack _). vm_compute. exact I.
    + in_list.
    + reflexivity.
    + vm_compute. reflexivity.
Defined.

(** The call on alarms, with what it leaves in the table: alarm 1 is
    counted as handled and is not. *)
Example handle_alarms_lost_update_ex :
  let out := AlarmsBulk.handle_alarms (Sample.stumble [4]) (Sample.handle [1; 4; 5])
               "admin" (Sample.world Sample.db) in
  out.1 = Ok {| AlarmHandleResponse.message := "Alarm handling completed";
                AlarmHandleResponse.handled_count := 1;
                AlarmHandleResponse.failed_count := 2;
                AlarmHandleResponse.failed_alarm_ids := [4; 5];
                AlarmHandleResponse.handle_time := 1003 |} ∧
  map (λ a, (A.sn a, A.is_handled a, A.handled_by a)) (Alarms (durable out.2))
  = [(1, Some false, None); (2, Some true, None); (3, None, None);
     (4, None, None); (5, Some false, None)].
Proof. vm_compute. split; reflexivity. Qed.

(** The same request when another session has deleted alarm 1 in the
    meantime: no target is handled. *)
Example handle_alarms_rough_ex :
  let out := AlarmsBulk.handle_alarms Sample.rough (Sample.handle [1; 4; 5])
               "admin" (Sample.world Sample.db) in
  out.1 = Ok {| AlarmHandleResponse.message := "Alarm handling completed";
                AlarmHandleResponse.handled_count := 0;
                AlarmHandleResponse.failed_count := 3;
                AlarmHandleResponse.failed_alarm_ids := [1; 4; 5];
                AlarmHandleResponse.handle_time := 1003 |} ∧
  map (λ a, (A.sn a, A.is_handled a, A.handled_by a)) (Alarms (durable out.2))
  = [(2, Some true, None); (3, None, None); (4, None, None);
     (5, Some false, None)].
Proof. vm_compute. split; reflexivity. Qed.

(** * The connection scope *)

Lemma getconn_putconn net pl c pl' :
  Connection.getconn net pl = (Ok c, pl') →
  ∃ pl'',
    Connection.putconn c pl' = (Ok tt, pl'') ∧
    Connection.n_getconn pl'' = S (Connection.n_getconn pl) ∧
    Connection.n_putconn pl'' = S (Connection.n_putconn pl) ∧
    Connection.used pl'' = Connection.used pl.
Proof.
  unfold Connection.getconn.
  destruct (rev (Connection.idle pl)) as [|c0 rest].
  - case_bool_decide; [done|].
    destruct (Connection.pool_reachable net); [|done].
    intros [= <- <-]. unfold Connection.putconn. cbn.
    rewrite bool_decide_eq_true_2 by constructor.
    case_bool_decide; eexists; (split; [reflexivity|]); cbn;
      by rewrite bool_decide_eq_true_2.
  - intros [= <- <-]. unfold Connection.putconn. cbn.
    rewrite bool_decide_eq_true_2 by constructor.
    case_bool_decide; eexists; (split; [reflexivity|]); cbn;
      by rewrite bool_decide_eq_true_2.
Qed.

Lemma getconn_raise net pl e pl' :
  Connection.getconn net pl = (Raise e, pl') → pl' = pl.
Proof.
  unfold Connection.getconn.
  destruct (rev (Connection.idle pl)); [|done].
  case_bool_decide; [by intros [= _ <-]|].
  destruct (Connection.pool_reachable net); [done|by intros [= _ <-]].
Qed.

(** One call: whatever the body does, the pool has taken back as many
    connections as it has handed out, and none stays in use. *)
Lemma scope_balanced net reraise msg body p :
  let p' := (Connection.scope net reraise msg body p).2 in
  (Connection.acquired p' + Connection.released p
   = Connection.acquired p + Connection.released p')%nat ∧
  Connection.in_use p' = Connection.in_use p.
Proof.
  assert (∀ r g p1, Connection.next net Connection.get_conn p = (r, g, p1) →
    let p2 := Connection.gen_close g p1 in
    (Connection.acquired p2 + Connection.released p
     = Connection.acquired p + Connection.released p2)%nat ∧
    Connection.in_use p2 = Connection.in_use p) as Hgen.
  { intros r g p1. unfold Connection.next, Connection.get_conn, Connection.get_pool.
    destruct (Connection._pool p) as [pl|] eqn:Hpool.
    - destruct (Connection.getconn net pl) as [[c|e] pl'] eqn:Hget.
      + intros [= <- <- <-].
        destruct (getconn_putconn _ _ _ _ Hget) as (pl'' & Hput & Hg & Hp & Hu).
        unfold Connection.gen_close, Connection.set_pool,
          Connection.acquired, Connection.released, Connection.in_use.
        cbn. rewrite Hput, Hpool. cbn. rewrite Hg, Hp, Hu. split; [lia|done].
      + intros [= <- <- <-]. apply getconn_raise in Hget as ->.
        unfold Connection.gen_close, Connection.set_pool,
          Connection.acquired, Connection.released, Connection.in_use.
        cbn. rewrite Hpool. done.
    - destruct (Connection.pool_reachable net) eqn:Hreach.
      + destruct (Connection.getconn net Connection.new_pool)
          as [[c|e] pl'] eqn:Hget.
        * intros [= <- <- <-].
          destruct (getconn_putconn _ _ _ _ Hget) as (pl'' & Hput & Hg & Hp & Hu).
          unfold Connection.gen_close, Connection.set_pool,
            Connection.acquired, Connection.released, Connection.in_use.
          cbn. rewrite Hput, Hpool. cbn. rewrite Hg, Hp, Hu. cbn. split; [lia|done].
        * intros [= <- <- <-]. apply getconn_raise in Hget as ->.
          unfold Connection.gen_close, Connection.set_pool,
            Connection.acquired, Connection.released, Connection.in_use.
          cbn. rewrite Hpool. done.
      + destruct (Connection.direct_reachable net); intros [= <- <- <-];
          unfold Connection.gen_close, Connection.acquired,
            Connection.released, Connection.in_use; cbn; by rewrite Hpool. }
  unfold Connection.scope.
  destruct (Connection.next net Connection.get_conn p) as [[r g] p1] eqn:E.
  specialize (Hgen r g p1 eq_refl). cbn zeta in Hgen.
  destruct r as [conn|e]; [destruct (body conn)|]; exact Hgen.
Qed.

(** C9. In any run of service calls from the start of the process, each
    with its own network conditions and its own way of leaving the body
    (return, HTTPException, any other exception), every connection that
    the pool handed out has been put back: the two counts are equal and no
    connection is left in use.  The [finally] of [get_conn] runs when the
    generator made by [next(get_conn())] is finalized, which is as soon as
    [next] has returned. *)
Theorem connection_released_on_every_exit (ops : list operation) :
  Connection.acquired (run_operations ops)
    = Connection.released (run_operations ops) ∧
  Connection.in_use (run_operations ops) = [].
Proof.
  unfold run_operations.
  assert (∀ p, Connection.acquired p = Connection.released p →
               Connection.in_use p = [] →
    Connection.acquired (foldl run_operation p ops)
      = Connection.released (foldl run_operation p ops) ∧
    Connection.in_use (foldl run_operation p ops) = []) as H.
  { induction ops as [|op ops IH]; intros p Hbal Huse; [done|].
    cbn [foldl]. unfold run_operation at 2 4 6.
    destruct (scope_balanced (op_net op) (op_reraise op) (op_message op)
                (op_body op) p) as [Hb Hu].
    apply IH; [lia|congruence]. }
  by apply H.
Qed.

Example scope_exits_ex :
  let net := {| Connection.pool_reachable := true;
                Connection.direct_reachable := true |} in
  let run body := Connection.scope net true "Failed to handle alarms" body
                    initial_process in
  let pool out :=
    match Connection._pool (out : Connection.body_exit * Connection.Process).2 with
    | Some pl => (Connection.idle pl, Connection.used pl,
                  Connection.n_getconn pl, Connection.n_putconn pl)
    | None => ([], [], 0, 0)%nat
    end in
  pool (run (λ _, Connection.returns)) = ([0], [], 1, 1)%nat ∧
  pool (run (λ _, Connection.raises_http
                    {| status_code := 400; detail := "conflict" |}))
    = ([0], [], 1, 1)%nat ∧
  pool (run (λ _, Connection.raises_other "boom")) = ([0], [], 1, 1)%nat ∧
  (run (λ _, Connection.raises_other "boom")).1
    = Connection.raises_http {| status_code := 500;
                                detail := "Failed to handle alarms" |}.
Proof. vm_compute. repeat split. Qed.

(** * Input validation *)

(** The part of C4 that holds: the alarm validator refuses an empty
    list, more than 100 ids and a repeated id, and the tag validator an
    empty list and more than 100 ids; the endpoint then raises before any
    statement is sent, and the world is untouched. *)
Lemma bulk_input_validation env (ids : list Z) why who org_id w :
  (ids = [] ∨ (100 < length ids)%nat ∨ ¬ NoDup ids →
   ∃ msg,
     Validators.validate_alarm_ids ids = Raise (ValueError msg) ∧
     AlarmsBulk.handle_alarms_bulk env ids why who w = (Raise (ValueError msg), w)) ∧
  (ids = [] ∨ (100 < length ids)%nat →
   ∃ msg,
     Validators.validate_tag_ids ids = Raise (ValueError msg) ∧
     TagsBulk.transfer_tags_bulk env ids org_id why w = (Raise (ValueError msg), w)).
Proof.
  split.
  - intros H. unfold AlarmsBulk.handle_alarms_bulk, AlarmHandleRequest.parse,
      Validators.validate_alarm_ids.
    repeat case_bool_decide; try (eexists; split; reflexivity).
    exfalso. destruct H as [?|[?|Hdup]]; [done|lia|].
    apply Hdup, size_list_to_set_NoDup.
    destruct (decide (size (list_to_set ids : gset Z) = length ids)); done.
  - intros H. unfold TagsBulk.transfer_tags_bulk, TagTransferRequest.parse,
      Validators.validate_tag_ids.
    repeat case_bool_decide; try (eexists; split; reflexivity).
    exfalso. destruct H as [?|?]; [done|lia].
Qed.

(** C4, where the code departs from it: the tag validator lets a repeated
    id through.  The request [[1, 1]] is parsed, the service runs its two
    SELECTs, and the rejection comes from the existence check, as a 404
    that names no id; the same list is refused by the alarm validator
    before anything is sent. *)
Theorem tag_transfer_accepts_duplicate_ids :
  Validators.validate_tag_ids [1; 1] = Ok [1; 1] ∧
  TagsBulk.transfer_tags_bulk Sample.quiet [1; 1] 2 None (Sample.world Sample.db)
    = (Raise (HTTPExc {| status_code := 404; detail := "Tags not found: []" |}),
       {| durable := Sample.db; working := Sample.db; status := STATUS_READY;
          log := [Execute (SELECT_organization_by_id 2);
                  Execute (SELECT_tags_by_ids [1; 1]); Rollback];
          clock := 0 |}) ∧
  AlarmsBulk.handle_alarms_bulk Sample.quiet [1; 1] None "admin"
      (Sample.world Sample.db)
    = (Raise (ValueError "Duplicate alarm IDs are not allowed"),
       Sample.world Sample.db).
Proof. vm_compute. repeat split. Qed.

(** * Facts about the relational operators *)

Section SqlFacts.
Context {X Y : Type}.

Lemma insert_by_Permutation (before : X → X → bool) (x : X) (l : list X) :
  Sql.insert_by before x l ≡ₚ x :: l.
Proof.
  induction l as [|y l IH]; cbn [Sql.insert_by]; [done|].
  destruct (before x y); [done|].
  rewrite IH. apply Permutation_swap.
Qed.

Lemma sort_by_Permutation (before : X → X → bool) (l : list X) :
  Sql.sort_by before l ≡ₚ l.
Proof.
  unfold Sql.sort_by. induction l as [|x l IH]; cbn [foldr]; [done|].
  by rewrite insert_by_Permutation, IH.
Qed.


Lemma elem_of_sort_by (before : X → X → bool) (l : list X) (x : X) :
  x ∈ Sql.sort_by before l ↔ x ∈ l.
Proof. by rewrite sort_by_Permutation. Qed.

Lemma limit_offset_ok (lim off : Z) (rows : list X) :
  0 ≤ lim ≤ Sql.bigint_max → 0 ≤ off ≤ Sql.bigint_max →
  Sql.limit_offset lim off rows
  = Ok (take (Z.to_nat lim) (drop (Z.to_nat off) rows)).
Proof.
  intros Hl Ho. unfold Sql.limit_offset.
  destruct (Z.ltb_spec lim 0); [lia|].
  destruct (Z.ltb_spec off 0); [lia|].
  destruct (Z.ltb_spec Sql.bigint_max lim); [lia|].
  destruct (Z.ltb_spec Sql.bigint_max off); [lia|]. reflexivity.
Qed.

Lemma limit_offset_refused (lim off : Z) (rows : list X) :
  lim < 0 ∨ off < 0 ∨ Sql.bigint_max < lim ∨ Sql.bigint_max < off →
  ∃ e, Sql.limit_offset lim off rows = Raise e.
Proof.
  intros H. unfold Sql.limit_offset.
  destruct (Z.ltb_spec lim 0); [cbn; eauto|].
  destruct (Z.ltb_spec off 0); [cbn; eauto|].
  destruct (Z.ltb_spec Sql.bigint_max lim); [cbn; eauto|].
  destruct (Z.ltb_spec Sql.bigint_max off); [cbn; eauto|]. lia.
Qed.

Lemma window_beyond (n m : nat) (rows : list X) :
  (length rows ≤ m)%nat → take n (drop m rows) = [].
Proof. intros H. by rewrite drop_ge, take_nil. Qed.

Lemma window_subset (n m : nat) (rows : list X) (x : X) :
  x ∈ take n (drop m rows) → x ∈ rows.
Proof.
  intros H. by apply subseteq_take, subseteq_drop in H.
Qed.


End SqlFacts.

(** * Small checks of the building blocks *)

Example validate_alarm_ids_ex1 :
  Validators.validate_alarm_ids [3; 1; 2] = Ok [3; 1; 2].
Proof. vm_compute. reflexivity. Qed.

Example validate_alarm_ids_ex2 :
  Validators.validate_alarm_ids [1; 1] =
  Raise (ValueError "Duplicate alarm IDs are not allowed").
Proof. vm_compute. reflexivity. Qed.

Example repr_list_ex : Py.repr_list [1; -2; 30] = "[1, -2, 30]".
Proof. vm_compute. reflexivity. Qed.

Example ilike_ex1 : Sql.ilike "AB-123-x" "%b-12%" = true.
Proof. reflexivity. Qed.

Example ilike_ex2 : Sql.ilike "AB-123-x" "%b_13%" = false.
Proof. reflexivity. Qed.

Example sort_ex : Sql.order_by_desc fst [(1, "a"); (3, "b"); (4, "c"); (2, "d")]
  = [(4, "c"); (3, "b"); (2, "d"); (1, "a")].
Proof. reflexivity. Qed.

Example left_join_ex :
  Sql.left_join (λ x y, x =? fst y) [1; 2; 3] [(1, "p"); (3, "q"); (3, "r")]
  = [(1, Some (1, "p")); (2, None); (3, Some (3, "q")); (3, Some (3, "r"))].
Proof. reflexivity. Qed.

(** * The tag listing, page by page *)

Lemma tag_build_page f p ps :
  TagsQuery.build (tag_page f p ps) = TagsQuery.build f.
Proof. reflexivity. Qed.


Lemma offset_nonneg p ps : 1 ≤ p → 0 ≤ ps → 0 ≤ (p - 1) * ps.
Proof. nia. Qed.

(** A page whose limit and offset the server accepts. *)
Lemma get_tags_page f p ps db :
  1 ≤ p → 0 ≤ ps ≤ Sql.bigint_max → (p - 1) * ps ≤ Sql.bigint_max →
  TagsQuery.get_tags_with_filters (tag_page f p ps) db =
  Ok {| TagListResponse.tags := map TagsQuery.to_tag (window p ps (tag_rows f db));
        TagListResponse.total_count :=
          TagsQuery.fetch_count (TagsQuery.build f).2 db;
        TagListResponse.page := p;
        TagListResponse.page_size := ps |}.
Proof.
  intros Hp Hps Hoff. unfold TagsQuery.get_tags_with_filters.
  rewrite tag_build_page. unfold tag_rows, window.
  destruct (TagsQuery.build f) as [bq cq]. cbn [fst snd].
  unfold TagsQuery.fetchall, TagsQuery.order_limit_offset.
  cbn [TagsQuery.paging TagsQuery.where_ tag_page
       TagFilter.page TagFilter.page_size].
  rewrite limit_offset_ok by (split; try apply offset_nonneg; lia).
  reflexivity.
Qed.

(** A page whose offset is beyond the server's integers. *)
Lemma get_tags_page_refused f p ps db :
  Sql.bigint_max < (p - 1) * ps →
  TagsQuery.get_tags_with_filters (tag_page f p ps) db
  = http_500 "Failed to fetch tags".
Proof.
  intros Hoff. unfold TagsQuery.get_tags_with_filters.
  rewrite tag_build_page.
  destruct (TagsQuery.build f) as [bq cq]. cbn [fst snd].
  unfold TagsQuery.fetchall, TagsQuery.order_limit_offset.
  cbn [TagsQuery.paging TagsQuery.where_ tag_page
       TagFilter.page TagFilter.page_size].
  destruct (limit_offset_refused ps ((p - 1) * ps)
              (Sql.order_by_asc (λ j : TagsQuery.joined, T.sn j.1)
                 (List.filter (TagsQuery.where_holds (TagsQuery.where_ bq))
                    (TagsQuery.from_joined db)))) as [e ->]; [lia|].
  reflexivity.
Qed.


(** * Tags and their organizations *)

Lemma elem_of_inner_join {X Y} (on : X → Y → bool) xs ys x y :
  (x, y) ∈ Sql.inner_join on xs ys ↔ x ∈ xs ∧ y ∈ ys ∧ on x y = true.
Proof.
  unfold Sql.inner_join. rewrite list_elem_of_In, in_flat_map. split.
  - intros (x' & Hx' & Hin). apply in_map_iff in Hin as (y' & [= <- <-] & Hy').
    apply list_elem_of_In, elem_of_filter in Hy'.
    apply list_elem_of_In in Hx'. naive_solver.
  - intros (Hx & Hy & Hon). exists x. split; [by apply list_elem_of_In|].
    apply in_map_iff. exists y. split; [done|].
    apply list_elem_of_In, elem_of_filter. done.
Qed.

(** Left rows without a match contribute nothing to an inner join. *)
Lemma inner_join_filter {X Y} (on : X → Y → bool) (p : X → bool) xs ys :
  (∀ x, x ∈ xs → p x = false → List.filter (on x) ys = []) →
  Sql.inner_join on (List.filter p xs) ys = Sql.inner_join on xs ys.
Proof.
  unfold Sql.inner_join.
  induction xs as [|x xs IH]; intros H; [done|].
  cbn [List.filter]. destruct (p x) eqn:Ep.
  - cbn [flat_map]. f_equal. apply IH. intros x' Hx'. apply H. by constructor.
  - cbn [flat_map]. rewrite (H x) by (done || constructor). cbn [map app].
    apply IH. intros x' Hx'. apply H. by constructor.
Qed.

Lemma NoDup_key_inj {X} (key : X → Z) (l : list X) (x y : X) :
  NoDup (map key l) → x ∈ l → y ∈ l → key x = key y → x = y.
Proof.
  intros Hnd Hx Hy E.
  pose proof (filter_key_unique key l x Hnd Hx) as Hf.
  assert (y ∈ List.filter (λ z, key z =? key x) l) as Hin
    by (apply elem_of_filter; split; [done|lia]).
  rewrite Hf in Hin. apply list_elem_of_singleton in Hin. done.
Qed.

Lemma tags_from_joined_orphan db t :
  t ∈ Tags db →
  (∀ o, o ∈ Organizations db → O.organization_name o ≠ T.organization t) →
  NoDup (map T.sn (Tags db)) →
  TagsQuery.from_joined (without_tag (T.sn t) db) = TagsQuery.from_joined db.
Proof.
  intros Ht Horphan Hnd. unfold TagsQuery.from_joined, without_tag.
  cbn [Conn.set_tags Tags Organizations].
  apply inner_join_filter. intros t' Ht' Hsn.
  apply negb_false_iff, Z.eqb_eq in Hsn.
  rewrite (NoDup_key_inj T.sn _ t' t Hnd Ht' Ht Hsn).
  apply filter_all_false. intros o Ho.
  apply String.eqb_neq. intros E. by apply (Horphan o Ho).
Qed.

(** Every listed tag comes from a row of the join. *)
Lemma tags_listed_joined f db resp item :
  TagsQuery.get_tags_with_filters f db = Ok resp →
  item ∈ TagListResponse.tags resp →
  ∃ j, j ∈ TagsQuery.from_joined db ∧ item = TagsQuery.to_tag j.
Proof.
  unfold TagsQuery.get_tags_with_filters.
  destruct (TagsQuery.build f) as [bq cq].
  unfold TagsQuery.fetchall, TagsQuery.order_limit_offset, Sql.limit_offset.
  cbn [TagsQuery.paging TagsQuery.where_].
  destruct (_ || _); cbn [internal_error]; [done|].
  destruct (_ || _); cbn [internal_error]; [done|].
  intros [= <-]. cbn [TagListResponse.tags]. intros Hin.
  apply elem_of_map in Hin as (j & <- & Hj). exists j. split; [|done].
  apply window_subset, elem_of_sort_by, elem_of_filter in Hj. by destruct Hj.
Qed.

(** C10. A tag whose organization string matches no [Organizations] row
    is dropped by the inner join: the tag listing, rows and total alike,
    is what it would be if the tag did not exist; no listed item carries
    its number; and looking it up by id finds nothing, which the endpoint
    turns into HTTP 404.  No placeholder is substituted. *)
Theorem orphaned_tags_dropped db t f :
  t ∈ Tags db →
  (∀ o, o ∈ Organizations db → O.organization_name o ≠ T.organization t) →
  NoDup (map T.sn (Tags db)) →
  TagsQuery.get_tags_with_filters f db
    = TagsQuery.get_tags_with_filters f (without_tag (T.sn t) db) ∧
  (∀ resp item,
     TagsQuery.get_tags_with_filters f db = Ok resp →
     item ∈ TagListResponse.tags resp → Tag.sn item ≠ T.sn t) ∧
  TagsQuery.get_tag_by_id (T.sn t) db = Ok None ∧
  TagsQuery.get_tag (T.sn t) db =
    Raise (HTTPExc {| status_code := HTTP_404_NOT_FOUND;
                      detail := "Tag with ID " +:+ pretty (T.sn t) +:+ " not found" |}).
Proof.
  intros Ht Horphan Hnd.
  assert (∀ j, j ∈ TagsQuery.from_joined db → T.sn j.1 ≠ T.sn t) as Hnot.
  { intros [t' o] Hj Hsn. cbn [fst] in Hsn.
    apply elem_of_inner_join in Hj as (Ht' & Ho & Hon).
    rewrite (NoDup_key_inj T.sn _ t' t Hnd Ht' Ht Hsn) in Hon.
    apply String.eqb_eq in Hon. by apply (Horphan o Ho). }
  assert (TagsQuery.get_tag_by_id (T.sn t) db = Ok None) as Hget.
  { unfold TagsQuery.get_tag_by_id, TagsQuery.fetchall.
    cbn [TagsQuery.paging TagsQuery.where_].
    rewrite filter_all_false; [done|].
    intros j Hj. unfold TagsQuery.where_holds. cbn [forallb TagsQuery.holds].
    rewrite andb_true_r. apply Z.eqb_neq. by apply Hnot. }
  repeat split.
  - unfold TagsQuery.get_tags_with_filters, TagsQuery.fetch_count,
      TagsQuery.fetchall.
    by rewrite tags_from_joined_orphan.
  - intros resp item Hresp Hitem.
    destruct (tags_listed_joined f db resp item Hresp Hitem) as (j & Hj & ->).
    by apply Hnot.
  - done.
  - unfold TagsQuery.get_tag. by rewrite Hget.
Qed.

(** Tag 3 of the sample names the organization [ghost], which has no
    row. *)
Lemma orphaned_tags_dropped_witness :
  TagsQuery.get_tags_with_filters (Sample.tags_like None None 1 10) Sample.db
    = TagsQuery.get_tags_with_filters (Sample.tags_like None None 1 10)
        (without_tag 3 Sample.db) ∧
  (∀ resp item,
     TagsQuery.get_tags_with_filters (Sample.tags_like None None 1 10) Sample.db
       = Ok resp →
     item ∈ TagListResponse.tags resp → Tag.sn item ≠ 3) ∧
  TagsQuery.get_tag_by_id 3 Sample.db = Ok None ∧
  TagsQuery.get_tag 3 Sample.db =
    Raise (HTTPExc {| status_code := HTTP_404_NOT_FOUND;
                      detail := "Tag with ID " +:+ pretty 3 +:+ " not found" |}).
Proof.
  apply (orphaned_tags_dropped Sample.db (Sample.tag 3 "ghost" "444")
           (Sample.tags_like None None 1 10)).
  - in_list.
  - apply Forall_forall, (bool_decide_unpack _). vm_compute. exact I.
  - apply (bool_decide_unpack _). vm_compute. exact I.
Defined.

Example tags_listing_ex :
  match TagsQuery.get_tags_with_filters (Sample.tags_like None None 1 10) Sample.db with
  | Ok resp => Some (map Tag.sn (TagListResponse.tags resp),
                     TagListResponse.total_count resp)
  | Raise _ => None
  end = Some ([1; 2], 2).
Proof. vm_compute. reflexivity. Qed.

(** * The statements that the server's parser refuses *)

(** The alias [to] is a reserved key word; [a], [t], [r] and [o] are not. *)
Lemma parse_alarm_rows :
  Sql.parse (AlarmsQuery.aliases AlarmsQuery.SELECT_joined)
  = Raise (OtherExc "SyntaxError").
Proof. vm_compute. reflexivity. Qed.

Lemma parse_alarm_count :
  Sql.parse (AlarmsQuery.aliases AlarmsQuery.SELECT_count) = Ok tt.
Proof. vm_compute. reflexivity. Qed.

Lemma parse_route_rows :
  Sql.parse (RoutesQuery.aliases RoutesQuery.SELECT_joined)
  = Raise (OtherExc "SyntaxError").
Proof. vm_compute. reflexivity. Qed.

Lemma parse_route_count :
  Sql.parse (RoutesQuery.aliases RoutesQuery.SELECT_count) = Ok tt.
Proof. vm_compute. reflexivity. Qed.

Lemma parse_route_by_id :
  Sql.parse RoutesQuery.aliases_by_id = Raise (OtherExc "SyntaxError").
Proof. vm_compute. reflexivity. Qed.


(** The two texts of a listing are assembled by the same appends. *)
Lemma alarm_build_shape f :
  AlarmsQuery.head (AlarmsQuery.build f).1 = AlarmsQuery.SELECT_joined ∧
  AlarmsQuery.head (AlarmsQuery.build f).2 = AlarmsQuery.SELECT_count ∧
  AlarmsQuery.where_ (AlarmsQuery.build f).1
  = AlarmsQuery.where_ (AlarmsQuery.build f).2.
Proof.
  unfold AlarmsQuery.build.
  destruct (AlarmFilter.warn_type f), (AlarmFilter.start_time f),
    (AlarmFilter.end_time f); repeat split.
Qed.

Lemma route_build_shape f :
  RoutesQuery.head (RoutesQuery.build f).1 = RoutesQuery.SELECT_joined ∧
  RoutesQuery.head (RoutesQuery.build f).2 = RoutesQuery.SELECT_count ∧
  RoutesQuery.where_ (RoutesQuery.build f).1
  = RoutesQuery.where_ (RoutesQuery.build f).2.
Proof. repeat split. Qed.

Lemma alarm_fetchall_refused q db :
  AlarmsQuery.head q = AlarmsQuery.SELECT_joined →
  AlarmsQuery.fetchall q db = Raise (OtherExc "SyntaxError").
Proof.
  intros H. unfold AlarmsQuery.fetchall. by rewrite H, parse_alarm_rows.
Qed.

Lemma route_fetchall_refused q db :
  RoutesQuery.head q = RoutesQuery.SELECT_joined →
  RoutesQuery.fetchall q db = Raise (OtherExc "SyntaxError").
Proof.
  intros H. unfold RoutesQuery.fetchall. by rewrite H, parse_route_rows.
Qed.

Lemma get_alarms_refused f db :
  AlarmsQuery.get_alarms_with_filters f db = http_500 "Failed to fetch alarms".
Proof.
  unfold AlarmsQuery.get_alarms_with_filters.
  destruct (alarm_build_shape f) as (H1 & H2 & _).
  destruct (AlarmsQuery.build f) as [bq cq]. cbn [fst snd] in *.
  unfold AlarmsQuery.fetch_count. rewrite H2, parse_alarm_count.
  by rewrite alarm_fetchall_refused.
Qed.

Lemma get_routes_refused f db :
  RoutesQuery.get_routes_with_filters f db = http_500 "Failed to fetch routes".
Proof.
  unfold RoutesQuery.get_routes_with_filters.
  destruct (route_build_shape f) as (H1 & H2 & _).
  destruct (RoutesQuery.build f) as [bq cq]. cbn [fst snd] in *.
  unfold RoutesQuery.fetch_count. rewrite H2, parse_route_count.
  by rewrite route_fetchall_refused.
Qed.

Lemma get_alarm_by_id_refused id db :
  AlarmsQuery.get_alarm_by_id id db = http_500 "Failed to fetch alarm".
Proof.
  unfold AlarmsQuery.get_alarm_by_id. by rewrite alarm_fetchall_refused.
Qed.

Lemma get_route_by_id_refused id db :
  RoutesQuery.get_route_by_id id db = http_500 "Failed to fetch route".
Proof.
  unfold RoutesQuery.get_route_by_id. by rewrite parse_route_by_id.
Qed.

(** C5. The row query and the count query of the alarm listing, and of
    the route listing, carry the same WHERE fragments, but they are not
    the same query otherwise: the count query is one that the server
    runs, while the row query names [Tracking_Objects] by the reserved
    word [to] and is refused as a syntax error.  So the listing never
    returns rows with a total: whatever the filter and the data, it ends
    in HTTP 500. *)
Theorem list_row_query_rejected db af rf :
  AlarmsQuery.where_ (AlarmsQuery.build af).1
  = AlarmsQuery.where_ (AlarmsQuery.build af).2 ∧
  RoutesQuery.where_ (RoutesQuery.build rf).1
  = RoutesQuery.where_ (RoutesQuery.build rf).2 ∧
  (∃ n, AlarmsQuery.fetch_count (AlarmsQuery.build af).2 db = Ok n) ∧
  (∃ n, RoutesQuery.fetch_count (RoutesQuery.build rf).2 db = Ok n) ∧
  AlarmsQuery.fetchall (AlarmsQuery.build af).1 db = Raise (OtherExc "SyntaxError") ∧
  RoutesQuery.fetchall (RoutesQuery.build rf).1 db = Raise (OtherExc "SyntaxError") ∧
  AlarmsQuery.get_alarms_with_filters af db = http_500 "Failed to fetch alarms" ∧
  RoutesQuery.get_routes_with_filters rf db = http_500 "Failed to fetch routes".
Proof.
  destruct (alarm_build_shape af) as (Ha1 & Ha2 & Ha3).
  destruct (route_build_shape rf) as (Hr1 & Hr2 & Hr3).
  split; [done|]. split; [done|].
  split. { unfold AlarmsQuery.fetch_count. rewrite Ha2, parse_alarm_count. eauto. }
  split. { unfold RoutesQuery.fetch_count. rewrite Hr2, parse_route_count. eauto. }
  split; [by apply alarm_fetchall_refused|].
  split; [by apply route_fetchall_refused|].
  split; [apply get_alarms_refused|apply get_routes_refused].
Qed.

Example list_alarms_acme_ex :
  AlarmsQuery.fetch_count
    (AlarmsQuery.build (Sample.alarms_of "acme" 1 10)).2 Sample.db = Ok 4 ∧
  AlarmsQuery.get_alarms_with_filters (Sample.alarms_of "acme" 1 10) Sample.db
  = Raise (HTTPExc {| status_code := 500; detail := "Failed to fetch alarms" |}).
Proof. vm_compute. split; reflexivity. Qed.

(** C6. With [page >= 1] and [1 <= page_size <= 100] the alarm listing
    returns no window of rows and no total, on any page: its row query
    is refused and the answer is HTTP 500.  The tag listing pages as
    specified as long as the offset [(page-1)*page_size] is one of the
    server's integers: it returns the rows of its row query from that
    offset on, at most [page_size] of them, with the total of the count
    query, the same on every such page, and an empty list with that total
    when the page lies beyond the rows.  A page whose offset is above
    2^63 - 1 is an error, HTTP 500, not an empty page. *)
Theorem list_pagination_breaks db af tf p p' ps :
  1 ≤ p → 1 ≤ p' → 1 ≤ ps ≤ 100 →
  let n := Z.to_nat ps in
  let off := Z.to_nat ((p - 1) * ps) in
  AlarmsQuery.get_alarms_with_filters (alarm_page af p ps) db
  = http_500 "Failed to fetch alarms" ∧
  ((p - 1) * ps ≤ Sql.bigint_max →
   TagsQuery.get_tags_with_filters (tag_page tf p ps) db =
     Ok {| TagListResponse.tags :=
             map TagsQuery.to_tag (take n (drop off (tag_rows tf db)));
           TagListResponse.total_count :=
             TagsQuery.fetch_count (TagsQuery.build tf).2 db;
           TagListResponse.page := p;
           TagListResponse.page_size := ps |} ∧
   ((length (tag_rows tf db) ≤ off)%nat →
    take n (drop off (tag_rows tf db)) = []) ∧
   ((p' - 1) * ps ≤ Sql.bigint_max →
    tag_total (TagsQuery.get_tags_with_filters (tag_page tf p' ps) db)
    = tag_total (TagsQuery.get_tags_with_filters (tag_page tf p ps) db))) ∧
  (Sql.bigint_max < (p - 1) * ps →
   TagsQuery.get_tags_with_filters (tag_page tf p ps) db
   = http_500 "Failed to fetch tags").
Proof.
  intros Hp Hp' Hps n off.
  assert (100 ≤ Sql.bigint_max) as Hmax by (vm_compute; discriminate).
  split; [apply get_alarms_refused|]. split.
  - intros Hoff. split; [apply get_tags_page; lia|].
    split; [apply window_beyond|].
    intros Hoff'. by rewrite !get_tags_page by lia.
  - apply get_tags_page_refused.
Qed.

(** Page 3 of size 2, which lies beyond the two tags listed, against
    page 1; and page 10^17 of size 100. *)
Lemma list_pagination_breaks_witness :
  (AlarmsQuery.get_alarms_with_filters
     (alarm_page (Sample.alarms_of "acme" 1 10) 3 2) Sample.db
   = http_500 "Failed to fetch alarms" ∧
   TagsQuery.get_tags_with_filters
     (tag_page (Sample.tags_like None None 1 10) 3 2) Sample.db =
     Ok {| TagListResponse.tags := [];
           TagListResponse.total_count := 2;
           TagListResponse.page := 3;
           TagListResponse.page_size := 2 |} ∧
   tag_total (TagsQuery.get_tags_with_filters
                (tag_page (Sample.tags_like None None 1 10) 1 2) Sample.db)
   = tag_total (TagsQuery.get_tags_with_filters
                  (tag_page (Sample.tags_like None None 1 10) 3 2) Sample.db)) ∧
  TagsQuery.get_tags_with_filters
    (tag_page (Sample.tags_like None None 1 10) 100000000000000000 100) Sample.db
  = http_500 "Failed to fetch tags".
Proof.
  split.
  - destruct (list_pagination_breaks Sample.db (Sample.alarms_of "acme" 1 10)
                (Sample.tags_like None None 1 10) 3 1 2)
      as (Ha & Ht & _); [lia..|].
    destruct Ht as (Ht & Hte & Htt); [vm_compute; discriminate|].
    split; [exact Ha|]. split.
    + rewrite Ht, Hte; [reflexivity|vm_compute; lia].
    + apply Htt. vm_compute. discriminate.
  - destruct (list_pagination_breaks Sample.db (Sample.alarms_of "acme" 1 10)
                (Sample.tags_like None None 1 10) 100000000000000000 1 100)
      as (_ & _ & Ht); [lia..|].
    apply Ht. vm_compute. reflexivity.
Defined.

(** C7. The items are built with the specified substitution: a joined
    row without a tag, or without a tracking object,
    gives "Unknown" in the field, and a match with a non-empty value
    gives that value.  But no joined row ever reaches that code: the
    query that would select it is refused, and the alarm list, the route
    list and both lookups by id answer HTTP 500 instead of an item, for
    matched and unmatched rows alike. *)
Theorem unmatched_joins_never_served db af rf id a r t tobj :
  Alarm.imei (AlarmsQuery.to_alarm (a, None, None)) = "Unknown" ∧
  Alarm.tracking_object (AlarmsQuery.to_alarm (a, Some t, None)) = "Unknown" ∧
  Route.terminal_id (RoutesQuery.to_route (1, (r, None, None, None))) = "Unknown" ∧
  Route.tracking_object (RoutesQuery.to_route (1, (r, Some t, None, None)))
  = "Unknown" ∧
  (TO.name tobj ≠ "" →
   Alarm.tracking_object (AlarmsQuery.to_alarm (a, Some t, Some tobj))
   = TO.name tobj) ∧
  AlarmsQuery.get_alarms_with_filters af db = http_500 "Failed to fetch alarms" ∧
  RoutesQuery.get_routes_with_filters rf db = http_500 "Failed to fetch routes" ∧
  AlarmsQuery.get_alarm_by_id id db = http_500 "Failed to fetch alarm" ∧
  RoutesQuery.get_route_by_id id db = http_500 "Failed to fetch route".
Proof.
  do 4 (split; [reflexivity|]).
  split; [intros Hname; cbn; by destruct (TO.name tobj)|].
  split; [apply get_alarms_refused|].
  split; [apply get_routes_refused|].
  split; [apply get_alarm_by_id_refused|apply get_route_by_id_refused].
Qed.

(** The example of the specification: alarm 1 of [acme] is on tag [111],
    which has no tracking object, alarm 4 on tag [222], which is
    [Forklift-1]. *)
Lemma unmatched_joins_never_served_witness :
  Alarm.tracking_object
    (AlarmsQuery.to_alarm
       (Sample.alarm 4 "acme" "222" 40 None, Some (Sample.tag 2 "acme" "222"),
        Some (Sample.tracking_object 1 "acme" "Forklift-1" (Some "222"))))
  = "Forklift-1" ∧
  AlarmsQuery.get_alarms_with_filters (Sample.alarms_of "acme" 1 10) Sample.db
  = http_500 "Failed to fetch alarms" ∧
  AlarmsQuery.get_alarm_by_id 1 Sample.db = http_500 "Failed to fetch alarm".
Proof.
  destruct (unmatched_joins_never_served Sample.db (Sample.alarms_of "acme" 1 10)
              (Sample.routes_of "acme" 0 1000 1 10) 1
              (Sample.alarm 4 "acme" "222" 40 None) (Sample.route 1 "111" 100)
              (Sample.tag 2 "acme" "222")
              (Sample.tracking_object 1 "acme" "Forklift-1" (Some "222")))
    as (_ & _ & _ & _ & Hname & Hlist & _ & Hget & _).
  split; [apply Hname; discriminate|]. split; [exact Hlist|exact Hget].
Defined.

(** C8. The lookup by id answers no id with an item, present in the
    data or not: both [get_alarm_by_id] and [get_route_by_id] send a
    query that the server refuses and end in HTTP 500, which the
    endpoints pass on; the listings that they would agree with do not
    answer either. *)
Theorem get_by_id_rejected db id af rf :
  AlarmsQuery.get_alarm_by_id id db = http_500 "Failed to fetch alarm" ∧
  AlarmsRouter.get_alarm id db = http_500 "Failed to fetch alarm" ∧
  RoutesQuery.get_route_by_id id db = http_500 "Failed to fetch route" ∧
  RoutesRouter.get_route id db = http_500 "Failed to fetch route" ∧
  (∀ resp, AlarmsQuery.get_alarms_with_filters af db ≠ Ok resp) ∧
  (∀ resp, RoutesQuery.get_routes_with_filters rf db ≠ Ok resp).
Proof.
  split; [apply get_alarm_by_id_refused|].
  split; [unfold AlarmsRouter.get_alarm; by rewrite get_alarm_by_id_refused|].
  split; [apply get_route_by_id_refused|].
  split; [unfold RoutesRouter.get_route; by rewrite get_route_by_id_refused|].
  split; intros resp.
  - by rewrite get_alarms_refused.
  - by rewrite get_routes_refused.
Qed.

Example get_alarm_present_ex :
  Sample.alarm 1 "acme" "111" 10 (Some false) ∈ Alarms Sample.db ∧
  AlarmsRouter.get_alarm 1 Sample.db
  = Raise (HTTPExc {| status_code := 500; detail := "Failed to fetch alarm" |}).
Proof. split; [in_list|vm_compute; reflexivity]. Qed.

(** X1. The exports of alarms and of routes produce no sheet: the
    query of each, the one of the listing without its paging, names
    [Tracking_Objects] by the reserved word [to], and every call ends in
    HTTP 500, for CSV and XLSX alike and before any row is written. *)
Theorem alarm_route_exports_rejected db af rf :
  AlarmsExport.export_alarms_to_csv af db = http_500 "Failed to export alarms" ∧
  AlarmsExport.export_alarms_to_xlsx af db = http_500 "Failed to export alarms" ∧
  RoutesExport.export_routes_to_csv rf db = http_500 "Failed to export routes" ∧
  RoutesExport.export_routes_to_xlsx rf db = http_500 "Failed to export routes".
Proof.
  assert (AlarmsQuery.head (AlarmsExport.build af) = AlarmsQuery.SELECT_joined) as Ha.
  { unfold AlarmsExport.build.
    by destruct (AlarmFilter.warn_type af), (AlarmFilter.start_time af),
      (AlarmFilter.end_time af). }
  assert (AlarmsExport.export_alarms_to_csv af db
          = http_500 "Failed to export alarms") as Hcsv.
  { unfold AlarmsExport.export_alarms_to_csv, AlarmsExport.fetchall.
    by rewrite Ha, parse_alarm_rows. }
  split; [done|].
  split; [unfold AlarmsExport.export_alarms_to_xlsx; by rewrite Hcsv|].
  split.
  - unfold RoutesExport.export_routes_to_csv, RoutesExport.fetchall.
    cbn [RoutesExport.build RoutesQuery.truthy_datetime RoutesQuery.and_
         RoutesQuery.head].
    by rewrite parse_route_rows.
  - unfold RoutesExport.export_routes_to_xlsx, RoutesExport.fetchall.
    cbn [RoutesExport.build RoutesQuery.truthy_datetime RoutesQuery.and_
         RoutesQuery.head].
    by rewrite parse_route_rows.
Qed.

(** * Free text: [strip] and the validators built on it *)

Lemma lstrip_length (s : string) :
  (String.length (PyStr.lstrip s) ≤ String.length s)%nat.
Proof.
  induction s as [|c s IH]; cbn; [lia|].
  destruct (PyStr.isspace c); cbn; lia.
Qed.

Lemma rstrip_length (s : string) :
  (String.length (PyStr.rstrip s) ≤ String.length s)%nat.
Proof.
  induction s as [|c s IH]; cbn; [lia|].
  destruct (PyStr.rstrip s); [destruct (PyStr.isspace c)|]; cbn in *; lia.
Qed.

Lemma strip_length (s : string) :
  (String.length (PyStr.strip s) ≤ String.length s)%nat.
Proof.
  unfold PyStr.strip.
  etransitivity; [apply rstrip_length|apply lstrip_length].
Qed.

Lemma rstrip_cons (c : ascii) (s : string) :
  PyStr.rstrip (String c s) =
  match PyStr.rstrip s with
  | EmptyString => if PyStr.isspace c then EmptyString else String c EmptyString
  | r => String c r
  end.
Proof. reflexivity. Qed.

Lemma rstrip_idem (s : string) : PyStr.rstrip (PyStr.rstrip s) = PyStr.rstrip s.
Proof.
  induction s as [|c s IH]; [done|]. rewrite rstrip_cons.
  destruct (PyStr.rstrip s) as [|d r] eqn:E.
  - destruct (PyStr.isspace c) eqn:Ec; [done|]. cbn. by rewrite Ec.
  - rewrite rstrip_cons, IH. done.
Qed.

Lemma lstrip_head (s : string) :
  match PyStr.lstrip s with
  | String c _ => PyStr.isspace c = false
  | EmptyString => True
  end.
Proof.
  induction s as [|c s IH]; [done|]. cbn.
  by destruct (PyStr.isspace c) eqn:Ec.
Qed.

Lemma rstrip_head (c : ascii) (s : string) :
  PyStr.isspace c = false → ∃ r, PyStr.rstrip (String c s) = String c r.
Proof.
  intros Hc. cbn. destruct (PyStr.rstrip s); [rewrite Hc|]; eauto.
Qed.

Lemma strip_idem (s : string) : PyStr.strip (PyStr.strip s) = PyStr.strip s.
Proof.
  unfold PyStr.strip. pose proof (lstrip_head s) as H.
  destruct (PyStr.lstrip s) as [|c t]; [done|].
  destruct (rstrip_head c t H) as [r Hr]. rewrite Hr.
  cbn [PyStr.lstrip]. rewrite H, <- Hr. apply rstrip_idem.
Qed.

(** * Order of the rows *)

Section SortFacts.
Context {X : Type}.

Lemma insert_by_sorted (before : X → X → bool) (R : X → X → Prop) x l :
  (∀ x y, before x y = true → R x y) →
  (∀ x y, before x y = false → R y x) →
  (∀ x y z, R x y → R y z → R x z) →
  StronglySorted R l → StronglySorted R (Sql.insert_by before x l).
Proof.
  intros Ht Hf Htrans. induction l as [|y l IH]; intros Hs; cbn.
  - repeat constructor.
  - apply StronglySorted_cons in Hs as [Hy Hs].
    destruct (before x y) eqn:E.
    + apply StronglySorted_cons. split.
      * constructor; [by apply Ht|].
        eapply Forall_impl; [exact Hy|]. intros z Hz.
        eapply Htrans; [by apply Ht|done].
      * by apply StronglySorted_cons.
    + apply StronglySorted_cons. split; [|by apply IH].
      apply Forall_forall. intros z Hz.
      rewrite insert_by_Permutation in Hz.
      apply elem_of_cons in Hz as [->|Hz]; [by apply Hf|].
      by eapply Forall_forall in Hy.
Qed.

Lemma sort_by_sorted (before : X → X → bool) (R : X → X → Prop) l :
  (∀ x y, before x y = true → R x y) →
  (∀ x y, before x y = false → R y x) →
  (∀ x y z, R x y → R y z → R x z) →
  StronglySorted R (Sql.sort_by before l).
Proof.
  intros Ht Hf Htrans. induction l as [|x l IH]; cbn; [constructor|].
  by apply insert_by_sorted.
Qed.

Lemma order_by_asc_sorted (key : X → Z) l :
  ascending key (Sql.order_by_asc key l).
Proof.
  apply sort_by_sorted; intros; lia.
Qed.


End SortFacts.

(** * The export of tags *)

Lemma tag_export_build f :
  TagsQuery.where_ (TagsExport.build f) = TagsQuery.where_ (TagsQuery.build f).1.
Proof.
  unfold TagsExport.build, TagsQuery.build.
  destruct (Py.truthy_str (TagFilter.organization f)),
    (Py.truthy_str (TagFilter.model f)); reflexivity.
Qed.

Lemma tag_export_rows f db :
  TagsExport.fetchall (TagsExport.build f) db = tag_rows f db.
Proof. unfold TagsExport.fetchall, tag_rows. by rewrite tag_export_build. Qed.

Lemma tag_where_matches f j :
  TagsQuery.where_holds (TagsQuery.where_ (TagsQuery.build f).1) j = true
  ↔ tag_matches f j.
Proof.
  destruct f as [org model p ps]. unfold TagsQuery.build, tag_matches.
  cbn [TagFilter.organization TagFilter.model].
  destruct org as [[|c org]|], model as [[|d model]|];
    cbn [Py.truthy_str fst TagsQuery.where_ TagsQuery.and_ app
         TagsQuery.where_holds forallb TagsQuery.holds default];
    rewrite ?andb_true_iff, ?String.eqb_eq;
    (split; [intros H; split; intros ? [= <-] ?; try done; naive_solver
            |intros [H1 H2]; repeat split; eauto]).
Qed.

Lemma tag_rows_spec f db (j : TagsQuery.joined) :
  j ∈ tag_rows f db ↔
  j.1 ∈ Tags db ∧ j.2 ∈ Organizations db ∧
  T.organization j.1 = O.organization_name j.2 ∧ tag_matches f j.
Proof.
  unfold tag_rows, Sql.order_by_asc.
  rewrite elem_of_sort_by, elem_of_filter, tag_where_matches.
  assert (j ∈ TagsQuery.from_joined db ↔
          j.1 ∈ Tags db ∧ j.2 ∈ Organizations db ∧
          T.organization j.1 = O.organization_name j.2) as ->.
  { destruct j as [t o]. unfold TagsQuery.from_joined.
    etransitivity; [apply elem_of_inner_join|].
    by rewrite String.eqb_eq. }
  naive_solver.
Qed.

(** X3. The export of tags writes the tags that have an organization row
    and meet the filter, each with that row's name, in order of [sn]; the
    XLSX placeholder is the same sheet. *)
Theorem tag_export_content f db :
  ∃ rows,
    TagsExport.export_tags_to_csv f db =
      Ok {| Sheet.header := TagsExport.header;
            Sheet.data := map TagsExport.writerow rows |} ∧
    TagsExport.export_tags_to_xlsx f db = TagsExport.export_tags_to_csv f db ∧
    (∀ j : TagsQuery.joined,
       j ∈ rows ↔
       j.1 ∈ Tags db ∧ j.2 ∈ Organizations db ∧
       T.organization j.1 = O.organization_name j.2 ∧ tag_matches f j) ∧
    ascending (λ j : TagsQuery.joined, T.sn j.1) rows.
Proof.
  exists (tag_rows f db). split; [|split; [|split]].
  - unfold TagsExport.export_tags_to_csv. by rewrite tag_export_rows.
  - reflexivity.
  - apply tag_rows_spec.
  - apply order_by_asc_sorted.
Qed.





(** * The dropdown of organizations *)

Lemma string_compare_trans (a b c : string) :
  String.leb a b = true → String.leb b c = true → String.leb a c = true.
Proof.
  unfold String.leb. revert b c.
  induction a as [|x a IH]; intros [|y b] [|z c]; cbn; try done.
  unfold Ascii.compare.
  destruct (N.compare_spec (N_of_ascii x) (N_of_ascii y)) as [Exy|Lxy|Gxy];
    [|
     |done].
  - rewrite Exy.
    destruct (N.compare_spec (N_of_ascii y) (N_of_ascii z)); [|done..].
    apply IH.
  - intros _.
    destruct (N.compare_spec (N_of_ascii y) (N_of_ascii z)) as [Eyz|Lyz|Gyz];
      [| |done]; intros _.
    + rewrite <- Eyz. by apply N.compare_lt_iff in Lxy as ->.
    + assert (N_of_ascii x < N_of_ascii z)%N as H by lia.
      by apply N.compare_lt_iff in H as ->.
Qed.

(** X7. Whatever total preorder the collation of the database puts on
    names, the dropdown of organizations (the same function in the alarm,
    tag and route services) answers with every row of [Organizations]
    exactly once, in order of name. *)
Theorem get_organizations_all_in_order
  (collate_le : string → string → bool) (db : Database) :
  (∀ x y, collate_le x y = true ∨ collate_le y x = true) →
  (∀ x y z, collate_le x y = true → collate_le y z = true →
            collate_le x z = true) →
  ∃ orgs,
    OrganizationsQuery.get_organizations collate_le db = Ok orgs ∧
    orgs ≡ₚ map dropdown_item (Organizations db) ∧
    StronglySorted
      (λ a b, collate_le (Organization.organization_name a)
                (Organization.organization_name b) = true) orgs.
Proof.
  intros Htot Htrans. eexists. split; [reflexivity|]. split.
  - apply Permutation_map, sort_by_Permutation.
  - change (map ?f ?l) with (f <$> l).
    apply (StronglySorted_fmap _
             (λ a b : O.row, collate_le (O.organization_name a)
                       (O.organization_name b) = true)).
    + done.
    + apply sort_by_sorted.
      * done.
      * intros x y H.
        destruct (Htot (O.organization_name x) (O.organization_name y)); congruence.
      * intros x y z. apply Htrans.
Qed.

Lemma get_organizations_all_in_order_witness :
  ∃ orgs,
    OrganizationsQuery.get_organizations String.leb Sample.db = Ok orgs ∧
    orgs ≡ₚ map dropdown_item (Organizations Sample.db) ∧
    StronglySorted
      (λ a b, String.leb (Organization.organization_name a)
                (Organization.organization_name b) = true) orgs.
Proof.
  apply (get_organizations_all_in_order String.leb Sample.db).
  - apply String.leb_total.
  - apply string_compare_trans.
Defined.

(** * Route statistics *)









Example route_statistics_ex :
  RoutesStatistics.get_route_statistics "acme" 0 200000 Sample.db =
  Ok {| RouteStatistics.total_routes := 2;
        RouteStatistics.unique_terminals := 2;
        RouteStatistics.earliest_time := Some 100;
        RouteStatistics.latest_time := Some 200;
        RouteStatistics.time_range_days := 2 |}.
Proof. vm_compute. reflexivity. Qed.

(** * The endpoints for one item *)



(** * The tag listing endpoint and the free-text fields *)

Lemma validate_model_strip (m : string) :
  TagFilterValidators.validate_model (Some m)
  = TagFilterValidators.validate_model (Some (PyStr.strip m)).
Proof.
  unfold TagFilterValidators.validate_model. rewrite strip_idem.
  case_bool_decide; [done|]. f_equal.
  destruct m as [|c m]; [done|]. cbn [PyStr.truthy].
  by destruct (PyStr.truthy (PyStr.strip (String c m))).
Qed.

Lemma validate_model_blank (m : string) :
  PyStr.strip m = "" →
  TagFilterValidators.validate_model (Some m) = Ok (Some "").
Proof.
  intros E. unfold TagFilterValidators.validate_model. rewrite E.
  rewrite bool_decide_eq_false_2 by (cbn; lia).
  destruct m; [done|]. cbn [PyStr.truthy]. done.
Qed.

(** X13. [GET /tags]: white space around the model filter does not
    count, and a model made of white space only is no filter at all: the
    answer is that for the stripped text, respectively that of a request
    without [model]. *)
Theorem list_tags_model_stripped org (m : string) p ps db :
  TagsRouter.list_tags org (Some m) p ps db
    = TagsRouter.list_tags org (Some (PyStr.strip m)) p ps db ∧
  (PyStr.strip m = "" →
   TagsRouter.list_tags org (Some m) p ps db
     = TagsRouter.list_tags org None p ps db).
Proof.
  split.
  - unfold TagsRouter.list_tags, TagFilterValidators.parse.
    by rewrite validate_model_strip.
  - intros E. unfold TagsRouter.list_tags, TagFilterValidators.parse.
    rewrite (validate_model_blank m E).
    cbn [TagFilterValidators.validate_model].
    destruct (p <? 1); [done|].
    destruct ((ps <? 1) || (100 <? ps)); [done|]. reflexivity.
Qed.

Lemma list_tags_model_stripped_witness :
  TagsRouter.list_tags (Some "acme") (Some "   ") 1 10 Sample.db
    = TagsRouter.list_tags (Some "acme") None 1 10 Sample.db.
Proof.
  apply (list_tags_model_stripped (Some "acme") "   " 1 10 Sample.db).
  reflexivity.
Defined.

(** The count query of the routes finds a row exactly when the row query
    does, although the row query joins one more table. *)
(** X15. The free-text reason of the two bulk requests.  The field is
    bounded by its type at 500 characters before the validator of the
    class runs, and stripping cannot lengthen a text; so the validator's
    own length error is never raised.  A reason of more than 500
    characters as sent is refused by the type; any other is accepted and
    stored stripped of surrounding white space, a blank one as the empty
    text. *)
Theorem reason_accepted_stripped (v : option string) :
  let alarm :=
    ReasonValidators.reason_field ReasonValidators.validate_reason v in
  let tag :=
    ReasonValidators.reason_field ReasonValidators.validate_transfer_reason v in
  match v with
  | None => alarm = Ok None ∧ tag = Ok None
  | Some s =>
      if bool_decide (500 < String.length s)%nat then
        alarm = Raise (ValueError "max_length") ∧ tag = Raise (ValueError "max_length")
      else
        alarm = Ok (Some (PyStr.strip s)) ∧ tag = Ok (Some (PyStr.strip s)) ∧
        (String.length (PyStr.strip s) ≤ 500)%nat
  end.
Proof.
  destruct v as [s|]; [|done]. cbn zeta.
  unfold ReasonValidators.reason_field, ReasonValidators.constr_max_length.
  case_bool_decide as Hlen; [done|].
  pose proof (strip_length s) as Hs.
  unfold ReasonValidators.validate_reason, ReasonValidators.validate_transfer_reason.
  rewrite bool_decide_eq_false_2 by lia.
  destruct s; (split; [done|split; [done|lia]]).
Qed.

(** * The model filter as a substring test *)

Lemma ilike_go_percent (pat s : list ascii) :
  Sql.ilike_go ("%"%char :: pat) s =
  Sql.ilike_go pat s ||
  match s with
  | [] => false
  | _ :: s' => Sql.ilike_go ("%"%char :: pat) s'
  end.
Proof. by destruct s. Qed.

Lemma ilike_go_plain (c : ascii) (pat s : list ascii) :
  c ≠ "%"%char → c ≠ "_"%char → c ≠ "\"%char →
  Sql.ilike_go (c :: pat) s =
  match s with
  | [] => false
  | d :: s' => Ascii.eqb (Sql.lower c) (Sql.lower d) && Sql.ilike_go pat s'
  end.
Proof.
  intros H1 H2 H3.
  destruct c as [[] [] [] [] [] [] [] []]; try done;
    (destruct pat; reflexivity).
Qed.

Lemma ilike_go_percent_spec (pat s : list ascii) :
  Sql.ilike_go ("%"%char :: pat) s = true ↔
  ∃ pre suf, s = pre ++ suf ∧ Sql.ilike_go pat suf = true.
Proof.
  induction s as [|c s IH]; rewrite ilike_go_percent, orb_true_iff.
  - split.
    + intros [H|H]; [|done]. by exists [], [].
    + intros (pre & suf & E & H). left.
      symmetry in E. apply app_eq_nil in E as [-> ->]. done.
  - rewrite IH. split.
    + intros [H|(pre & suf & -> & H)].
      * by exists [], (c :: s).
      * by exists (c :: pre), suf.
    + intros (pre & suf & E & H). destruct pre as [|d pre].
      * left. cbn in E. by subst.
      * right. cbn in E. injection E as -> ->. by exists pre, suf.
Qed.

Lemma ilike_go_prefix (m : list ascii) :
  Forall (λ c, c ≠ "%"%char ∧ c ≠ "_"%char ∧ c ≠ "\"%char) m →
  ∀ s, Sql.ilike_go (m ++ ["%"%char]) s = true ↔
       ∃ mid post, s = mid ++ post ∧ map Sql.lower mid = map Sql.lower m.
Proof.
  induction 1 as [|c m (H1 & H2 & H3) Hm IH]; intros s.
  - cbn [app]. rewrite ilike_go_percent_spec. split.
    + intros _. by exists [], s.
    + intros _. exists s, []. split; [by rewrite app_nil_r|done].
  - cbn [app]. rewrite ilike_go_plain by done. destruct s as [|d s].
    + split; [done|]. intros (mid & post & E & Hl).
      symmetry in E. apply app_eq_nil in E as [-> ->]. done.
    + rewrite andb_true_iff, IH. split.
      * intros [Hc (mid & post & -> & Hl)]. exists (d :: mid), post.
        split; [done|]. cbn. apply Ascii.eqb_eq in Hc. by rewrite Hc, Hl.
      * intros (mid & post & E & Hl). destruct mid as [|d' mid]; [done|].
        cbn in E, Hl. injection E as -> ->. injection Hl as Hc Hl.
        split; [apply Ascii.eqb_eq; by rewrite Hc|]. by exists mid, post.
Qed.

Lemma list_ascii_of_string_app (a b : string) :
  list_ascii_of_string (a +:+ b) = list_ascii_of_string a ++ list_ascii_of_string b.
Proof. induction a as [|c a IH]; [done|]. simpl. f_equal. exact IH. Qed.

(** X16. The model filter of the tag queries, [t.imei ILIKE '%model%'],
    is a substring test without regard to case, provided the model has
    none of the characters [%], [_] and backslash, which the pattern
    would read as wildcards or escapes: a joined tag passes the fragment
    exactly when its imei contains the model. *)
Theorem model_filter_is_substring (m : string) (j : TagsQuery.joined) :
  plain_text m →
  TagsQuery.holds (TagsQuery.imei_ilike ("%" +:+ m +:+ "%")) j = true
  ↔ contains_nocase (T.imei j.1) m.
Proof.
  intros Hm. cbn [TagsQuery.holds]. unfold Sql.ilike, contains_nocase.
  rewrite !list_ascii_of_string_app. cbn [list_ascii_of_string app].
  rewrite ilike_go_percent_spec. split.
  - intros (pre & suf & E & H).
    apply (ilike_go_prefix _ Hm) in H as (mid & post & -> & Hl).
    by exists pre, mid, post.
  - intros (pre & mid & post & E & Hl). exists pre, (mid ++ post).
    split; [done|]. apply (ilike_go_prefix _ Hm). by exists mid, post.
Qed.

Lemma model_filter_is_substring_witness :
  TagsQuery.holds (TagsQuery.imei_ilike ("%" +:+ "b-12" +:+ "%"))
    (Sample.tag 7 "acme" "AB-123-x", Sample.org 1 "acme") = true
  ↔ contains_nocase "AB-123-x" "b-12".
Proof.
  apply (model_filter_is_substring "b-12"
           (Sample.tag 7 "acme" "AB-123-x", Sample.org 1 "acme")).
  unfold plain_text. cbn. repeat constructor; discriminate.
Defined.

(** A model with a wildcard is read as a pattern: [_] alone matches every
    imei that is not empty. *)
Example model_wildcard_ex :
  TagsQuery.holds (TagsQuery.imei_ilike ("%" +:+ "_" +:+ "%"))
    (Sample.tag 7 "acme" "AB-123-x", Sample.org 1 "acme") = true.
Proof. reflexivity. Qed.

(** * Bulk calls: what they leave alone, and what they leave behind *)

Lemma Forall2_in_r {X Y} (P : X → Y → Prop) (l : list X) (k : list Y) (y : Y) :
  Forall2 P l k → y ∈ k → ∃ x, x ∈ l ∧ P x y.
Proof.
  induction 1 as [|x y' l k Hxy _ IH]; intros Hy.
  - by apply not_elem_of_nil in Hy.
  - apply elem_of_cons in Hy as [->|Hy].
    + exists x. split; [by left|done].
    + destruct (IH Hy) as (x' & Hx' & HP). exists x'. split; [by right|done].
Qed.

Lemma Forall2_in_l {X Y} (P : X → Y → Prop) (l : list X) (k : list Y) (x : X) :
  Forall2 P l k → x ∈ l → ∃ y, y ∈ k ∧ P x y.
Proof.
  induction 1 as [|x' y l k Hxy _ IH]; intros Hx.
  - by apply not_elem_of_nil in Hx.
  - apply elem_of_cons in Hx as [->|Hx].
    + exists y. split; [by left|done].
    + destruct (IH Hx) as (y' & Hy' & HP). exists y'. split; [by right|done].
Qed.

Lemma Forall2_map_eq {X Y} (f : X → Y) (l k : list X) :
  Forall2 (λ x y, f y = f x) l k → map f k = map f l.
Proof. induction 1; cbn; congruence. Qed.

(** The database that the two commits at the end of a bulk call leave:
    the work of the transaction, or what was there before it when an
    error has aborted it. *)
Lemma commit_durable (w3 : World) :
  status w3 ≠ STATUS_READY →
  durable (Conn.commit_world (tick (Conn.commit_world w3))) = working w3 ∨
  durable (Conn.commit_world (tick (Conn.commit_world w3))) = durable w3.
Proof.
  intros Hs. destruct (status w3) eqn:E; [done| |].
  - left. by rewrite commit_after_loop.
  - right. by rewrite commit_after_abort.
Qed.

(** What a bulk call on alarms leaves alone. *)
Lemma handle_alarms_leaves env areq who w :
  at_rest w → undisturbed env →
  let w' := (AlarmsBulk.handle_alarms env areq who w).2 in
  Tags (durable w') = Tags (durable w) ∧
  Tracking_Objects (durable w') = Tracking_Objects (durable w) ∧
  Organizations (durable w') = Organizations (durable w) ∧
  Route_List (durable w') = Route_List (durable w) ∧
  map alarm_identity (Alarms (durable w'))
    = map alarm_identity (Alarms (durable w)).
Proof.
  intros Hrest Hquiet. pose proof Hrest as [Hst Hwd]. cbn zeta.
  rewrite handle_alarms_unfold by (by apply at_rest_usable). cbn zeta.
  destruct (rollback_after_select w
    [SELECT_alarms_by_ids (AlarmHandleRequest.alarm_ids areq)] Hrest)
    as (Hd & _); [done|]. cbn [foldl] in Hd.
  repeat case_bool_decide; cbn [snd]; try (by rewrite Hd).
  set (w2 := (Conn.concurrent_activity env _).2).
  rewrite alarm_turn_world.
  destruct (alarm_fold_facts env who (AlarmHandleRequest.reason areq)
              (AlarmHandleRequest.alarm_ids areq) w2)
    as (Hd3 & _ & _ & Hs3 & Ht & Hto & Ho & Hr & Hi).
  destruct (commit_durable _ (Hs3 ltac:(done))) as [-> | ->].
  - rewrite Ht, Hto, Ho, Hr, Hi. subst w2.
    cbn [Conn.concurrent_activity snd working Conn.sent].
    by rewrite Hquiet, Hwd.
  - rewrite Hd3. subst w2.
    cbn [Conn.concurrent_activity snd durable Conn.sent].
    by rewrite Hquiet.
Qed.

(** What a transfer of tags leaves alone. *)
Lemma transfer_tags_leaves env treq w :
  at_rest w → undisturbed env →
  let w' := (TagsBulk.transfer_tags env treq w).2 in
  Alarms (durable w') = Alarms (durable w) ∧
  Tracking_Objects (durable w') = Tracking_Objects (durable w) ∧
  Organizations (durable w') = Organizations (durable w) ∧
  Route_List (durable w') = Route_List (durable w) ∧
  map tag_identity (Tags (durable w')) = map tag_identity (Tags (durable w)).
Proof.
  intros Hrest Hquiet. pose proof Hrest as [Hst Hwd]. cbn zeta.
  rewrite transfer_tags_unfold by (by apply at_rest_usable). cbn zeta.
  destruct (rollback_after_select w
    [SELECT_organization_by_id (TagTransferRequest.new_organization_id treq)]
    Hrest) as (Hd & _); [done|]. cbn [foldl] in Hd.
  destruct (rollback_after_select w
    [SELECT_organization_by_id (TagTransferRequest.new_organization_id treq);
     SELECT_tags_by_ids (TagTransferRequest.tag_ids treq)]
    Hrest) as (Hd' & _); [done|]. cbn [foldl working Conn.sent] in Hd'.
  destruct (Sql.fetchone _) as [org|]; cbn [snd]; [|by rewrite Hd].
  case_bool_decide; cbn [snd]; [by rewrite Hd'|].
  set (w2 := (Conn.concurrent_activity env _).2).
  rewrite tag_turn_world.
  destruct (tag_fold_facts env org (TagTransferRequest.tag_ids treq) w2)
    as (Hd3 & _ & _ & Hs3 & Ha & Hto & Ho & Hr & Hi).
  destruct (commit_durable _ (Hs3 ltac:(done))) as [-> | ->].
  - rewrite Ha, Hto, Ho, Hr, Hi. subst w2.
    cbn [Conn.concurrent_activity snd working Conn.sent].
    by rewrite Hquiet, Hwd.
  - rewrite Hd3. subst w2.
    cbn [Conn.concurrent_activity snd durable Conn.sent].
    by rewrite Hquiet.
Qed.

(** X17. With no other session at work, a bulk call, whatever its
    request and its outcome, leaves alone what it has no statement for.
    Handling alarms changes no tag, tracking object, organization or
    route, adds or removes no alarm, and changes no column of an alarm
    other than the four of its handling; transferring tags changes no
    alarm, tracking object, organization or route, adds or removes no
    tag, and changes no column of a tag other than its organization. *)
Theorem bulk_calls_frame env areq who treq w :
  at_rest w → undisturbed env →
  (let w' := (AlarmsBulk.handle_alarms env areq who w).2 in
   Tags (durable w') = Tags (durable w) ∧
   Tracking_Objects (durable w') = Tracking_Objects (durable w) ∧
   Organizations (durable w') = Organizations (durable w) ∧
   Route_List (durable w') = Route_List (durable w) ∧
   map alarm_identity (Alarms (durable w'))
     = map alarm_identity (Alarms (durable w))) ∧
  (let w' := (TagsBulk.transfer_tags env treq w).2 in
   Alarms (durable w') = Alarms (durable w) ∧
   Tracking_Objects (durable w') = Tracking_Objects (durable w) ∧
   Organizations (durable w') = Organizations (durable w) ∧
   Route_List (durable w') = Route_List (durable w) ∧
   map tag_identity (Tags (durable w')) = map tag_identity (Tags (durable w))).
Proof.
  intros Hrest Hquiet.
  split; [by apply handle_alarms_leaves|by apply transfer_tags_leaves].
Qed.

Lemma bulk_calls_frame_witness :
  (let w' := (AlarmsBulk.handle_alarms Sample.quiet (Sample.handle [1; 4]) "admin"
                (Sample.world Sample.db)).2 in
   Tags (durable w') = Tags Sample.db ∧
   Tracking_Objects (durable w') = Tracking_Objects Sample.db ∧
   Organizations (durable w') = Organizations Sample.db ∧
   Route_List (durable w') = Route_List Sample.db ∧
   map alarm_identity (Alarms (durable w')) = map alarm_identity (Alarms Sample.db)) ∧
  (let w' := (TagsBulk.transfer_tags Sample.quiet (Sample.transfer [1; 2] 2)
                (Sample.world Sample.db)).2 in
   Alarms (durable w') = Alarms Sample.db ∧
   Tracking_Objects (durable w') = Tracking_Objects Sample.db ∧
   Organizations (durable w') = Organizations Sample.db ∧
   Route_List (durable w') = Route_List Sample.db ∧
   map tag_identity (Tags (durable w')) = map tag_identity (Tags Sample.db)).
Proof.
  apply (bulk_calls_frame Sample.quiet (Sample.handle [1; 4]) "admin"
           (Sample.transfer [1; 2] 2) (Sample.world Sample.db)).
  - split; reflexivity.
  - intros d. reflexivity.
Defined.

(** X18. A transfer of tags to an organization id that no row of
    [Organizations] carries ends in 404 "Target organization not found",
    whatever the tag ids are: only the lookup of the organization is
    sent, the tags are not even looked up, the transaction is rolled back
    and the database is what it was. *)
Theorem transfer_tags_unknown_target env req w :
  at_rest w →
  (∀ o, o ∈ Organizations (working w) →
        O.id o ≠ TagTransferRequest.new_organization_id req) →
  rejected_unchanged HTTP_404_NOT_FOUND "Target organization not found"
    [SELECT_organization_by_id (TagTransferRequest.new_organization_id req)] w
    (TagsBulk.transfer_tags env req w).
Proof.
  intros Hrest Hnone. unfold rejected_unchanged.
  rewrite transfer_tags_unfold by (by apply at_rest_usable). cbn zeta.
  rewrite filter_all_false
    by (intros o Ho; apply Z.eqb_neq; by apply Hnone).
  cbn [map Sql.fetchone head].
  destruct (rollback_after_select w
    [SELECT_organization_by_id (TagTransferRequest.new_organization_id req)] Hrest)
    as (Hd & Hw & Hs & Hl & Hc); [done|]. cbn [foldl] in *.
  f_equal. destruct (Conn.rollback_world _); cbn in *; by subst.
Qed.

Lemma transfer_tags_unknown_target_witness :
  rejected_unchanged HTTP_404_NOT_FOUND "Target organization not found"
    [SELECT_organization_by_id 9] (Sample.world Sample.db)
    (TagsBulk.transfer_tags Sample.quiet (Sample.transfer [1; 77] 9)
       (Sample.world Sample.db)).
Proof.
  apply (transfer_tags_unknown_target Sample.quiet (Sample.transfer [1; 77] 9)
           (Sample.world Sample.db)).
  - split; reflexivity.
  - intros o Ho. apply list_elem_of_In in Ho. simpl in Ho.
    destruct Ho as [<-|[<-|[]]]; discriminate.
Defined.

(** A bulk call on alarms that meets no obstacle: the targets exist once
    each, share an organization, are unhandled, the server does not
    raise, nobody interferes. *)
Lemma handle_alarms_clean env req who w :
  let ids := AlarmHandleRequest.alarm_ids req in
  let why := AlarmHandleRequest.reason req in
  at_rest w → undisturbed env → no_failure env ids →
  NoDup ids → NoDup (map A.sn (Alarms (working w))) →
  (∀ id, id ∈ ids → ∃ a, a ∈ Alarms (working w) ∧ A.sn a = id) →
  (∀ a b, a ∈ fetched_alarms ids (working w) →
          b ∈ fetched_alarms ids (working w) →
          A.organization a = A.organization b) →
  (∀ a, a ∈ fetched_alarms ids (working w) → A.is_handled a ≠ Some true) →
  ∃ resp w1,
    AlarmsBulk.handle_alarms env req who w = (Ok resp, w1) ∧
    AlarmHandleResponse.handled_count resp = Z.of_nat (length ids) ∧
    AlarmHandleResponse.failed_alarm_ids resp = [] ∧
    at_rest w1 ∧
    Forall2 (handled_if_target who why ids)
      (Alarms (working w)) (Alarms (durable w1)).
Proof.
  intros ids why Hrest Hquiet Hnofail Hids Hkeys Hall Horg Hunhandled.
  pose proof (fetched_alarms_all_exist ids _ Hids Hkeys Hall) as Hlen.
  rewrite handle_alarms_checks_pass by (done || by apply at_rest_usable).
  cbn zeta. fold ids. fold why.
  set (w2 := (Conn.concurrent_activity env _).2).
  assert (working w2 = working w) as Hw2
    by (subst w2; cbn [Conn.concurrent_activity snd working Conn.sent];
        apply Hquiet).
  destruct (alarm_fold_clean env who why ids (0, []) w2) as (Hst & Hst2 & Hrows);
    [done|done|].
  cbn zeta in Hst, Hst2, Hrows. specialize (Hst2 (or_intror eq_refl)).
  rewrite Hw2 in Hst, Hrows.
  rewrite (filter_all_true (λ id, negb (alarm_gone (Alarms (working w)) id))) in Hst.
  2:{ intros id Hid. destruct (Hall id Hid) as (a & Ha & Hsn).
      pose proof (alarm_rowcount_pos a id _ Ha Hsn). unfold alarm_gone.
      apply negb_true_iff, Z.eqb_neq. lia. }
  rewrite (filter_all_false (alarm_gone (Alarms (working w)))) in Hst.
  2:{ intros id Hid. destruct (Hall id Hid) as (a & Ha & Hsn).
      pose proof (alarm_rowcount_pos a id _ Ha Hsn). unfold alarm_gone.
      apply Z.eqb_neq. lia. }
  rewrite commit_after_loop by done. rewrite Hst.
  eexists _, _. split; [reflexivity|].
  cbn [AlarmHandleResponse.handled_count AlarmHandleResponse.failed_alarm_ids
       fst snd durable].
  split; [lia|]. split; [done|]. split; [by split|done].
Qed.

Lemma handled_if_target_sn who why ids a a' :
  handled_if_target who why ids a a' →
  A.sn a' = A.sn a ∧ A.organization a' = A.organization a.
Proof.
  unfold handled_if_target. destruct (Py.mem (A.sn a) ids).
  - by intros [now ->].
  - by intros ->.
Qed.

Lemma handled_targets who why ids rows rows' a' :
  Forall2 (handled_if_target who why ids) rows rows' →
  a' ∈ rows' → A.sn a' ∈ ids →
  A.is_handled a' = Some true ∧ A.handled_by a' = Some who ∧
  A.handle_reason a' = why ∧ A.handled_at a' ≠ None.
Proof.
  intros H Ha' Hid. destruct (Forall2_in_r _ _ _ _ H Ha') as (a & Ha & HP).
  destruct (handled_if_target_sn _ _ _ _ _ HP) as [Hsn _].
  unfold handled_if_target in HP.
  rewrite <- Hsn, (proj2 (mem_true _ _) Hid) in HP.
  destruct HP as [now ->]. by repeat split.
Qed.

Lemma Forall2_filter_map {X Y} (p : X → bool) (f : X → Y) (l k : list X) :
  Forall2 (λ x y, p y = p x ∧ f y = f x) l k →
  map f (List.filter p k) = map f (List.filter p l).
Proof.
  induction 1 as [|x y l k [Hp Hf] _ IH]; [done|]. cbn [List.filter].
  rewrite Hp. destruct (p x); cbn [map]; congruence.
Qed.

(** The rows fetched for distinct ids that all exist carry those ids,
    once each. *)
Lemma fetched_alarms_ids ids db :
  NoDup ids → NoDup (map A.sn (Alarms db)) →
  (∀ id, id ∈ ids → ∃ a, a ∈ Alarms db ∧ A.sn a = id) →
  map A.sn (fetched_alarms ids db) ≡ₚ ids.
Proof.
  intros Hids Hkeys Hall. rewrite fetched_alarms_sn.
  apply NoDup_Permutation; [|done|].
  - apply NoDup_ListNoDup, List.NoDup_filter, NoDup_ListNoDup, Hkeys.
  - intros x. rewrite elem_of_filter, mem_true, elem_of_map.
    split; [naive_solver|]. intros Hx. split; [|done].
    destruct (Hall x Hx) as (a & Ha & Hsn). eauto.
Qed.

(** X19. Handled is final.  After a bulk call that handled all its
    targets, the same request, by whomever and in whatever circumstances,
    is refused with 400 "Alarms already handled: [...]", which lists
    every target once, in the order in which the rows are fetched, and
    changes nothing. *)
Theorem handled_alarms_stay_handled env env' req who who' w :
  let ids := AlarmHandleRequest.alarm_ids req in
  at_rest w → undisturbed env → no_failure env ids → ids ≠ [] →
  NoDup ids → NoDup (map A.sn (Alarms (working w))) →
  (∀ id, id ∈ ids → ∃ a, a ∈ Alarms (working w) ∧ A.sn a = id) →
  (∀ a b, a ∈ fetched_alarms ids (working w) →
          b ∈ fetched_alarms ids (working w) →
          A.organization a = A.organization b) →
  (∀ a, a ∈ fetched_alarms ids (working w) → A.is_handled a ≠ Some true) →
  ∃ resp w1 listed,
    AlarmsBulk.handle_alarms env req who w = (Ok resp, w1) ∧
    AlarmHandleResponse.handled_count resp = Z.of_nat (length ids) ∧
    listed ≡ₚ ids ∧
    rejected_unchanged HTTP_400_BAD_REQUEST
      ("Alarms already handled: " +:+ Py.repr_list listed)
      [SELECT_alarms_by_ids ids] w1
      (AlarmsBulk.handle_alarms env' req who' w1).
Proof.
  intros ids Hrest Hquiet Hnofail Hne Hids Hkeys Hall Horg Hunhandled.
  destruct (handle_alarms_clean env req who w Hrest Hquiet Hnofail Hids Hkeys
              Hall Horg Hunhandled) as (resp & w1 & Hcall & Hcount & _ & Hrest1 & Hrows).
  exists resp, w1, (map A.sn (fetched_alarms ids (working w))).
  split; [done|]. split; [done|].
  split; [by apply fetched_alarms_ids|].
  pose proof Hrest1 as [Hst1 Hwd1]. rewrite <- Hwd1 in Hrows.
  assert (map A.sn (Alarms (working w1)) = map A.sn (Alarms (working w))) as Hsn.
  { apply Forall2_map_eq. eapply Forall2_impl_in; [exact Hrows|].
    intros a a' _ HP. by apply handled_if_target_sn in HP as [? _]. }
  assert (map A.organization (fetched_alarms ids (working w1))
          = map A.organization (fetched_alarms ids (working w))) as Horgs.
  { unfold fetched_alarms. apply Forall2_filter_map.
    eapply Forall2_impl_in; [exact Hrows|].
    intros a a' _ HP. apply handled_if_target_sn in HP as [-> ->]. done. }
  assert (length (fetched_alarms ids (working w1)) = length ids) as Hlen.
  { apply fetched_alarms_all_exist; [done|by rewrite Hsn|].
    intros id Hid. destruct (Hall id Hid) as (a & Ha & Ha_sn).
    assert (id ∈ map A.sn (Alarms (working w1))) as Hin
      by (rewrite Hsn; apply elem_of_map; eauto).
    apply elem_of_map in Hin as (a' & Ha'sn & Ha'). eauto. }
  assert (List.filter (λ a, Py.truthy_bool (A.is_handled a))
            (fetched_alarms ids (working w1))
          = fetched_alarms ids (working w1)) as Hall_handled.
  { apply filter_all_true. intros a' Ha'. apply truthy_bool_true.
    apply elem_of_filter in Ha' as [Ha' Hmem]. apply mem_true in Hmem.
    by destruct (handled_targets who (AlarmHandleRequest.reason req) ids _ _ a'
                   Hrows Ha' Hmem) as [-> _]. }
  unfold rejected_unchanged.
  rewrite handle_alarms_unfold by (by apply at_rest_usable). cbn zeta. fold ids.
  rewrite bool_decide_eq_false_2 by (intros ?; done).
  rewrite Horgs, bool_decide_eq_false_2.
  2:{ intros Hsz. apply size_gt_1_iff in Hsz as (x & y & Hx & Hy & Hxy).
      apply elem_of_map in Hx as (a & <- & Ha).
      apply elem_of_map in Hy as (b & <- & Hb). by apply Hxy, Horg. }
  rewrite Hall_handled, bool_decide_eq_true_2.
  2:{ intros Hnil. apply (f_equal length) in Hnil.
      rewrite length_map, Hlen in Hnil. by destruct ids. }
  rewrite !fetched_alarms_sn, Hsn.
  destruct (rollback_after_select w1 [SELECT_alarms_by_ids ids] Hrest1)
    as (Hd & Hw & Hs & Hl & Hc); [done|]. cbn [foldl] in *.
  f_equal. destruct (Conn.rollback_world _); cbn in *; by subst.
Qed.

Lemma handled_alarms_stay_handled_witness :
  ∃ resp w1 listed,
    AlarmsBulk.handle_alarms Sample.quiet (Sample.handle [4; 1]) "admin"
      (Sample.world Sample.db) = (Ok resp, w1) ∧
    AlarmHandleResponse.handled_count resp = Z.of_nat (length [4; 1]) ∧
    listed ≡ₚ [4; 1] ∧
    rejected_unchanged HTTP_400_BAD_REQUEST
      ("Alarms already handled: " +:+ Py.repr_list listed)
      [SELECT_alarms_by_ids [4; 1]] w1
      (AlarmsBulk.handle_alarms Sample.rough (Sample.handle [4; 1]) "other" w1).
Proof.
  apply (handled_alarms_stay_handled Sample.quiet Sample.rough
           (Sample.handle [4; 1]) "admin" "other" (Sample.world Sample.db)).
  - split; reflexivity.
  - intros d. reflexivity.
  - intros id _. reflexivity.
  - discriminate.
  - apply (bool_decide_unpack _). vm_compute. exact I.
  - apply (bool_decide_unpack _). vm_compute. exact I.
  - intros id Hid. apply list_elem_of_In in Hid. simpl in Hid.
    destruct Hid as [<-|[<-|[]]];
      [exists (Sample.alarm 4 "acme" "222" 40 None)
      |exists (Sample.alarm 1 "acme" "111" 10 (Some false))];
      (split; [in_list|reflexivity]).
  - intros a b Ha Hb. apply list_elem_of_In in Ha, Hb. simpl in Ha, Hb.
    destruct Ha as [<-|[<-|[]]], Hb as [<-|[<-|[]]]; reflexivity.
  - intros a Ha. apply list_elem_of_In in Ha. simpl in Ha.
    destruct Ha as [<-|[<-|[]]]; discriminate.
Defined.

(** X20. From the endpoint to the table.  A request to [POST
    /alarms/handle] with 1 to 100 distinct ids and a reason of at most
    500 characters, on existing unhandled alarms of one organization and
    with nothing in its way, handles them all: every target keeps its
    row, and each such row is then marked as handled, by the [sub] of the
    caller's token or by "unknown" when the token has none, with the
    reason stripped of surrounding white space, and with a time of
    handling. *)
Theorem handled_alarms_show_handling env ids why sub w :
  at_rest w → undisturbed env → no_failure env ids →
  ids ≠ [] → (length ids ≤ 100)%nat → NoDup ids →
  (∀ s, why = Some s → (String.length s ≤ 500)%nat) →
  NoDup (map A.sn (Alarms (working w))) →
  (∀ id, id ∈ ids → ∃ a, a ∈ Alarms (working w) ∧ A.sn a = id) →
  (∀ a b, a ∈ fetched_alarms ids (working w) →
          b ∈ fetched_alarms ids (working w) →
          A.organization a = A.organization b) →
  (∀ a, a ∈ fetched_alarms ids (working w) → A.is_handled a ≠ Some true) →
  ∃ resp w1,
    AlarmsRouter.handle_alarms_bulk env ids why sub w = (Ok resp, w1) ∧
    AlarmHandleResponse.handled_count resp = Z.of_nat (length ids) ∧
    AlarmHandleResponse.failed_alarm_ids resp = [] ∧
    at_rest w1 ∧
    (∀ id, id ∈ ids → ∃ a', a' ∈ Alarms (durable w1) ∧ A.sn a' = id) ∧
    (∀ a', a' ∈ Alarms (durable w1) → A.sn a' ∈ ids →
       A.is_handled a' = Some true ∧
       A.handled_by a' = Some (default "unknown" sub) ∧
       A.handle_reason a' = PyStr.strip <$> why ∧
       A.handled_at a' ≠ None).
Proof.
  intros Hrest Hquiet Hnofail Hne Hmax Hids Hwhy Hkeys Hall Horg Hunhandled.
  assert (ReasonValidators.alarm_handle_request ids why
          = Ok {| AlarmHandleRequest.alarm_ids := ids;
                  AlarmHandleRequest.reason := PyStr.strip <$> why |}) as Hreq.
  { unfold ReasonValidators.alarm_handle_request, Validators.validate_alarm_ids.
    rewrite bool_decide_eq_false_2 by done.
    rewrite bool_decide_eq_false_2 by lia.
    rewrite bool_decide_eq_false_2
      by (intros H; apply H; by apply size_list_to_set_NoDup).
    destruct why as [s|]; [|done].
    unfold ReasonValidators.reason_field, ReasonValidators.constr_max_length,
      ReasonValidators.validate_reason.
    pose proof (Hwhy s eq_refl). pose proof (strip_length s).
    rewrite !bool_decide_eq_false_2 by lia. by destruct s. }
  destruct (handle_alarms_clean env
    {| AlarmHandleRequest.alarm_ids := ids;
       AlarmHandleRequest.reason := PyStr.strip <$> why |}
    (default "unknown" sub) w Hrest Hquiet Hnofail Hids Hkeys Hall Horg Hunhandled)
    as (resp & w1 & Hcall & Hcount & Hfailed & Hrest1 & Hrows).
  cbn [AlarmHandleRequest.alarm_ids AlarmHandleRequest.reason] in Hrows.
  exists resp, w1. split.
  { unfold AlarmsRouter.handle_alarms_bulk. rewrite Hreq.
    unfold Conn.reraise_http. by rewrite Hcall. }
  split; [done|]. split; [done|]. split; [done|]. split.
  - intros id Hid. destruct (Hall id Hid) as (a & Ha & Hsn).
    destruct (Forall2_in_l _ _ _ _ Hrows Ha) as (a' & Ha' & HP).
    exists a'. split; [done|].
    apply handled_if_target_sn in HP as [-> _]. done.
  - intros a' Ha' Hid.
    exact (handled_targets _ _ _ _ _ a' Hrows Ha' Hid).
Qed.

Lemma handled_alarms_show_handling_witness :
  ∃ resp w1,
    AlarmsRouter.handle_alarms_bulk Sample.quiet [4; 1] (Some " checked ") None
      (Sample.world Sample.db) = (Ok resp, w1) ∧
    AlarmHandleResponse.handled_count resp = Z.of_nat (length [4; 1]) ∧
    AlarmHandleResponse.failed_alarm_ids resp = [] ∧
    at_rest w1 ∧
    (∀ id, id ∈ [4; 1] → ∃ a', a' ∈ Alarms (durable w1) ∧ A.sn a' = id) ∧
    (∀ a', a' ∈ Alarms (durable w1) → A.sn a' ∈ [4; 1] →
       A.is_handled a' = Some true ∧
       A.handled_by a' = Some (default "unknown" None) ∧
       A.handle_reason a' = PyStr.strip <$> Some " checked " ∧
       A.handled_at a' ≠ None).
Proof.
  apply (handled_alarms_show_handling Sample.quiet [4; 1] (Some " checked ") None
           (Sample.world Sample.db)).
  - split; reflexivity.
  - intros d. reflexivity.
  - intros id _. reflexivity.
  - discriminate.
  - simpl. lia.
  - apply (bool_decide_unpack _). vm_compute. exact I.
  - intros s [= <-]. simpl. lia.
  - apply (bool_decide_unpack _). vm_compute. exact I.
  - intros id Hid. apply list_elem_of_In in Hid. simpl in Hid.
    destruct Hid as [<-|[<-|[]]];
      [exists (Sample.alarm 4 "acme" "222" 40 None)
      |exists (Sample.alarm 1 "acme" "111" 10 (Some false))];
      (split; [in_list|reflexivity]).
  - intros a b Ha Hb. apply list_elem_of_In in Ha, Hb. simpl in Ha, Hb.
    destruct Ha as [<-|[<-|[]]], Hb as [<-|[<-|[]]]; reflexivity.
  - intros a Ha. apply list_elem_of_In in Ha. simpl in Ha.
    destruct Ha as [<-|[<-|[]]]; discriminate.
Defined.

Example handle_endpoint_ex :
  map (λ a, (A.sn a, A.is_handled a, A.handled_by a, A.handled_at a,
             A.handle_reason a))
    (Alarms (durable (AlarmsRouter.handle_alarms_bulk Sample.quiet [4; 1]
                        (Some " checked ") None (Sample.world Sample.db)).2))
  = [(1, Some true, Some "unknown", Some 1001, Some "checked");
     (2, Some true, None, None, None);
     (3, None, None, None, None);
     (4, Some true, Some "unknown", Some 1000, Some "checked");
     (5, Some false, None, None, None)].
Proof. vm_compute. reflexivity. Qed.





(** * The pool over a run of operations *)

Lemma get_pool_found net p pl :
  Connection._pool p = Some pl → Connection.get_pool net p = (Some pl, p).
Proof. intros H. unfold Connection.get_pool. by rewrite H. Qed.

Lemma get_pool_calls_found nets : ∀ acc p pl,
  Connection._pool p = Some pl →
  foldl (λ acc net, ((acc.1 ++ [(Connection.get_pool net acc.2).1]),
                     (Connection.get_pool net acc.2).2)) (acc, p) nets
  = (acc ++ map (λ _, Some pl) nets, p).
Proof.
  induction nets as [|net nets IH]; intros acc p pl Hp; cbn [foldl map].
  - by rewrite app_nil_r.
  - cbn [fst snd]. rewrite (get_pool_found net p pl Hp). cbn [fst snd].
    rewrite (IH _ p pl Hp). by rewrite <- app_assoc.
Qed.

(** No operation takes the pool away from the process. *)
Lemma run_operation_keeps_pool op p :
  is_Some (Connection._pool p) →
  is_Some (Connection._pool (run_operation p op)).
Proof.
  intros [pl Hp].
  unfold run_operation, Connection.scope, Connection.next, Connection.get_conn.
  rewrite (get_pool_found _ p pl Hp).
  destruct (Connection.getconn (op_net op) pl) as [[c|e] pl'].
  - unfold Connection.gen_close. cbn [Connection.set_pool Connection._pool].
    destruct (op_body op c); cbn [snd Connection.set_pool Connection._pool]; eauto.
  - cbn [Connection.gen_close snd Connection.set_pool Connection._pool]. eauto.
Qed.

Lemma run_operations_keep_pool ops : ∀ p,
  is_Some (Connection._pool p) →
  is_Some (Connection._pool (foldl run_operation p ops)).
Proof.
  induction ops as [|op ops IH]; intros p Hp; [done|]. cbn [foldl].
  by apply IH, run_operation_keeps_pool.
Qed.

(** X22. [get_pool] makes the pool at most once.  When a call returns a
    pool, the process holds that pool; any number of further calls, under
    whatever states of the network, return that same pool and leave the
    process as it is; and after any operations that were served in
    between, a call still returns the pool that the process holds then,
    without making one.  When a call fails it returns [None] and keeps
    nothing: the process is what it was, so that the next call connects
    again, and makes the pool if the server can be reached then. *)
Theorem get_pool_made_once net p :
  match Connection.get_pool net p with
  | (Some pl, p1) =>
      Connection._pool p1 = Some pl ∧
      (∀ nets, get_pool_calls nets p1 = (map (λ _, Some pl) nets, p1)) ∧
      (∀ ops net', ∃ pl',
         Connection._pool (foldl run_operation p1 ops) = Some pl' ∧
         Connection.get_pool net' (foldl run_operation p1 ops)
           = (Some pl', foldl run_operation p1 ops))
  | (None, p1) =>
      p1 = p ∧ Connection._pool p = None ∧
      Connection.pool_reachable net = false ∧
      (∀ net',
         Connection.get_pool net' p1 =
         if Connection.pool_reachable net'
         then (Some Connection.new_pool,
               Connection.set_pool p Connection.new_pool)
         else (None, p))
  end.
Proof.
  assert (∀ p1 pl, Connection._pool p1 = Some pl →
    Connection._pool p1 = Some pl ∧
    (∀ nets, get_pool_calls nets p1 = (map (λ _, Some pl) nets, p1)) ∧
    (∀ ops net', ∃ pl',
       Connection._pool (foldl run_operation p1 ops) = Some pl' ∧
       Connection.get_pool net' (foldl run_operation p1 ops)
         = (Some pl', foldl run_operation p1 ops))) as Hheld.
  { intros p1 pl Hp1. split; [done|]. split.
    - intros nets. unfold get_pool_calls.
      by rewrite (get_pool_calls_found nets [] p1 pl Hp1).
    - intros ops net'.
      destruct (run_operations_keep_pool ops p1) as [pl' Hpl']; [by eauto|].
      exists pl'. split; [done|]. by apply get_pool_found. }
  unfold Connection.get_pool at 1.
  destruct (Connection._pool p) as [pl|] eqn:E.
  - by apply Hheld.
  - destruct (Connection.pool_reachable net) eqn:Hnet.
    + by apply Hheld.
    + split; [done|]. split; [done|]. split; [done|].
      intros net'. unfold Connection.get_pool. rewrite E.
      by destruct (Connection.pool_reachable net').
Qed.

Example get_pool_retry_ex :
  let down := {| Connection.pool_reachable := false;
                 Connection.direct_reachable := false |} in
  let up := {| Connection.pool_reachable := true;
               Connection.direct_reachable := true |} in
  (get_pool_calls [down; down; up; down; up] initial_process).1
  = [None; None; Some Connection.new_pool; Some Connection.new_pool;
     Some Connection.new_pool].
Proof. reflexivity. Qed.



Lemma direct_scope op p :
  Connection._pool p = None → Connection.pool_reachable (op_net op) = false →
  let p' := run_operation p op in
  Connection._pool p' = None ∧
  Connection.direct_closed p' = Connection.direct_closed p ∧
  length (Connection.direct_open p') =
    (length (Connection.direct_open p)
     + if Connection.direct_reachable (op_net op) then 1 else 0)%nat.
Proof.
  intros Hpool Hnet. cbn zeta.
  unfold run_operation, Connection.scope, Connection.next, Connection.get_conn,
    Connection.get_pool. rewrite Hpool, Hnet.
  destruct (Connection.direct_reachable (op_net op)); cbn [Connection.gen_close].
  - destruct (op_body op _); cbn; (split; [done|split; [done|lia]]).
  - cbn. split; [done|split; [done|lia]].
Qed.

(** X24. While the pool cannot be made, every operation that can connect
    directly opens a connection of its own, and [get_conn] closes none of
    them: its [conn.close()] stands after the [yield], where the
    generator made by [next(get_conn())] is never resumed. *)
Theorem direct_connections_never_closed (ops : list operation) :
  Forall (λ op, Connection.pool_reachable (op_net op) = false) ops →
  let p := run_operations ops in
  Connection._pool p = None ∧
  Connection.direct_closed p = [] ∧
  length (Connection.direct_open p) =
    length (List.filter (λ op, Connection.direct_reachable (op_net op)) ops).
Proof.
  intros Hops. cbn zeta. unfold run_operations.
  assert (∀ p, Connection._pool p = None →
    let p' := foldl run_operation p ops in
    Connection._pool p' = None ∧
    Connection.direct_closed p' = Connection.direct_closed p ∧
    length (Connection.direct_open p') =
      (length (Connection.direct_open p)
       + length (List.filter (λ op, Connection.direct_reachable (op_net op)) ops))%nat)
    as H.
  { induction Hops as [|op ops Hop Hops IH]; intros p Hp; cbn [foldl List.filter].
    - cbn. split; [done|split; [done|lia]].
    - destruct (direct_scope op p Hp Hop) as (H1 & H2 & H3).
      destruct (IH (run_operation p op) H1) as (H4 & H5 & H6).
      cbn zeta in *. rewrite H4, H5, H6, H2, H3.
      destruct (Connection.direct_reachable (op_net op)); cbn [length];
        (split; [done|split; [done|lia]]). }
  destruct (H initial_process eq_refl) as (H1 & H2 & H3).
  cbn zeta in *. by rewrite H1, H2, H3.
Qed.

Lemma direct_connections_never_closed_witness :
  let offline :=
    {| op_net := {| Connection.pool_reachable := false;
                    Connection.direct_reachable := true |};
       op_reraise := true; op_message := "Failed to fetch alarms";
       op_body := λ _, Connection.returns |} in
  let p := run_operations [offline; offline; offline] in
  Connection._pool p = None ∧
  Connection.direct_closed p = [] ∧
  length (Connection.direct_open p) =
    length (List.filter (λ op, Connection.direct_reachable (op_net op))
              [offline; offline; offline]).
Proof.
  intros offline.
  apply (direct_connections_never_closed [offline; offline; offline]).
  repeat constructor.
Defined.

(** * The other listings after a bulk call on alarms *)

(** X26. Handling alarms touches no other listing: with no other session
    at work, the tag listing, the route listing, the route statistics and
    the dropdown of organizations answer after a bulk call on alarms,
    whatever its outcome, what they answered before. *)
Theorem handling_touches_no_other_listing env req who w tf rf
  (collate_le : string → string → bool) org s e :
  at_rest w → undisturbed env →
  let w' := (AlarmsBulk.handle_alarms env req who w).2 in
  TagsQuery.get_tags_with_filters tf (durable w')
    = TagsQuery.get_tags_with_filters tf (durable w) ∧
  RoutesQuery.get_routes_with_filters rf (durable w')
    = RoutesQuery.get_routes_with_filters rf (durable w) ∧
  RoutesStatistics.get_route_statistics org s e (durable w')
    = RoutesStatistics.get_route_statistics org s e (durable w) ∧
  OrganizationsQuery.get_organizations collate_le (durable w')
    = OrganizationsQuery.get_organizations collate_le (durable w).
Proof.
  intros Hrest Hquiet w'.
  destruct (handle_alarms_leaves env req who w Hrest Hquiet)
    as (Ht & Hto & Ho & Hr & _). fold w' in Ht, Hto, Ho, Hr.
  split; [|split; [|split]].
  - unfold TagsQuery.get_tags_with_filters, TagsQuery.fetch_count,
      TagsQuery.fetchall, TagsQuery.from_joined. by rewrite Ht, Ho.
  - by rewrite !get_routes_refused.
  - unfold RoutesStatistics.get_route_statistics, RoutesQuery.from_count.
    by rewrite Ht, Ho, Hr.
  - unfold OrganizationsQuery.get_organizations. by rewrite Ho.
Qed.

Lemma handling_touches_no_other_listing_witness :
  let w' := (AlarmsBulk.handle_alarms Sample.quiet (Sample.handle [4; 1]) "admin"
               (Sample.world Sample.db)).2 in
  TagsQuery.get_tags_with_filters (Sample.tags_like (Some "acme") None 1 10) (durable w')
    = TagsQuery.get_tags_with_filters (Sample.tags_like (Some "acme") None 1 10)
        Sample.db ∧
  RoutesQuery.get_routes_with_filters (Sample.routes_of "acme" 0 1000 1 10) (durable w')
    = RoutesQuery.get_routes_with_filters (Sample.routes_of "acme" 0 1000 1 10)
        Sample.db ∧
  RoutesStatistics.get_route_statistics "acme" 0 1000 (durable w')
    = RoutesStatistics.get_route_statistics "acme" 0 1000 Sample.db ∧
  OrganizationsQuery.get_organizations String.leb (durable w')
    = OrganizationsQuery.get_organizations String.leb Sample.db.
Proof.
  apply (handling_touches_no_other_listing Sample.quiet (Sample.handle [4; 1])
           "admin" (Sample.world Sample.db)
           (Sample.tags_like (Some "acme") None 1 10)
           (Sample.routes_of "acme" 0 1000 1 10) String.leb "acme" 0 1000).
  - split; reflexivity.
  - intros d. reflexivity.
Defined.

